(** * Monitor_news: detection, reconciliation and publication state

    A shallow embedding of the scanner, news-aggregation, persistence and
    publication code of the repository, and the properties that the
    natural-language specification states about it.

    Conventions of the embedding:
    - a JavaScript [Date] is its [getTime()] value, a [Z] of milliseconds;
      where a [Date] can be invalid it is an [option Z], [None] standing for
      the [NaN] of an Invalid Date;
    - strings are [string]s of 8-bit characters; [toLowerCase] and [trim]
      act on the ASCII letters and the ASCII white space;
    - a MongoDB collection is the list of its documents in insertion order;
    - an awaited call to an external collaborator (chain RPC, news feed,
      Twitter, Telegram) is an argument giving the outcome of that call;
    - a JavaScript exception caught by the enclosing [try] is an error value
      threaded through the code that can raise it. *)

From Stdlib Require Import ZArith String Ascii DecimalString Lia.
From Stdlib Require DecimalZ DecimalPos.
From stdpp Require Import base gmap sets list strings sorting.

Open Scope string_scope.
Open Scope Z_scope.
Disable Notation "_ ++ _" : string_scope.

(** ** JavaScript strings and values *)

Module Js.

Definition is_upper (c : ascii) : bool :=
  let n := nat_of_ascii c in (65 <=? n)%nat && (n <=? 90)%nat.

Definition lower_char (c : ascii) : ascii :=
  if is_upper c then ascii_of_nat (nat_of_ascii c + 32) else c.

(** [String.prototype.toLowerCase] *)
Fixpoint toLowerCase (s : string) : string :=
  match s with
  | EmptyString => EmptyString
  | String c r => String (lower_char c) (toLowerCase r)
  end.

(** White space removed by [trim]: TAB, LF, VT, FF, CR and the space. *)
Definition is_space (c : ascii) : bool :=
  let n := nat_of_ascii c in
  ((9 <=? n)%nat && (n <=? 13)%nat) || (n =? 32)%nat.

Fixpoint trimStart (s : string) : string :=
  match s with
  | EmptyString => EmptyString
  | String c r => if is_space c then trimStart r else s
  end.

Definition trimEnd (s : string) : string :=
  String.rev (trimStart (String.rev s)).

(** [String.prototype.trim] *)
Definition trim (s : string) : string := trimEnd (trimStart s).

(** Truthiness of a string: only the empty string is falsy. *)
Definition truthy_str (s : string) : bool :=
  match s with EmptyString => false | _ => true end.

(** [a || b] on strings. *)
Definition or_str (a b : string) : string :=
  if truthy_str a then a else b.

(** Stable sort, as [Array.prototype.sort] with the comparator
    [(a, b) => key(b) - key(a)]: descending in [key], elements with equal
    keys keep their relative order. *)
Section Sort.
Context {A : Type} (key : A → Z).

Fixpoint insertDesc (x : A) (l : list A) : list A :=
  match l with
  | [] => [x]
  | y :: l' => if key x <? key y then y :: insertDesc x l' else x :: l
  end.

Fixpoint sortDesc (l : list A) : list A :=
  match l with
  | [] => []
  | x :: l' => insertDesc x (sortDesc l')
  end.
End Sort.

(** [Array.prototype.sort] with any comparator; [None] is a comparator
    value of [NaN], which the sort takes for [+0].  The sort is stable: an
    element moves behind another only when the comparator, called on the
    two, is negative.  Where the comparator is consistent this is the order
    the language fixes; where it is not (an array that mixes valid and
    invalid dates under a comparator that subtracts them) the order is left
    to the engine, and this is the order of a stable insertion sort. *)
Section SortWith.
Context {A : Type} (compare : A → A → option Z).

Fixpoint insertWith (x : A) (l : list A) : list A :=
  match l with
  | [] => [x]
  | y :: l' =>
      if default 0 (compare y x) <? 0 then y :: insertWith x l' else x :: l
  end.

Fixpoint sortWith (l : list A) : list A :=
  match l with
  | [] => []
  | x :: l' => insertWith x (sortWith l')
  end.
End SortWith.

(** [Array.prototype.filter] with the callback's [(element, index)]
    arguments; [i] is the index of the head of [l]. *)
Fixpoint filterFrom {A : Type} (p : A → Z → bool) (i : Z) (l : list A) : list A :=
  match l with
  | [] => []
  | x :: l' =>
      if p x i then x :: filterFrom p (i + 1) l' else filterFrom p (i + 1) l'
  end.

Definition filteri {A : Type} (p : A → Z → bool) (l : list A) : list A :=
  filterFrom p 0 l.

(** [Array.prototype.findIndex]: the first index whose element satisfies
    the callback, or [-1].  The callback is told of which element of the
    array it is asked: [p x i] for the element [x] at index [i]; [i] is the
    index of the head of [l]. *)
Fixpoint findIndexFrom {A : Type} (p : A → Z → bool) (i : Z) (l : list A)
    : Z :=
  match l with
  | [] => -1
  | x :: l' => if p x i then i else findIndexFrom p (i + 1) l'
  end.

(** [s.includes(sub)] *)
Fixpoint includes (sub s : string) : bool :=
  String.prefix sub s
  || match s with
     | EmptyString => false
     | String _ r => includes sub r
     end.

(** *** Dynamically typed values (a parsed JSON payload) *)

#[warnings="-register-all"]
Inductive JsVal :=
| JUndefined
| JNull
| JBool (b : bool)
| JNum (n : Z)
| JStr (s : string)
| JArr (elems : list JsVal)
| JObj (fields : list (string * JsVal)).

(** [ToBoolean] *)
Definition truthy (v : JsVal) : bool :=
  match v with
  | JUndefined | JNull => false
  | JBool b => b
  | JNum n => negb (n =? 0)
  | JStr s => truthy_str s
  | JArr _ | JObj _ => true
  end.

(** [a || b] *)
Definition or_val (a b : JsVal) : JsVal := if truthy a then a else b.

Definition string_of_Z (n : Z) : string := NilZero.string_of_int (Z.to_int n).

(** [String(v)], the conversion applied by a template literal. *)
Fixpoint toString (v : JsVal) : string :=
  match v with
  | JUndefined => "undefined"
  | JNull => "null"
  | JBool true => "true"
  | JBool false => "false"
  | JNum n => string_of_Z n
  | JStr s => s
  | JArr elems =>
      (fix join (l : list JsVal) : string :=
         match l with
         | [] => ""
         | x :: r =>
             let sx := match x with
                       | JUndefined | JNull => ""
                       | _ => toString x
                       end in
             match r with
             | [] => sx
             | _ :: _ => sx +:+ "," +:+ join r
             end
         end) elems
  | JObj _ => "[object Object]"
  end.

Fixpoint assoc (p : string) (fields : list (string * JsVal)) : JsVal :=
  match fields with
  | [] => JUndefined
  | (k, v) :: r => if bool_decide (k = p) then v else assoc p r
  end.

(** [v.p]: a [TypeError] ([None]) on [undefined] and [null]; none of the
    property names read by the code exists on a primitive or an array. *)
Definition getProp (v : JsVal) (p : string) : option JsVal :=
  match v with
  | JUndefined | JNull => None
  | JObj fields => Some (assoc p fields)
  | _ => Some JUndefined
  end.

(** [v?.p] *)
Definition getPropOpt (v : JsVal) (p : string) : JsVal :=
  match v with
  | JObj fields => assoc p fields
  | _ => JUndefined
  end.

(** [s.split("::")], scanning for the separator from the left. *)
Fixpoint splitFrom (acc : string) (s : string) : list string :=
  match s with
  | EmptyString => [String.rev acc]
  | String c r =>
      match r with
      | String c' r' =>
          if bool_decide (c = ":"%char) && bool_decide (c' = ":"%char)
          then String.rev acc :: splitFrom EmptyString r'
          else splitFrom (String c acc) r
      | EmptyString => [String.rev (String c acc)]
      end
  end.

Definition split_colons (s : string) : list string := splitFrom EmptyString s.

(** [s.slice(-n)] on a string: its last [n] characters. *)
Definition slice_last (n : nat) (s : string) : string :=
  let l := list_ascii_of_string s in
  string_of_list_ascii (drop (length l - n)%nat l).

(** [v.split("::")]: only strings have the method. *)
Definition split_val (v : JsVal) : option (list string) :=
  match v with
  | JStr s => Some (split_colons s)
  | _ => None
  end.

(** [v.slice(-n)]: strings and arrays have the method. *)
Definition slice_val (n : nat) (v : JsVal) : option JsVal :=
  match v with
  | JStr s => Some (JStr (slice_last n s))
  | JArr l => Some (JArr (drop (length l - n)%nat l))
  | _ => None
  end.

(** [arr.pop()] on a fresh array: its last element. *)
Definition pop (l : list string) : JsVal :=
  match last l with
  | Some s => JStr s
  | None => JUndefined
  end.

(** [a === b] for values held by two different records: primitives are
    compared by value; an array or an object is identical to itself only,
    and the two operands, parsed from separately received payloads, are
    never the same object. *)
Class StrictEq (A : Type) := strictEquals : A → A → bool.

#[global] Instance string_StrictEq : StrictEq string :=
  λ a b, bool_decide (a = b).

#[global] Instance JsVal_StrictEq : StrictEq JsVal :=
  λ a b,
    match a, b with
    | JUndefined, JUndefined | JNull, JNull => true
    | JBool x, JBool y => bool_decide (x = y)
    | JNum x, JNum y => x =? y
    | JStr x, JStr y => bool_decide (x = y)
    | _, _ => false
    end.

(** [d.getTime()]: the milliseconds of a date, [None] for the [NaN] of an
    Invalid Date. *)
Class HasTime (T : Type) := getTime : T → option Z.

(** A date known to be valid. *)
#[global] Instance Z_HasTime : HasTime Z := Some.

#[global] Instance Date_HasTime : HasTime (option Z) := id.

End Js.

(** ** Record shapes ([src/types/index.ts]) *)

Inductive Network := sui | bnb.

Global Instance Network_eq_dec : EqDecision Network.
Proof. solve_decision. Defined.

(** [CoinData].  Numeric market fields are integers here; the scanners only
    ever write [0] into them.  The address slot is typed by [Addr]: [string]
    for typed producers, a raw JavaScript value where the producer copies an
    untyped payload field.  The launch time is typed by [Time]: [Z] where
    the producer builds the date from a number, [option Z] where it builds
    it from a string that [Date] may fail to parse. *)
Module CoinData.

Record t (Addr Time : Type) := mk {
  id : string;
  symbol : string;
  name : string;
  network : Network;
  contractAddress : Addr;
  marketCap : Z;
  volume24h : Z;
  price : Z;
  priceChange24h : Z;
  launchTime : Time;
  dextoolsUrl : option string;
  dexscreenerUrl : option string;
  verified : option bool
}.
Arguments mk {Addr Time}.
Arguments id {Addr Time}.
Arguments symbol {Addr Time}.
Arguments name {Addr Time}.
Arguments network {Addr Time}.
Arguments contractAddress {Addr Time}.
Arguments marketCap {Addr Time}.
Arguments volume24h {Addr Time}.
Arguments price {Addr Time}.
Arguments priceChange24h {Addr Time}.
Arguments launchTime {Addr Time}.
Arguments dextoolsUrl {Addr Time}.
Arguments dexscreenerUrl {Addr Time}.
Arguments verified {Addr Time}.

End CoinData.

(** ** OnchainPairScannerService: in-call reconciliation *)

Module Scanner.

(** [removeDuplicatesAndSort]: keep the first record of every
    [contractAddress] (compared with [===]), then sort newest first.  The
    callback of [findIndex] answers [true] on the record [coin] itself, at
    [index], whatever its address is; on another record it compares the two
    addresses.  The comparator subtracts the two [getTime()], and is [NaN]
    as soon as one of the two dates is invalid. *)
Definition removeDuplicatesAndSort {Addr Time : Type}
    `{!Js.StrictEq Addr, !Js.HasTime Time}
    (coins : list (CoinData.t Addr Time)) : list (CoinData.t Addr Time) :=
  let uniqueCoins :=
    Js.filteri
      (λ coin index,
         Js.findIndexFrom
           (λ c i,
              (i =? index)
              || Js.strictEquals (CoinData.contractAddress c)
                                 (CoinData.contractAddress coin))
           0 coins =? index)
      coins in
  Js.sortWith
    (λ a b,
       tb ← Js.getTime (CoinData.launchTime b);
       ta ← Js.getTime (CoinData.launchTime a);
       Some (tb - ta))
    uniqueCoins.

(** *** Move-chain events *)

(** The [id] of a Sui event. *)
Record SuiEventId := mkSuiEventId {
  txDigest : string;
  eventSeq : string
}.

(** A raw event as returned by [queryEvents]; a [None] field is
    [undefined] or [null].  The node delivers [timestampMs] as a string of
    decimal digits. *)
Record SuiEvent := mkSuiEvent {
  ev_id : option SuiEventId;
  ev_type : option string;
  timestampMs : option string;
  parsedJson : Js.JsVal
}.

(** [ev.id.txDigest]: a [TypeError] when [ev.id] is [undefined]. *)
Definition id_txDigest (ev : SuiEvent) : option string :=
  txDigest <$> ev_id ev.

(** [ev.id?.txDigest || ""] *)
Definition id_txDigest_or_empty (ev : SuiEvent) : string :=
  match ev_id ev with
  | Some i => Js.or_str (txDigest i) ""
  | None => ""
  end.

(** [a || ev.id.txDigest] *)
Definition or_txDigest (a : Js.JsVal) (ev : SuiEvent) : option Js.JsVal :=
  if Js.truthy a then Some a else Js.JStr <$> id_txDigest ev.

(** The payload shape that [parseSuiEvent] recognises, in the order of its
    [if] / [else if] chain. *)
Inductive Shape :=
| TokenPair
| CoinTypePair
| SingleCoinType
| BarePool
| TypePath
| NoShape.

Definition shapeOf (ev : SuiEvent) : Shape :=
  let event := parsedJson ev in
  if Js.truthy (Js.getPropOpt event "token_x")
     && Js.truthy (Js.getPropOpt event "token_y") then TokenPair
  else if Js.truthy (Js.getPropOpt event "coin_type_a")
          && Js.truthy (Js.getPropOpt event "coin_type_b") then CoinTypePair
  else if Js.truthy (Js.getPropOpt event "coin_type") then SingleCoinType
  else if Js.truthy (Js.getPropOpt event "pool_id") then BarePool
  else if match ev_type ev with Some t => Js.truthy_str t | None => false end
       then TypePath
  else NoShape.

(** The three variables [symbol], [name], [contractAddress] after the
    chain of shape tests; [None] is an exception raised on the way. *)
Definition decodeShape (ev : SuiEvent)
    : option (string * string * Js.JsVal) :=
  let event := parsedJson ev in
  let symbol := "UNKNOWN" in
  let name := "Unknown Token" in
  let contractAddress := Js.JStr (id_txDigest_or_empty ev) in
  match shapeOf ev with
  | TokenPair =>
      token_x ← Js.getProp event "token_x";
      token_y ← Js.getProp event "token_y";
      sx ← Js.getProp token_x "symbol";
      sy ← Js.getProp token_y "symbol";
      nx ← Js.getProp token_x "name";
      ny ← Js.getProp token_y "name";
      pair ← Js.getProp event "pair";
      addr ← or_txDigest pair ev;
      Some (Js.toString (Js.or_val sx (Js.JStr "UNK")) +:+ "/"
              +:+ Js.toString (Js.or_val sy (Js.JStr "UNK")),
            Js.toString (Js.or_val nx (Js.JStr "Unknown")) +:+ " / "
              +:+ Js.toString (Js.or_val ny (Js.JStr "Unknown")),
            addr)
  | CoinTypePair =>
      coin_type_a ← Js.getProp event "coin_type_a";
      partsA ← Js.split_val coin_type_a;
      let symbolA := Js.toString (Js.or_val (Js.pop partsA) (Js.JStr "UNK")) in
      coin_type_b ← Js.getProp event "coin_type_b";
      partsB ← Js.split_val coin_type_b;
      let symbolB := Js.toString (Js.or_val (Js.pop partsB) (Js.JStr "UNK")) in
      pool_id ← Js.getProp event "pool_id";
      addr ← or_txDigest pool_id ev;
      Some (symbolA +:+ "/" +:+ symbolB, symbolA +:+ " / " +:+ symbolB, addr)
  | SingleCoinType =>
      coin_type ← Js.getProp event "coin_type";
      parts ← Js.split_val coin_type;
      let symbol :=
        Js.toString (Js.or_val (Js.pop parts) (Js.JStr "UNKNOWN")) in
      Some (symbol, symbol, coin_type)
  | BarePool =>
      pool_id ← Js.getProp event "pool_id";
      tail ← Js.slice_val 8 pool_id;
      Some ("POOL_" +:+ Js.toString tail, "Pool " +:+ Js.toString tail, pool_id)
  | TypePath =>
      let typeParts := Js.split_colons (default "" (ev_type ev)) in
      if 3 <=? Z.of_nat (length typeParts) then
        digest ← id_txDigest ev;
        let part := default "" (typeParts !! 2%nat) in
        Some (part +:+ "_" +:+ Js.slice_last 6 digest, part +:+ " Event",
              contractAddress)
      else Some (symbol, name, contractAddress)
  | NoShape => Some (symbol, name, contractAddress)
  end.

(** [parseSuiEvent].  [dateParse] is [Date.parse] as the engine has it,
    [None] for [NaN]; [now] is the value of [Date.now()] where the event
    time is computed and [later] its value where the identifier is built.
    [new Date(eventTime)] parses [eventTime] when it is the string of the
    event and takes it for milliseconds when it is the number of the
    clock. *)
Definition parseSuiEvent (dateParse : string → option Z) (now later : Z)
    (ev : SuiEvent) : option (CoinData.t Js.JsVal (option Z)) :=
  let launchTime :=
    match timestampMs ev with
    | Some t => if Js.truthy_str t then dateParse t else Some now
    | None => Some now
    end in
  match decodeShape ev with
  | None => None
  | Some (symbol, name, contractAddress) =>
      if negb (Js.truthy contractAddress) then None
      else
        let seq :=
          match ev_id ev with
          | Some i => Js.or_str (eventSeq i) (Js.string_of_Z later)
          | None => Js.string_of_Z later
          end in
        let address := Js.toString contractAddress in
        Some {|
          CoinData.id := address +:+ "-" +:+ seq;
          CoinData.symbol := symbol;
          CoinData.name := name;
          CoinData.network := sui;
          CoinData.contractAddress := contractAddress;
          CoinData.marketCap := 0;
          CoinData.volume24h := 0;
          CoinData.price := 0;
          CoinData.priceChange24h := 0;
          CoinData.launchTime := launchTime;
          CoinData.dextoolsUrl :=
            Some ("https://www.dextools.io/app/en/sui/pair-explorer/" +:+ address);
          CoinData.dexscreenerUrl :=
            Some ("https://dexscreener.com/sui/" +:+ address);
          CoinData.verified := Some false
        |}
  end.

(** *** The block cache *)

Record Block := mkBlock {
  number : Z;
  timestamp : Z;
  hash : string
}.

(** [Map<number, Block>]: the entries in insertion order, which is the
    order in which [keys()] enumerates them. *)
Definition BlockCache := list (Z * Block).

Fixpoint cache_get (k : Z) (m : BlockCache) : option Block :=
  match m with
  | [] => None
  | (k', b) :: m' => if k' =? k then Some b else cache_get k m'
  end.

Definition cache_has (k : Z) (m : BlockCache) : bool :=
  match cache_get k m with Some _ => true | None => false end.

Definition cache_size (m : BlockCache) : Z := Z.of_nat (length m).

(** [m.keys().next().value] *)
Definition cache_firstKey (m : BlockCache) : option Z := fst <$> head m.

Fixpoint cache_delete (k : Z) (m : BlockCache) : BlockCache :=
  match m with
  | [] => []
  | (k', b) :: m' => if k' =? k then m' else (k', b) :: cache_delete k m'
  end.

(** [m.set(k, b)]: an existing key keeps its place, a new one goes last. *)
Fixpoint cache_set (k : Z) (b : Block) (m : BlockCache) : BlockCache :=
  match m with
  | [] => [(k, b)]
  | (k', b') :: m' =>
      if k' =? k then (k, b) :: m' else (k', b') :: cache_set k b m'
  end.

(** The caching statements of [getBlockWithCache] (lines 958-963). *)
Definition cacheBlock (blockNumber : Z) (block : Block) (m : BlockCache)
    : BlockCache :=
  let m1 :=
    if cache_size m >? 100 then
      match cache_firstKey m with
      | Some firstKey => cache_delete firstKey m
      | None => m
      end
    else m in
  cache_set blockNumber block m1.

(** Outcome of one [bnbProvider.getBlock] call. *)
Inductive FetchOutcome :=
| Fetched (b : option Block)
| RateLimited
| Failed.

Record ScannerState := mkScannerState {
  blockCache : BlockCache;
  lastRequestTime : Z
}.

(** The retry loop.  Each iteration consumes one outcome; [None] when the
    outcomes run out while the loop is still waiting for a block.  The
    result is the cache and either the loop's [block] or a rethrown
    error ([inl]). *)
Fixpoint fetchLoop (blockNumber : Z) (attempts : list FetchOutcome)
    (retries : Z) (m : BlockCache) : option (BlockCache * (unit + option Block)) :=
  if retries >? 0 then
    match attempts with
    | [] => None
    | Fetched (Some block) :: _ =>
        Some (cacheBlock blockNumber block m, inr (Some block))
    | Fetched None :: rest => fetchLoop blockNumber rest retries m
    | RateLimited :: rest => fetchLoop blockNumber rest (retries - 1) m
    | Failed :: _ => Some (m, inl ())
    end
  else Some (m, inr None).

(** [getBlockWithCache]; [now] is the clock when the request is issued. *)
Definition getBlockWithCache (now : Z) (attempts : list FetchOutcome)
    (blockNumber : Z) (st : ScannerState)
    : option (ScannerState * option Block) :=
  if cache_has blockNumber (blockCache st) then
    Some (st, cache_get blockNumber (blockCache st))
  else
    match fetchLoop blockNumber attempts 3 (blockCache st) with
    | None => None
    | Some (m, inr block) =>
        Some ({| blockCache := m; lastRequestTime := now |}, block)
    | Some (m, inl _) =>
        Some ({| blockCache := m; lastRequestTime := now |},
              Some {| number := blockNumber;
                      timestamp := now / 1000;
                      hash := "0x0" |})
    end.

(** A sequence of lookups within one scan. *)
Fixpoint lookups (calls : list (Z * list FetchOutcome * Z)) (st : ScannerState)
    : option ScannerState :=
  match calls with
  | [] => Some st
  | (now, attempts, blockNumber) :: rest =>
      match getBlockWithCache now attempts blockNumber st with
      | Some (st', _) => lookups rest st'
      | None => None
      end
  end.

End Scanner.

(** ** EnhancedCryptoNewsService: the news aggregator *)

Module NewsItem.

(** [NewsItem].  The [network] slot holds whatever string the producer
    wrote; the aggregator writes ["general"] besides ["sui"]. *)
Record t := mk {
  id : string;
  title : string;
  description : string;
  url : string;
  publishedAt : Z;
  coinSymbol : string;
  network : string;
  source : string
}.

End NewsItem.

(** [{ success, data?, error? }] *)
Record ApiResponse (A : Type) := mkApiResponse {
  success : bool;
  data : option A;
  error : option string
}.
Arguments mkApiResponse {A}.
Arguments success {A}.
Arguments data {A}.
Arguments error {A}.

(** One element of the array returned by [Promise.allSettled]. *)
Inductive Settled (A : Type) :=
| Fulfilled (value : A)
| Rejected.
Arguments Fulfilled {A}.
Arguments Rejected {A}.

Module NewsService.

(** The normalised title used as the key of [removeDuplicates]. *)
Definition titleKey (item : NewsItem.t) : string :=
  Js.trim (Js.toLowerCase (NewsItem.title item)).

(** The [filter] of [removeDuplicates], with the set [seen] it updates. *)
Fixpoint removeDuplicatesFrom (seen : gset string) (news : list NewsItem.t)
    : list NewsItem.t :=
  match news with
  | [] => []
  | item :: rest =>
      let key := titleKey item in
      if bool_decide (key ∈ seen) then removeDuplicatesFrom seen rest
      else item :: removeDuplicatesFrom ({[key]} ∪ seen) rest
  end.

Definition removeDuplicates (news : list NewsItem.t) : list NewsItem.t :=
  removeDuplicatesFrom ∅ news.

(** [status === "fulfilled" && value.success ? value.data || [] : nothing] *)
Definition settledItems (r : Settled (ApiResponse (list NewsItem.t)))
    : list NewsItem.t :=
  match r with
  | Fulfilled value => if success value then default [] (data value) else []
  | Rejected => []
  end.

(** [getSuiNews], given the settled results of its two sources. *)
Definition getSuiNews
    (newsApiResult googleRssResult : Settled (ApiResponse (list NewsItem.t)))
    : ApiResponse (list NewsItem.t) :=
  let suiNews := [] in
  let suiNews := suiNews ++ settledItems newsApiResult in
  let suiNews := suiNews ++ settledItems googleRssResult in
  let uniqueSuiNews := removeDuplicates suiNews in
  {| success := true; data := Some uniqueSuiNews; error := None |}.

(** [result.success && result.data && result.data.length > 0] *)
Definition hasItems (r : ApiResponse (list NewsItem.t)) : bool :=
  success r
  && match data r with
     | Some l => 0 <? Z.of_nat (length l)
     | None => false
     end.

Definition showError (e : option string) : string :=
  match e with
  | Some s => s
  | None => "undefined"
  end.

(** [getGeneralCryptoNews], given the results of CryptoPanic and of the
    CoinTelegraph fallback (consulted only when the first has no items). *)
Definition getGeneralCryptoNews
    (cryptoPanicResult coinTelegraphResult : ApiResponse (list NewsItem.t))
    : ApiResponse (list NewsItem.t) :=
  if hasItems cryptoPanicResult then cryptoPanicResult
  else if hasItems coinTelegraphResult then coinTelegraphResult
  else
    {| success := false;
       data := None;
       error :=
         Some ("Both CryptoPanic and CoinTelegraph failed. CryptoPanic: "
               +:+ showError (error cryptoPanicResult)
               +:+ ", CoinTelegraph: "
               +:+ showError (error coinTelegraphResult)) |}.

Record AllNews := mkAllNews {
  general : list NewsItem.t;
  sui_news : list NewsItem.t;
  combined : list NewsItem.t
}.

(** [getAllNews] *)
Definition getAllNews
    (cryptoPanicResult coinTelegraphResult : ApiResponse (list NewsItem.t))
    (newsApiResult googleRssResult : Settled (ApiResponse (list NewsItem.t)))
    : ApiResponse AllNews :=
  let generalResult :=
    getGeneralCryptoNews cryptoPanicResult coinTelegraphResult in
  let suiResult := getSuiNews newsApiResult googleRssResult in
  let generalNews :=
    if success generalResult then default [] (data generalResult) else [] in
  let suiNews :=
    if success suiResult then default [] (data suiResult) else [] in
  let combinedNews :=
    Js.sortDesc NewsItem.publishedAt (generalNews ++ suiNews) in
  {| success := true;
     data := Some {| general := generalNews;
                     sui_news := suiNews;
                     combined := combinedNews |};
     error := None |}.

End NewsService.

(** ** The persisted models ([src/models]) *)

Module Coin.

(** A document of the [Coin] collection: the schema paths of [CoinData],
    the two publication flags, and the two paths that the schema option
    [timestamps: true] adds. *)
Record t := mk {
  doc : CoinData.t string Z;
  isPosted : bool;
  isTelegramPosted : bool;
  createdAt : Z;
  updatedAt : Z
}.

Definition id (c : t) : string := CoinData.id (doc c).
Definition launchTime (c : t) : Z := CoinData.launchTime (doc c).

(** [new Coin(coinData)] as the [save()] that follows it stores it: paths
    outside the schema are dropped, the flags take their defaults, and both
    timestamps are the clock [now] of that [save()]. *)
Definition new (now : Z) (coinData : CoinData.t string Z) : t :=
  {| doc :=
       {| CoinData.id := CoinData.id coinData;
          CoinData.symbol := CoinData.symbol coinData;
          CoinData.name := CoinData.name coinData;
          CoinData.network := CoinData.network coinData;
          CoinData.contractAddress := CoinData.contractAddress coinData;
          CoinData.marketCap := CoinData.marketCap coinData;
          CoinData.volume24h := CoinData.volume24h coinData;
          CoinData.price := CoinData.price coinData;
          CoinData.priceChange24h := CoinData.priceChange24h coinData;
          CoinData.launchTime := CoinData.launchTime coinData;
          CoinData.dextoolsUrl := None;
          CoinData.dexscreenerUrl := CoinData.dexscreenerUrl coinData;
          CoinData.verified := None |};
     isPosted := false;
     isTelegramPosted := false;
     createdAt := now;
     updatedAt := now |}.

(** Schema validation: the [required] string paths must be non-empty. *)
Definition valid (c : t) : bool :=
  Js.truthy_str (CoinData.id (doc c))
  && Js.truthy_str (CoinData.symbol (doc c))
  && Js.truthy_str (CoinData.name (doc c))
  && Js.truthy_str (CoinData.contractAddress (doc c)).

(** [save()] of a new document: rejected ([None]) by validation or by the
    one unique index of the schema, the one on [id]. *)
Definition save (c : t) (coll : list t) : option (list t) :=
  if valid c && negb (existsb (λ d, bool_decide (id d = id c)) coll)
  then Some (coll ++ [c])
  else None.

(** [findOne({ contractAddress, network })] *)
Definition findOne (contractAddress : string) (network : Network)
    (coll : list t) : option t :=
  List.find
    (λ d, bool_decide (CoinData.contractAddress (doc d) = contractAddress)
          && bool_decide (CoinData.network (doc d) = network))
    coll.

(** [coin.isPosted = true] as the [save()] that follows it stores it, at
    the clock [now]: the flag, and [updatedAt], which [save()] rewrites on
    a modified document. *)
Definition setPosted (now : Z) (c : t) : t :=
  {| doc := doc c; isPosted := true; isTelegramPosted := isTelegramPosted c;
     createdAt := createdAt c; updatedAt := now |}.

(** [coin.isTelegramPosted = true], likewise. *)
Definition setTelegramPosted (now : Z) (c : t) : t :=
  {| doc := doc c; isPosted := isPosted c; isTelegramPosted := true;
     createdAt := createdAt c; updatedAt := now |}.

(** [save()] of a loaded document whose only modified path is a flag:
    the stored document with that [id] is updated. *)
Definition update (f : t → t) (key : string) (coll : list t) : list t :=
  (λ d, if bool_decide (id d = key) then f d else d) <$> coll.

End Coin.

Module News.

(** A document of the [News] collection: the schema paths of [NewsItem],
    the two publication flags, and the two paths of [timestamps: true]. *)
Record t := mk {
  doc : NewsItem.t;
  isPosted : bool;
  isTelegramPosted : bool;
  createdAt : Z;
  updatedAt : Z
}.

Definition id (n : t) : string := NewsItem.id (doc n).
Definition publishedAt (n : t) : Z := NewsItem.publishedAt (doc n).

(** [new News(newsItem)] as the [save()] that follows it stores it, at the
    clock [now]. *)
Definition new (now : Z) (newsItem : NewsItem.t) : t :=
  {| doc := newsItem; isPosted := false; isTelegramPosted := false;
     createdAt := now; updatedAt := now |}.

(** Schema validation: [id] is required, [network] must be one of the
    values of [enum: ["sui", "bnb"]]. *)
Definition valid (n : t) : bool :=
  Js.truthy_str (NewsItem.id (doc n))
  && (bool_decide (NewsItem.network (doc n) = "sui")
      || bool_decide (NewsItem.network (doc n) = "bnb")).

Definition save (n : t) (coll : list t) : option (list t) :=
  if valid n && negb (existsb (λ d, bool_decide (id d = id n)) coll)
  then Some (coll ++ [n])
  else None.

(** [findOne({ title })] *)
Definition findOne (title : string) (coll : list t) : option t :=
  List.find (λ d, bool_decide (NewsItem.title (doc d) = title)) coll.

(** [item.isPosted = true] as the [save()] that follows it stores it, at
    the clock [now]. *)
Definition setPosted (now : Z) (n : t) : t :=
  {| doc := doc n; isPosted := true; isTelegramPosted := isTelegramPosted n;
     createdAt := createdAt n; updatedAt := now |}.

Definition setTelegramPosted (now : Z) (n : t) : t :=
  {| doc := doc n; isPosted := isPosted n; isTelegramPosted := true;
     createdAt := createdAt n; updatedAt := now |}.

Definition update (f : t → t) (key : string) (coll : list t) : list t :=
  (λ d, if bool_decide (id d = key) then f d else d) <$> coll.

End News.

Inductive ContentKind := launch | news.

Module Tweet.

Record t := mk {
  content : string;
  coinId : option string;
  newsId : option string;
  type : ContentKind;
  tweetId : option string;
  isPosted : bool;
  postedAt : option Z;
  createdAt : Z;
  updatedAt : Z
}.

(** [save()] of a new record, whose two timestamps are the clock of the
    save: [content] is required. *)
Definition save (x : t) (coll : list t) : option (list t) :=
  if Js.truthy_str (content x) then Some (coll ++ [x]) else None.

End Tweet.

Module TelegramMessage.

Record t := mk {
  content : string;
  coinId : option string;
  newsId : option string;
  type : ContentKind;
  messageId : option Z;
  chatId : option string;
  isPosted : bool;
  postedAt : option Z;
  createdAt : Z;
  updatedAt : Z
}.

Definition save (x : t) (coll : list t) : option (list t) :=
  if Js.truthy_str (content x) then Some (coll ++ [x]) else None.

(** [findOne({ newsId, chatId, isPosted: true })] *)
Definition findOne (newsId chatId : string) (coll : list t) : option t :=
  List.find
    (λ m, bool_decide (TelegramMessage.newsId m = Some newsId)
          && bool_decide (TelegramMessage.chatId m = Some chatId)
          && isPosted m)
    coll.

End TelegramMessage.

(** The database: the four collections. *)
Record Db := mkDb {
  coins : list Coin.t;
  newsColl : list News.t;
  tweets : list Tweet.t;
  telegramMessages : list TelegramMessage.t
}.

Definition emptyDb : Db :=
  {| coins := []; newsColl := []; tweets := []; telegramMessages := [] |}.

(** ** MonitoringService: reconciliation against the store *)

Module Monitoring.

(** [saveNewCoins]: the loop over [coins], with the running [savedCount].
    [clock coinData] is the clock when the document made of [coinData] is
    saved. *)
Fixpoint saveNewCoinsFrom (clock : CoinData.t string Z → Z)
    (coinList : list (CoinData.t string Z))
    (coll : list Coin.t) (savedCount : Z) : list Coin.t * Z :=
  match coinList with
  | [] => (coll, savedCount)
  | coinData :: rest =>
      match Coin.findOne (CoinData.contractAddress coinData)
                         (CoinData.network coinData) coll with
      | None =>
          match Coin.save (Coin.new (clock coinData) coinData) coll with
          | Some coll' => saveNewCoinsFrom clock rest coll' (savedCount + 1)
          | None => saveNewCoinsFrom clock rest coll savedCount
          end
      | Some _ => saveNewCoinsFrom clock rest coll savedCount
      end
  end.

Definition saveNewCoins (clock : CoinData.t string Z → Z)
    (coinList : list (CoinData.t string Z))
    (coll : list Coin.t) : list Coin.t * Z :=
  saveNewCoinsFrom clock coinList coll 0.

(** [saveNews]: the result is the collection with the two counters.
    [clock newsItem] is the clock when the document made of [newsItem] is
    saved. *)
Fixpoint saveNewsFrom (clock : NewsItem.t → Z)
    (newsItems : list NewsItem.t) (coll : list News.t)
    (savedCount skippedCount : Z) : list News.t * Z * Z :=
  match newsItems with
  | [] => (coll, savedCount, skippedCount)
  | newsItem :: rest =>
      match News.findOne (Js.trim (NewsItem.title newsItem)) coll with
      | Some _ => saveNewsFrom clock rest coll savedCount (skippedCount + 1)
      | None =>
          match News.save (News.new (clock newsItem) newsItem) coll with
          | Some coll' =>
              saveNewsFrom clock rest coll' (savedCount + 1) skippedCount
          | None => saveNewsFrom clock rest coll savedCount skippedCount
          end
      end
  end.

Definition saveNews (clock : NewsItem.t → Z)
    (newsItems : list NewsItem.t) (coll : list News.t)
    : list News.t * Z * Z :=
  saveNewsFrom clock newsItems coll 0 0.

End Monitoring.

(** ** Publication: TweetService and TelegramService *)

(** One send attempt for an item: the content rendered for it, the
    identifier the platform answered, [None] for [null], and the clock at
    the two [save()] calls that follow an accepted send, the one of the
    publication record and the one of the item with its flag. *)
Record Attempt (Id : Type) := mkAttempt {
  rendered : string;
  answer : option Id;
  recordedAt : Z;
  savedAt : Z
}.
Arguments mkAttempt {Id}.
Arguments rendered {Id}.
Arguments answer {Id}.
Arguments recordedAt {Id}.
Arguments savedAt {Id}.

Module TweetService.

(** [Coin.find({ isPosted: false }).sort({ launchTime: -1 }).limit(2)] *)
Definition unpostedCoins (db : Db) : list Coin.t :=
  take 2 (Js.sortDesc Coin.launchTime
            (filter (λ c, Coin.isPosted c = false) (coins db))).

(** [News.find({ isPosted: false }).sort({ publishedAt: -1 }).limit(1)] *)
Definition unpostedNews (db : Db) : list News.t :=
  take 1 (Js.sortDesc News.publishedAt
            (filter (λ n, News.isPosted n = false) (newsColl db))).

(** The [for] loop of [processNewCoinTweets] over the coins selected. *)
Fixpoint postCoinTweets (tweet : Coin.t → Attempt string) (now : Z)
    (selected : list Coin.t) (db : Db) : Db :=
  match selected with
  | [] => db
  | coin :: rest =>
      let tweetContent := rendered (tweet coin) in
      let db1 :=
        match answer (tweet coin) with
        | Some tweetId =>
            if Js.truthy_str tweetId then
              match Tweet.save
                      {| Tweet.content := tweetContent;
                         Tweet.coinId := Some (Coin.id coin);
                         Tweet.newsId := None;
                         Tweet.type := launch;
                         Tweet.tweetId := Some tweetId;
                         Tweet.isPosted := true;
                         Tweet.postedAt := Some now;
                         Tweet.createdAt := recordedAt (tweet coin);
                         Tweet.updatedAt := recordedAt (tweet coin) |}
                      (tweets db) with
              | Some tweets1 =>
                  {| coins :=
                       Coin.update (Coin.setPosted (savedAt (tweet coin)))
                         (Coin.id coin) (coins db);
                     newsColl := newsColl db;
                     tweets := tweets1;
                     telegramMessages := telegramMessages db |}
              | None => db
              end
            else db
        | None => db
        end in
      postCoinTweets tweet now rest db1
  end.

Definition processNewCoinTweets (tweet : Coin.t → Attempt string) (now : Z)
    (db : Db) : Db :=
  postCoinTweets tweet now (unpostedCoins db) db.

(** The [for] loop of [processNewsTweets]. *)
Fixpoint postNewsTweets (tweet : News.t → Attempt string) (now : Z)
    (selected : list News.t) (db : Db) : Db :=
  match selected with
  | [] => db
  | item :: rest =>
      let tweetContent := rendered (tweet item) in
      let db1 :=
        match answer (tweet item) with
        | Some tweetId =>
            if Js.truthy_str tweetId then
              match Tweet.save
                      {| Tweet.content := tweetContent;
                         Tweet.coinId := None;
                         Tweet.newsId := Some (News.id item);
                         Tweet.type := news;
                         Tweet.tweetId := Some tweetId;
                         Tweet.isPosted := true;
                         Tweet.postedAt := Some now;
                         Tweet.createdAt := recordedAt (tweet item);
                         Tweet.updatedAt := recordedAt (tweet item) |}
                      (tweets db) with
              | Some tweets1 =>
                  {| coins := coins db;
                     newsColl :=
                       News.update (News.setPosted (savedAt (tweet item)))
                         (News.id item) (newsColl db);
                     tweets := tweets1;
                     telegramMessages := telegramMessages db |}
              | None => db
              end
            else db
        | None => db
        end in
      postNewsTweets tweet now rest db1
  end.

Definition processNewsTweets (tweet : News.t → Attempt string) (now : Z)
    (db : Db) : Db :=
  postNewsTweets tweet now (unpostedNews db) db.

(** [processPendingTweets] *)
Definition processPendingTweets
    (coinTweet : Coin.t → Attempt string) (newsTweet : News.t → Attempt string)
    (now : Z) (db : Db) : Db :=
  processNewsTweets newsTweet now (processNewCoinTweets coinTweet now db).

End TweetService.

(** [TelegramClient]: the fields its constructor sets.  An identifier that
    was left unset is the empty string here: the code only tests it for
    truthiness, and a client without channel sends nothing. *)
Record TelegramClient := mkTelegramClient {
  enabled : bool;
  channelId : string;
  groupId : string
}.

(** The environment variables the constructor reads; [None] is a variable
    that is not set. *)
Record TelegramEnv := mkTelegramEnv {
  TELEGRAM_BOT_TOKEN : option string;
  TELEGRAM_CHANNEL_ID : option string;
  TELEGRAM_GROUP_ID : option string;
  TELEGRAM_ENABLED : option string
}.

(** [new TelegramClient()]: the client stays enabled, and gets its bot,
    only with a token and a channel. *)
Definition newTelegramClient (env : TelegramEnv) : TelegramClient :=
  let botToken := default "" (TELEGRAM_BOT_TOKEN env) in
  let channelId := default "" (TELEGRAM_CHANNEL_ID env) in
  let groupId := default "" (TELEGRAM_GROUP_ID env) in
  let enabled := bool_decide (TELEGRAM_ENABLED env = Some "true") in
  {| enabled :=
       if negb enabled then false
       else if negb (Js.truthy_str botToken) || negb (Js.truthy_str channelId)
       then false
       else true;
     channelId := channelId;
     groupId := groupId |}.

Module TelegramService.

(** [telegram.sendMessage]: [null] when the client is disabled, else the
    platform's answer. *)
Definition sendMessage (client : TelegramClient) (platform : option Z)
    : option Z :=
  if enabled client then platform else None.

(** [if (messageId)] *)
Definition truthy_id (messageId : Z) : bool := negb (messageId =? 0).

Definition unpostedCoins (db : Db) : list Coin.t :=
  take 2 (Js.sortDesc Coin.launchTime
            (filter (λ c, Coin.isTelegramPosted c = false) (coins db))).

Definition unpostedNews (db : Db) : list News.t :=
  take 1 (Js.sortDesc News.publishedAt
            (filter (λ n, News.isTelegramPosted n = false) (newsColl db))).

(** The [for] loop of [processNewCoinMessages]. *)
Fixpoint postCoinMessages (client : TelegramClient)
    (message : Coin.t → Attempt Z) (now : Z)
    (selected : list Coin.t) (db : Db) : Db :=
  match selected with
  | [] => db
  | coin :: rest =>
      let messageContent := rendered (message coin) in
      let db1 :=
        match sendMessage client (answer (message coin)) with
        | Some messageId =>
            if truthy_id messageId then
              match TelegramMessage.save
                      {| TelegramMessage.content := messageContent;
                         TelegramMessage.coinId := Some (Coin.id coin);
                         TelegramMessage.newsId := None;
                         TelegramMessage.type := launch;
                         TelegramMessage.messageId := Some messageId;
                         TelegramMessage.chatId := Some (channelId client);
                         TelegramMessage.isPosted := true;
                         TelegramMessage.postedAt := Some now;
                         TelegramMessage.createdAt :=
                           recordedAt (message coin);
                         TelegramMessage.updatedAt :=
                           recordedAt (message coin) |}
                      (telegramMessages db) with
              | Some messages1 =>
                  {| coins :=
                       Coin.update
                         (Coin.setTelegramPosted (savedAt (message coin)))
                         (Coin.id coin) (coins db);
                     newsColl := newsColl db;
                     tweets := tweets db;
                     telegramMessages := messages1 |}
              | None => db
              end
            else db
        | None => db
        end in
      postCoinMessages client message now rest db1
  end.

Definition processNewCoinMessages (client : TelegramClient)
    (message : Coin.t → Attempt Z) (now : Z) (db : Db) : Db :=
  postCoinMessages client message now (unpostedCoins db) db.

(** The [for] loop of [processNewsMessages]. *)
Fixpoint postNewsMessages (client : TelegramClient)
    (message : News.t → Attempt Z) (now : Z)
    (selected : list News.t) (db : Db) : Db :=
  match selected with
  | [] => db
  | item :: rest =>
      let messageContent := rendered (message item) in
      let db1 :=
        match sendMessage client (answer (message item)) with
        | Some messageId =>
            if truthy_id messageId then
              match TelegramMessage.save
                      {| TelegramMessage.content := messageContent;
                         TelegramMessage.coinId := None;
                         TelegramMessage.newsId := Some (News.id item);
                         TelegramMessage.type := news;
                         TelegramMessage.messageId := Some messageId;
                         TelegramMessage.chatId := Some (channelId client);
                         TelegramMessage.isPosted := true;
                         TelegramMessage.postedAt := Some now;
                         TelegramMessage.createdAt :=
                           recordedAt (message item);
                         TelegramMessage.updatedAt :=
                           recordedAt (message item) |}
                      (telegramMessages db) with
              | Some messages1 =>
                  {| coins := coins db;
                     newsColl :=
                       News.update
                         (News.setTelegramPosted (savedAt (message item)))
                         (News.id item) (newsColl db);
                     tweets := tweets db;
                     telegramMessages := messages1 |}
              | None => db
              end
            else db
        | None => db
        end in
      postNewsMessages client message now rest db1
  end.

Definition processNewsMessages (client : TelegramClient)
    (message : News.t → Attempt Z) (now : Z) (db : Db) : Db :=
  postNewsMessages client message now (unpostedNews db) db.

(** [processPendingMessages] *)
Definition processPendingMessages (client : TelegramClient)
    (coinMessage : Coin.t → Attempt Z) (newsMessage : News.t → Attempt Z)
    (now : Z) (db : Db) : Db :=
  if negb (enabled client) then db
  else processNewsMessages client newsMessage now
         (processNewCoinMessages client coinMessage now db).

(** [isNewsPostedToDestination] *)
Definition isNewsPostedToDestination (newsId chatId : string) (db : Db)
    : bool :=
  match TelegramMessage.findOne newsId chatId (telegramMessages db) with
  | Some _ => true
  | None => false
  end.

(** [News.find({ network: { $in: ["general", "sui", "bnb"] } })
       .sort({ publishedAt: -1 }).limit(20)] *)
Definition allNews (db : Db) : list News.t :=
  take 20 (Js.sortDesc News.publishedAt
             (filter (λ n, NewsItem.network (News.doc n)
                           ∈ ["general"; "sui"; "bnb"])
                     (newsColl db))).

(** The first of [allNews] not yet posted to the group. *)
Definition newsToPost (client : TelegramClient) (db : Db) : option News.t :=
  List.find
    (λ n, negb (isNewsPostedToDestination (News.id n) (groupId client) db))
    (allNews db).

(** [processGroupNews]; an error raised by [save] leaves the store as it
    was. *)
Definition processGroupNews (client : TelegramClient)
    (message : News.t → Attempt Z) (now : Z) (db : Db) : Db :=
  if negb (Js.truthy_str (groupId client)) then db
  else
    match newsToPost client db with
    | None => db
    | Some item =>
        let messageContent := rendered (message item) in
        match sendMessage client (answer (message item)) with
        | Some messageId =>
            if truthy_id messageId then
              match TelegramMessage.save
                      {| TelegramMessage.content := messageContent;
                         TelegramMessage.coinId := None;
                         TelegramMessage.newsId := Some (News.id item);
                         TelegramMessage.type := news;
                         TelegramMessage.messageId := Some messageId;
                         TelegramMessage.chatId := Some (groupId client);
                         TelegramMessage.isPosted := true;
                         TelegramMessage.postedAt := Some now;
                         TelegramMessage.createdAt :=
                           recordedAt (message item);
                         TelegramMessage.updatedAt :=
                           recordedAt (message item) |}
                      (telegramMessages db) with
              | Some messages1 =>
                  {| coins := coins db;
                     newsColl := newsColl db;
                     tweets := tweets db;
                     telegramMessages := messages1 |}
              | None => db
              end
            else db
        | None => db
        end
    end.

End TelegramService.

(** ** The system as a whole: cycles run one after the other *)

(** One scheduled task, with the answers of its collaborators. *)
Inductive Action :=
| RunTweets (coinTweet : Coin.t → Attempt string)
            (newsTweet : News.t → Attempt string) (now : Z)
| RunTelegram (coinMessage : Coin.t → Attempt Z)
              (newsMessage : News.t → Attempt Z) (now : Z)
| RunGroupNews (message : News.t → Attempt Z) (now : Z)
| RunSaveCoins (clock : CoinData.t string Z → Z)
               (coinList : list (CoinData.t string Z))
| RunSaveNews (clock : NewsItem.t → Z) (newsItems : list NewsItem.t).

Definition run (client : TelegramClient) (a : Action) (db : Db) : Db :=
  match a with
  | RunTweets coinTweet newsTweet now =>
      TweetService.processPendingTweets coinTweet newsTweet now db
  | RunTelegram coinMessage newsMessage now =>
      TelegramService.processPendingMessages client coinMessage newsMessage now db
  | RunGroupNews message now =>
      TelegramService.processGroupNews client message now db
  | RunSaveCoins clock coinList =>
      {| coins := (Monitoring.saveNewCoins clock coinList (coins db)).1;
         newsColl := newsColl db;
         tweets := tweets db;
         telegramMessages := telegramMessages db |}
  | RunSaveNews clock newsItems =>
      {| coins := coins db;
         newsColl := (Monitoring.saveNews clock newsItems (newsColl db)).1.1;
         tweets := tweets db;
         telegramMessages := telegramMessages db |}
  end.

Definition runAll (client : TelegramClient) (actions : list Action) (db : Db)
    : Db :=
  foldl (λ d a, run client a d) db actions.

(** The states reached from the empty database. *)
Inductive reachable (client : TelegramClient) : Db → Prop :=
| reachable_empty : reachable client emptyDb
| reachable_run a db :
    reachable client db → reachable client (run client a db).

(** *** Items, destinations and publication facts *)

Inductive Destination := Twitter | TelegramChannel | TelegramGroup.

Inductive ItemRef :=
| CoinRef (id : string)
| NewsRef (id : string).

Global Instance ItemRef_eq_dec : EqDecision ItemRef.
Proof. solve_decision. Defined.

(** The item a tweet record refers to. *)
Definition tweetIs (item : ItemRef) (t : Tweet.t) : Prop :=
  Tweet.isPosted t = true
  ∧ match item with
    | CoinRef i => Tweet.coinId t = Some i
    | NewsRef i => Tweet.newsId t = Some i
    end.

Global Instance tweetIs_dec item t : Decision (tweetIs item t).
Proof. unfold tweetIs. destruct item; apply _. Defined.

(** The item and the chat a Telegram message record refers to. *)
Definition messageIs (chat : string) (item : ItemRef) (m : TelegramMessage.t)
    : Prop :=
  TelegramMessage.isPosted m = true
  ∧ TelegramMessage.chatId m = Some chat
  ∧ match item with
    | CoinRef i => TelegramMessage.coinId m = Some i
    | NewsRef i => TelegramMessage.newsId m = Some i
    end.

Global Instance messageIs_dec chat item m : Decision (messageIs chat item m).
Proof. unfold messageIs. destruct item; apply _. Defined.

(** The publication facts recorded for an item and a destination. *)
Definition publicationCount (client : TelegramClient) (db : Db)
    (item : ItemRef) (dest : Destination) : nat :=
  match dest with
  | Twitter => length (filter (tweetIs item) (tweets db))
  | TelegramChannel =>
      length (filter (messageIs (channelId client) item) (telegramMessages db))
  | TelegramGroup =>
      length (filter (messageIs (groupId client) item) (telegramMessages db))
  end.

(** The posted state of an item for a destination: the item's flag for
    Twitter and for the channel, the recorded message for the group. *)
Definition posted (client : TelegramClient) (db : Db)
    (item : ItemRef) (dest : Destination) : Prop :=
  match dest, item with
  | Twitter, CoinRef i =>
      ∃ c, c ∈ coins db ∧ Coin.id c = i ∧ Coin.isPosted c = true
  | Twitter, NewsRef i =>
      ∃ n, n ∈ newsColl db ∧ News.id n = i ∧ News.isPosted n = true
  | TelegramChannel, CoinRef i =>
      ∃ c, c ∈ coins db ∧ Coin.id c = i ∧ Coin.isTelegramPosted c = true
  | TelegramChannel, NewsRef i =>
      ∃ n, n ∈ newsColl db ∧ News.id n = i ∧ News.isTelegramPosted n = true
  | TelegramGroup, CoinRef i => False
  | TelegramGroup, NewsRef i =>
      TelegramService.isNewsPostedToDestination i (groupId client) db = true
  end.

(** The items a cycle for the destination would select in this state. *)
Definition selection (client : TelegramClient) (db : Db) (dest : Destination)
    : list ItemRef :=
  match dest with
  | Twitter =>
      (CoinRef ∘ Coin.id <$> TweetService.unpostedCoins db)
      ++ (NewsRef ∘ News.id <$> TweetService.unpostedNews db)
  | TelegramChannel =>
      (CoinRef ∘ Coin.id <$> TelegramService.unpostedCoins db)
      ++ (NewsRef ∘ News.id <$> TelegramService.unpostedNews db)
  | TelegramGroup =>
      match TelegramService.newsToPost client db with
      | Some n => [NewsRef (News.id n)]
      | None => []
      end
  end.

(** ** MonitoringService: filters and monitoring entry points *)

Module MonitoringService.

(** [filterNewPairs]: the callback tests the truthiness of the address, the
    symbol and the name; [coin.network] is a non-empty string and
    [coin.launchTime] a [Date] object, both always truthy. *)
Definition filterNewPairs {Addr Time : Type} (truthyAddr : Addr → bool)
    (coinList : list (CoinData.t Addr Time)) : list (CoinData.t Addr Time) :=
  List.filter
    (λ coin, truthyAddr (CoinData.contractAddress coin)
             && Js.truthy_str (CoinData.symbol coin)
             && Js.truthy_str (CoinData.name coin))
    coinList.

(** [filterCoins]; the two thresholds are the values parsed from the
    environment. *)
Definition filterCoins (minMarketCap minVolume : Z)
    (coinList : list (CoinData.t string Z)) : list (CoinData.t string Z) :=
  List.filter
    (λ coin, (minMarketCap <=? CoinData.marketCap coin)
             && (minVolume <=? CoinData.volume24h coin)
             && Js.truthy_str (CoinData.contractAddress coin)
             && Js.truthy_str (CoinData.symbol coin)
             && Js.truthy_str (CoinData.name coin))
    coinList.

(** [monitorNetworkLaunches], given the scanner's answer and the clock of
    the saves: the collection and the number of coins saved. *)
Definition monitorNetworkLaunches (clock : CoinData.t string Z → Z)
    (result : ApiResponse (list (CoinData.t string Z))) (coll : list Coin.t)
    : list Coin.t * Z :=
  match success result, data result with
  | true, Some found =>
      Monitoring.saveNewCoins clock (filterNewPairs Js.truthy_str found) coll
  | _, _ => (coll, 0)
  end.

(** [monitorNews], given the answer of [getAllNews] and the clock of the
    saves. *)
Definition monitorNews (clock : NewsItem.t → Z)
    (newsResult : ApiResponse NewsService.AllNews)
    (coll : list News.t) : list News.t :=
  match success newsResult, data newsResult with
  | true, Some all =>
      let coll1 :=
        if 0 <? Z.of_nat (length (NewsService.general all))
        then (Monitoring.saveNews clock (NewsService.general all) coll).1.1
        else coll in
      if 0 <? Z.of_nat (length (NewsService.sui_news all))
      then (Monitoring.saveNews clock (NewsService.sui_news all) coll1).1.1
      else coll1
  | _, _ => coll
  end.

(** [monitorSuiNews] and [monitorGeneralNews], given the answer of
    [getSuiNews], respectively [getCryptoPanicNews]. *)
Definition monitorOneSource (clock : NewsItem.t → Z)
    (newsResult : ApiResponse (list NewsItem.t))
    (coll : list News.t) : list News.t :=
  match success newsResult, data newsResult with
  | true, Some items => (Monitoring.saveNews clock items coll).1.1
  | _, _ => coll
  end.

Definition monitorSuiNews := monitorOneSource.

Definition monitorGeneralNews := monitorOneSource.

End MonitoringService.

(** ** EnhancedCryptoNewsService: the source clients *)

(** The outcome of the [try] block of a source client up to the mapping
    of the items: a body of the shape the mapping reads, or the message of
    the error raised by the request, by the parser or by a body of another
    shape. *)
Inductive Http (A : Type) :=
| Answered (body : A)
| Raised (message : string).
Arguments Answered {A}.
Arguments Raised {A}.

Module NewsSources.

(** [s.replace(/<[^>]*>/g, "")]: every [<], the characters up to the next
    [>] and that [>] are removed; a [<] with no [>] after it stays. *)
Fixpoint hasGt (s : string) : bool :=
  match s with
  | EmptyString => false
  | String c r => bool_decide (c = ">"%char) || hasGt r
  end.

Fixpoint stripFrom (inTag : bool) (s : string) : string :=
  match s with
  | EmptyString => EmptyString
  | String c r =>
      if inTag then
        if bool_decide (c = ">"%char) then stripFrom false r
        else stripFrom true r
      else if bool_decide (c = "<"%char) && hasGt r then stripFrom true r
      else String c (stripFrom false r)
  end.

Definition stripTags (s : string) : string := stripFrom false s.

(** [error.message || fallback] *)
Definition messageOr (message fallback : string) : string :=
  Js.or_str message fallback.

(** A post of the CryptoPanic API; [published_at] is the instant its date
    string denotes. *)
Record CryptoPanicPost := mkCryptoPanicPost {
  post_id : Z;
  post_title : string;
  post_description : option string;
  post_url : string;
  post_published_at : Z
}.

(** [getCryptoPanicNews] *)
Definition getCryptoPanicNews (response : Http (list CryptoPanicPost))
    : ApiResponse (list NewsItem.t) :=
  match response with
  | Answered results =>
      {| success := true;
         data :=
           Some ((λ item,
                    {| NewsItem.id := "cp_" +:+ Js.string_of_Z (post_id item);
                       NewsItem.title := post_title item;
                       NewsItem.description :=
                         Js.or_str (default "" (post_description item)) "";
                       NewsItem.url := post_url item;
                       NewsItem.publishedAt := post_published_at item;
                       NewsItem.coinSymbol := "";
                       NewsItem.network := "general";
                       NewsItem.source := "CryptoPanic" |}) <$> results);
         error := None |}
  | Raised message =>
      {| success := false; data := None;
         error := Some (messageOr message "CryptoPanic API error") |}
  end.

(** An [item] of a parsed RSS channel: first title, first description if
    any, first link, and the instant of the first [pubDate]. *)
Record RssItem := mkRssItem {
  rss_title : string;
  rss_description : option string;
  rss_link : string;
  rss_pubDate : Z
}.

(** The common body of the three RSS clients of the general path; [limit]
    is the argument of [slice], [now] the clock read for each index. *)
Definition rssNews (prefix sourceName fallback : string) (limit : nat)
    (now : nat → Z) (response : Http (list RssItem))
    : ApiResponse (list NewsItem.t) :=
  match response with
  | Answered items =>
      {| success := true;
         data :=
           Some (imap
                   (λ index item,
                      {| NewsItem.id :=
                           prefix +:+ Js.string_of_Z (now index) +:+ "_"
                             +:+ Js.string_of_Z (Z.of_nat index);
                         NewsItem.title := rss_title item;
                         NewsItem.description :=
                           match rss_description item with
                           | Some d => stripTags d
                           | None => ""
                           end;
                         NewsItem.url := rss_link item;
                         NewsItem.publishedAt := rss_pubDate item;
                         NewsItem.coinSymbol := "";
                         NewsItem.network := "general";
                         NewsItem.source := sourceName |})
                   (take limit items));
         error := None |}
  | Raised message =>
      {| success := false; data := None;
         error := Some (messageOr message fallback) |}
  end.

Definition getCoinTelegraphNews :=
  rssNews "ct_" "CoinTelegraph" "CoinTelegraph RSS error" 15.

Definition getCoinDeskNews :=
  rssNews "cd_" "CoinDesk" "CoinDesk RSS error" 15.

Definition getCoinJournalNews :=
  rssNews "cj_" "CoinJournal" "CoinJournal RSS error" 10.

(** An article of NewsAPI. *)
Record Article := mkArticle {
  art_title : string;
  art_description : option string;
  art_url : string;
  art_publishedAt : Z;
  art_source_name : string
}.

(** [getSuiNewsFromNewsAPI] *)
Definition getSuiNewsFromNewsAPI (now : nat → Z)
    (response : Http (list Article)) : ApiResponse (list NewsItem.t) :=
  match response with
  | Answered articles =>
      {| success := true;
         data :=
           Some (imap
                   (λ index item,
                      {| NewsItem.id :=
                           "news_sui_" +:+ Js.string_of_Z (Z.of_nat index)
                             +:+ "_" +:+ Js.string_of_Z (now index);
                         NewsItem.title := art_title item;
                         NewsItem.description :=
                           Js.or_str (default "" (art_description item)) "";
                         NewsItem.url := art_url item;
                         NewsItem.publishedAt := art_publishedAt item;
                         NewsItem.coinSymbol := "SUI";
                         NewsItem.network := "sui";
                         NewsItem.source :=
                           Js.or_str (art_source_name item) "NewsAPI" |})
                   articles);
         error := None |}
  | Raised message =>
      {| success := false; data := None;
         error := Some (messageOr message "NewsAPI error") |}
  end.

(** [getSuiNewsFromGoogleRSS] *)
Definition getSuiNewsFromGoogleRSS (now : nat → Z)
    (response : Http (list RssItem)) : ApiResponse (list NewsItem.t) :=
  match response with
  | Answered items =>
      {| success := true;
         data :=
           Some (imap
                   (λ index item,
                      {| NewsItem.id :=
                           "google_sui_" +:+ Js.string_of_Z (Z.of_nat index)
                             +:+ "_" +:+ Js.string_of_Z (now index);
                         NewsItem.title := rss_title item;
                         NewsItem.description :=
                           default "" (rss_description item);
                         NewsItem.url := rss_link item;
                         NewsItem.publishedAt := rss_pubDate item;
                         NewsItem.coinSymbol := "SUI";
                         NewsItem.network := "sui";
                         NewsItem.source := "Google News" |})
                   (take 10 items));
         error := None |}
  | Raised message =>
      {| success := false; data := None;
         error := Some (messageOr message "Google RSS error") |}
  end.

End NewsSources.

(** ** OnchainPairScannerService: the BNB scan *)

Module BnbScanner.

Import Scanner.

(** A log as the provider returns it.  [log_type] is the tag that
    [getLiquidityLogs] adds. *)
Record Log := mkLog {
  log_address : string;
  log_topics : list string;
  log_data : string;
  log_blockNumber : Z;
  log_transactionHash : string;
  log_type : option string
}.

(** The settled results of the four contract calls of
    [getTokenInfoSafely]. *)
Record PairCalls := mkPairCalls {
  token0NameCall : Settled string;
  token0SymbolCall : Settled string;
  token1NameCall : Settled string;
  token1SymbolCall : Settled string
}.

Record PairInfo := mkPairInfo {
  token0Name : string;
  token0Symbol : string;
  token1Name : string;
  token1Symbol : string
}.

(** [getTokenInfoSafely] *)
Definition getTokenInfoSafely (calls : PairCalls) : option PairInfo :=
  match token0NameCall calls, token0SymbolCall calls,
        token1NameCall calls, token1SymbolCall calls with
  | Fulfilled token0Name, Fulfilled token0Symbol,
    Fulfilled token1Name, Fulfilled token1Symbol =>
      if negb (Js.truthy_str token0Symbol) || negb (Js.truthy_str token1Symbol)
         || negb (Js.truthy_str token0Name) || negb (Js.truthy_str token1Name)
      then None
      else Some {| token0Name := token0Name; token0Symbol := token0Symbol;
                   token1Name := token1Name; token1Symbol := token1Symbol |}
  | _, _, _, _ => None
  end.

(** The settled results of the four contract calls of
    [getEnhancedTokenInfo]; [unitsRaised] tells whether converting the
    total supply with [formatUnits] raised. *)
Record TokenCalls := mkTokenCalls {
  nameCall : Settled string;
  symbolCall : Settled string;
  decimalsCall : Settled Z;
  totalSupplyCall : Settled Z;
  unitsRaised : bool
}.

(** The [name] and [symbol] of the object [getEnhancedTokenInfo] returns;
    its [decimals] and [totalSupply] feed only optional fields that
    [CoinData.t] does not carry. *)
Record TokenInfo := mkTokenInfo {
  info_name : string;
  info_symbol : string
}.

(** [getEnhancedTokenInfo] *)
Definition getEnhancedTokenInfo (calls : TokenCalls) : option TokenInfo :=
  match nameCall calls, symbolCall calls,
        decimalsCall calls, totalSupplyCall calls with
  | Fulfilled name, Fulfilled symbol, Fulfilled _, Fulfilled _ =>
      if negb (Js.truthy_str symbol) || negb (Js.truthy_str name) then None
      else if unitsRaised calls then None
      else Some {| info_name := name; info_symbol := symbol |}
  | _, _, _, _ => None
  end.

(** What the collaborators answer during the decoding of one log: the
    contract calls for the address asked about, the clock, and the
    outcomes of the block fetches. *)
Record Answers := mkAnswers {
  pairCalls : string → string → PairCalls;
  tokenCalls : string → TokenCalls;
  clock : Z;
  fetches : list FetchOutcome
}.

(** A computation on the scanner's state; [None] when the block fetches
    are still going on after the outcomes given. *)
Definition Scan (A : Type) : Type := ScannerState → option (ScannerState * A).

Definition ret {A : Type} (a : A) : Scan A := λ st, Some (st, a).

Definition bind {A B : Type} (m : Scan A) (f : A → Scan B) : Scan B :=
  λ st, match m st with
        | Some (st', a) => f a st'
        | None => None
        end.

Notation "'let*' x ':=' m 'in' k" := (bind m (λ x, k))
  (at level 10, x name, m at level 100, k at level 200, only parsing).

(** The record a BNB decoder builds for [address]; [shown] is the address
    as the two URLs show it. *)
Definition bnbCoin (id symbol name address shown : string) (block : Block)
    : CoinData.t string Z :=
  {| CoinData.id := id;
     CoinData.symbol := symbol;
     CoinData.name := name;
     CoinData.network := bnb;
     CoinData.contractAddress := address;
     CoinData.marketCap := 0;
     CoinData.volume24h := 0;
     CoinData.price := 0;
     CoinData.priceChange24h := 0;
     CoinData.launchTime := timestamp block * 1000;
     CoinData.dextoolsUrl :=
       Some ("https://www.dextools.io/app/en/bnb/pair-explorer/" +:+ shown);
     CoinData.dexscreenerUrl := Some ("https://dexscreener.com/bsc/" +:+ shown);
     CoinData.verified := Some false |}.

Section Decoders.

(** [ethers.AbiCoder.defaultAbiCoder().decode(types, data)]: the decoded
    values as strings, or [None] when it raises. *)
Variable abiDecode : list string → string → option (list string).

(** ["0x" + topic.slice(-40)] *)
Definition topicAddress (topic : string) : string :=
  "0x" +:+ Js.slice_last 40 topic.

(** The [pair] variable of [decodeFactoryPairLog] after the decoding of
    [log.data]: [None] when the function has returned [null] by then,
    [Some None] when [decoded[0]] is [undefined]. *)
Definition decodePair (log : Log) : option (option string) :=
  let dataLength := Z.of_nat (String.length (log_data log)) - 2 in
  if dataLength =? 128 then
    decoded ← abiDecode ["address"; "uint256"] (log_data log);
    Some (decoded !! 0%nat)
  else if dataLength =? 64 then
    decoded ← abiDecode ["address"] (log_data log);
    Some (decoded !! 0%nat)
  else
    decoded ← abiDecode ["address"]
                ("0x" +:+ String.substring 2 64 (log_data log));
    Some (decoded !! 0%nat).

(** [decodeFactoryPairLog] *)
Definition decodeFactoryPairLog (a : Answers) (log : Log)
    : Scan (option (CoinData.t string Z)) :=
  if 3 <=? Z.of_nat (length (log_topics log)) then
    let token0 := topicAddress (default "" (log_topics log !! 1%nat)) in
    let token1 := topicAddress (default "" (log_topics log !! 2%nat)) in
    match decodePair log with
    | None => ret None
    | Some pairAddress =>
        match getTokenInfoSafely (pairCalls a token0 token1) with
        | None => ret None
        | Some tokenInfo =>
            let* block :=
              getBlockWithCache (clock a) (fetches a) (log_blockNumber log) in
            match block, pairAddress with
            | None, _ => ret None
            | Some _, None => ret None
            | Some block, Some pairAddress =>
                ret (Some
                  (bnbCoin (Js.toLowerCase pairAddress)
                     (token0Symbol tokenInfo +:+ "/" +:+ token1Symbol tokenInfo)
                     (token0Name tokenInfo +:+ " / " +:+ token1Name tokenInfo)
                     (Js.toLowerCase pairAddress) pairAddress block))
            end
        end
    end
  else ret None.

Definition WBNB_ADDRESS : string :=
  "0xbb4CdB9CBd36B01bD1cBaeBF2De08d9173bc095c".

(** The [tokenAddress] variable of [decodeLiquidityLog] after the decoding
    of [log.data]: [None] when decoding raised, [Some None] for [null] or
    [undefined]. *)
Definition decodeToken (log : Log) : option (option string) :=
  if bool_decide (log_type log = Some "addLiquidityETH") then
    decoded ← abiDecode
                ["address"; "uint256"; "uint256"; "uint256"; "address";
                 "uint256"] (log_data log);
    Some (decoded !! 0%nat)
  else if bool_decide (log_type log = Some "addLiquidity") then
    decoded ← abiDecode
                ["address"; "address"; "uint256"; "uint256"; "uint256";
                 "uint256"; "address"; "uint256"] (log_data log);
    tokenA ← decoded !! 0%nat;
    if bool_decide (Js.toLowerCase tokenA = Js.toLowerCase WBNB_ADDRESS)
    then Some (decoded !! 1%nat)
    else
      tokenB ← decoded !! 1%nat;
      if bool_decide (Js.toLowerCase tokenB = Js.toLowerCase WBNB_ADDRESS)
      then Some (Some tokenA)
      else Some None
  else Some None.

(** [decodeLiquidityLog] *)
Definition decodeLiquidityLog (a : Answers) (log : Log)
    : Scan (option (CoinData.t string Z)) :=
  match decodeToken log with
  | None | Some None => ret None
  | Some (Some tokenAddress) =>
      if negb (Js.truthy_str tokenAddress) then ret None
      else
        match getEnhancedTokenInfo (tokenCalls a tokenAddress) with
        | None => ret None
        | Some tokenInfo =>
            let* block :=
              getBlockWithCache (clock a) (fetches a) (log_blockNumber log) in
            match block with
            | None => ret None
            | Some block =>
                ret (Some
                  (bnbCoin
                     (Js.toLowerCase tokenAddress +:+ "-"
                        +:+ log_transactionHash log)
                     (info_symbol tokenInfo) (info_name tokenInfo)
                     (Js.toLowerCase tokenAddress) tokenAddress block))
            end
        end
  end.

(** A [for] loop that decodes the logs one after the other and pushes the
    records obtained onto [allCoins]; the log at index [i] is decoded with
    the answers [answers i]. *)
Fixpoint decodeLogs
    (decode : Answers → Log → Scan (option (CoinData.t string Z)))
    (answers : nat → Answers) (i : nat) (logs : list Log)
    (allCoins : list (CoinData.t string Z))
    : Scan (list (CoinData.t string Z)) :=
  match logs with
  | [] => ret allCoins
  | log :: rest =>
      let* coinData := decode (answers i) log in
      decodeLogs decode answers (S i) rest
        match coinData with
        | Some c => allCoins ++ [c]
        | None => allCoins
        end
  end.

End Decoders.

(** The loop of [detectNewTokensAlternative] over the mint logs, with the
    set [uniqueTokens] and the array [tokens]. *)
Fixpoint mintLoop (answers : nat → Answers) (i : nat) (logs : list Log)
    (uniqueTokens : gset string) (tokens : list (CoinData.t string Z))
    : Scan (list (CoinData.t string Z)) :=
  match logs with
  | [] => ret tokens
  | log :: rest =>
      let tokenAddress := Js.toLowerCase (log_address log) in
      if bool_decide (tokenAddress ∈ uniqueTokens)
      then mintLoop answers (S i) rest uniqueTokens tokens
      else
        let uniqueTokens := {[tokenAddress]} ∪ uniqueTokens in
        match getEnhancedTokenInfo
                (tokenCalls (answers i) (log_address log)) with
        | Some tokenInfo =>
            if Js.truthy_str (info_symbol tokenInfo)
               && negb (bool_decide (info_symbol tokenInfo = "UNKNOWN")) then
              let* block :=
                getBlockWithCache (clock (answers i)) (fetches (answers i))
                  (log_blockNumber log) in
              match block with
              | None => mintLoop answers (S i) rest uniqueTokens tokens
              | Some block =>
                  mintLoop answers (S i) rest uniqueTokens
                    (tokens ++
                     [bnbCoin
                        ("mint-" +:+ tokenAddress +:+ "-"
                           +:+ log_transactionHash log)
                        (info_symbol tokenInfo) (info_name tokenInfo)
                        tokenAddress tokenAddress block])
              end
            else mintLoop answers (S i) rest uniqueTokens tokens
        | None => mintLoop answers (S i) rest uniqueTokens tokens
        end
  end.

(** [detectNewTokensAlternative], given the outcome of its [getLogs]. *)
Definition detectNewTokensAlternative (answers : nat → Answers)
    (mintLogs : Http (list Log)) : Scan (list (CoinData.t string Z)) :=
  match mintLogs with
  | Answered logs => mintLoop answers 0 (take 50 logs) ∅ []
  | Raised _ => ret []
  end.

(** [getFactoryPairLogs], given the outcome of its [getLogs]. *)
Definition getFactoryPairLogs (outcome : Http (list Log)) : list Log :=
  match outcome with
  | Answered logs => logs
  | Raised _ => []
  end.

Definition tagged (type : string) (log : Log) : Log :=
  {| log_address := log_address log;
     log_topics := log_topics log;
     log_data := log_data log;
     log_blockNumber := log_blockNumber log;
     log_transactionHash := log_transactionHash log;
     log_type := Some type |}.

(** [getLiquidityLogs], given for each router the settled results of its
    two [getLogs]. *)
Fixpoint getLiquidityLogsFrom
    (routers : list (Settled (list Log) * Settled (list Log)))
    (allLogs : list Log) : list Log :=
  match routers with
  | [] => allLogs
  | (ethLogs, tokenLogs) :: rest =>
      let allLogs :=
        match ethLogs with
        | Fulfilled value => allLogs ++ (tagged "addLiquidityETH" <$> value)
        | Rejected => allLogs
        end in
      let allLogs :=
        match tokenLogs with
        | Fulfilled value => allLogs ++ (tagged "addLiquidity" <$> value)
        | Rejected => allLogs
        end in
      getLiquidityLogsFrom rest allLogs
  end.

Definition getLiquidityLogs
    (v2Router v3Router : Settled (list Log) * Settled (list Log)) : list Log :=
  getLiquidityLogsFrom [v2Router; v3Router] [].

(** What the provider answers during one scan. *)
Record Chain := mkChain {
  latestBlock : option Z;
  factoryLogs : Http (list Log);
  v2RouterLogs : Settled (list Log) * Settled (list Log);
  v3RouterLogs : Settled (list Log) * Settled (list Log);
  mintLogs : Http (list Log);
  factoryAnswers : nat → Answers;
  liquidityAnswers : nat → Answers;
  mintAnswers : nat → Answers
}.

(** [getRecentBNBPairCreations].  The block range computed from
    [latestBlock] only parameterises the log queries, whose outcomes
    [chain] gives; the loop over the V3 logs runs over the empty list the
    code puts in their place. *)
Definition getRecentBNBPairCreations
    (abiDecode : list string → string → option (list string)) (chain : Chain)
    : Scan (ApiResponse (list (CoinData.t string Z))) :=
  match latestBlock chain with
  | None =>
      ret {| success := false; data := None;
             error := Some "Failed to scan BNB network for new pairs." |}
  | Some _ =>
      let factoryLogs := getFactoryPairLogs (factoryLogs chain) in
      let liquidityLogs :=
        getLiquidityLogs (v2RouterLogs chain) (v3RouterLogs chain) in
      let* allCoins :=
        decodeLogs (decodeFactoryPairLog abiDecode) (factoryAnswers chain)
          0 factoryLogs [] in
      let* allCoins :=
        decodeLogs (decodeLiquidityLog abiDecode) (liquidityAnswers chain)
          0 liquidityLogs allCoins in
      let uniqueCoins := removeDuplicatesAndSort allCoins in
      if Z.of_nat (length uniqueCoins) =? 0 then
        let* alternativeCoins :=
          detectNewTokensAlternative (mintAnswers chain) (mintLogs chain) in
        ret {| success := true; data := Some alternativeCoins; error := None |}
      else ret {| success := true; data := Some uniqueCoins; error := None |}
  end.

End BnbScanner.

(** ** OnchainPairScannerService: the Move-chain scan *)

Module SuiScanner.
Import Scanner.

(** What the fullnode answers to the [queryEvents] calls of one
    [scanSuiSpecificEvent]: [result.data] of the time-range query and, by
    full event type, of the queries of the second approach; [Raised] is a
    rejected call or an answer without [data].  [clock i] are the two
    readings of [Date.now()] that [parseSuiEvent] takes for the [i]-th
    event it is given from an answer. *)
Record Node := mkNode {
  timeRange : Http (list SuiEvent);
  moveEventType : string → Http (list SuiEvent);
  clock : nat → Z * Z
}.

Definition CETUS : string :=
  "0x1eabed72c53feb3805120a081dc15963c204dc8d091542592abaf7a35689b2fb".

Definition TURBOS : string :=
  "0x91bfbc386a41afcfd9b2533058d7e915a1d3829089cc268ff4333d54d6339ca1".

Definition FACTORY : string :=
  "0x886b3ff4623c7a9d101e0470012e0612621fbc67fa4cedddd3b17b273e35a50e".

(** [getKnownModules], for a package id that is not the name of a property
    every object inherits; the ids [getRecentSuiPairs] passes are the three
    above. *)
Definition getKnownModules (packageId : string) : list string :=
  if bool_decide (packageId = CETUS)
  then ["factory"; "pool"; "clmm_pool"; "amm_swap"]
  else if bool_decide (packageId = TURBOS)
  then ["swap"; "pool_factory"; "pool"; "turbos_swap"]
  else if bool_decide (packageId = FACTORY)
  then ["factory"; "pair"; "swap"]
  else ["factory"; "pool"; "swap"; "pair"].

(** The loop [for (const ev of events)] that pushes every record
    [parseSuiEvent] returns. *)
Definition parseEvents (dateParse : string → option Z) (clock : nat → Z * Z)
    (events : list SuiEvent) : list (CoinData.t Js.JsVal (option Z)) :=
  omap id
    (imap (λ i ev, parseSuiEvent dateParse (clock i).1 (clock i).2 ev) events).

(** The callback of [result.data.filter]. *)
Definition relevant (packageId eventType : string) (ev : SuiEvent) : bool :=
  match ev_type ev with
  | Some type =>
      Js.truthy_str type && Js.includes packageId type
      && Js.includes eventType type
  | None => false
  end.

(** [scanSuiSpecificEvent]; the time bound only goes into the query. *)
Definition scanSuiSpecificEvent (dateParse : string → option Z) (node : Node)
    (packageId eventType : string) : list (CoinData.t Js.JsVal (option Z)) :=
  match timeRange node with
  | Answered events =>
      parseEvents dateParse (clock node)
        (List.filter (relevant packageId eventType) events)
  | Raised _ =>
      concat
        ((λ module,
            let fullEventType :=
              packageId +:+ "::" +:+ module +:+ "::" +:+ eventType in
            match moveEventType node fullEventType with
            | Answered events => parseEvents dateParse (clock node) events
            | Raised _ => []
            end)
         <$> getKnownModules packageId)
  end.

Definition dexPackages : list (string * list string) :=
  [(CETUS, ["PoolCreatedEvent"; "AddLiquidityEvent"]);
   (TURBOS, ["PoolCreated"; "LiquidityAdded"]);
   (FACTORY, ["PairCreated"])].

(** The two nested loops of [getRecentSuiPairs]: every record of every
    scan, in the order of the scans. *)
Definition gather (dateParse : string → option Z)
    (nodes : string → string → Node)
    : list (CoinData.t Js.JsVal (option Z)) :=
  concat
    ((λ dex,
        concat
          ((λ eventType,
              scanSuiSpecificEvent dateParse (nodes dex.1 eventType)
                dex.1 eventType)
           <$> dex.2))
     <$> dexPackages).

(** [getRecentSuiPairs]; [nodes packageId eventType] are the answers to the
    scan of that package and event. *)
Definition getRecentSuiPairs (dateParse : string → option Z)
    (nodes : string → string → Node)
    : ApiResponse (list (CoinData.t Js.JsVal (option Z))) :=
  let allCoins := gather dateParse nodes in
  let uniqueCoins := removeDuplicatesAndSort allCoins in
  {| success := true; data := Some uniqueCoins; error := None |}.

End SuiScanner.

(** ** MonitoringService: the monitoring runs *)

Module MonitoringCycle.

(** What the scanner, the news service and the clock answer during one
    run: the scan result of the [i]-th call of [monitorNetworkLaunches],
    made for [network], the result of each news query, and the clock at the
    save of a coin found by the [i]-th call and at the save of a news
    item. *)
Record Feeds := mkFeeds {
  scans : nat → Network → ApiResponse (list (CoinData.t string Z));
  allNews : ApiResponse NewsService.AllNews;
  cryptoPanicNews : ApiResponse (list NewsItem.t);
  suiNews : ApiResponse (list NewsItem.t);
  coinClock : nat → CoinData.t string Z → Z;
  newsClock : NewsItem.t → Z
}.

Definition onCoins (f : list Coin.t → list Coin.t) (db : Db) : Db :=
  {| coins := f (coins db);
     newsColl := newsColl db;
     tweets := tweets db;
     telegramMessages := telegramMessages db |}.

Definition onNews (f : list News.t → list News.t) (db : Db) : Db :=
  {| coins := coins db;
     newsColl := f (newsColl db);
     tweets := tweets db;
     telegramMessages := telegramMessages db |}.

(** [for (const network of networks) await
    this.monitorNetworkLaunches(network)]; [i] counts the calls. *)
Fixpoint monitorNetworks (feeds : Feeds) (i : nat) (networks : list Network)
    (db : Db) : Db :=
  match networks with
  | [] => db
  | network :: rest =>
      monitorNetworks feeds (S i) rest
        (onCoins
           (λ coll,
              (MonitoringService.monitorNetworkLaunches (coinClock feeds i)
                 (scans feeds i network) coll).1)
           db)
  end.

(** [monitorNewLaunches] *)
Definition monitorNewLaunches (feeds : Feeds) (db : Db) : Db :=
  monitorNetworks feeds 0 [sui; bnb] db.

(** [runFullMonitoring] *)
Definition runFullMonitoring (feeds : Feeds) (db : Db) : Db :=
  onNews (MonitoringService.monitorNews (newsClock feeds) (allNews feeds))
    (monitorNewLaunches feeds db).

(** The [options] of [runCustomMonitoring]; [None] is an absent
    property. *)
Record Options := mkOptions {
  includeCoins : option bool;
  includeGeneralNews : option bool;
  includeSuiNews : option bool;
  networks : option (list Network)
}.

(** [runCustomMonitoring] *)
Definition runCustomMonitoring (options : Options) (feeds : Feeds) (db : Db)
    : Db :=
  let includeCoins := default true (includeCoins options) in
  let includeGeneralNews := default true (includeGeneralNews options) in
  let includeSuiNews := default true (includeSuiNews options) in
  let networks := default [sui; bnb] (networks options) in
  let db1 :=
    if includeCoins then monitorNetworks feeds 0 networks db else db in
  if includeGeneralNews && includeSuiNews then
    onNews (MonitoringService.monitorNews (newsClock feeds) (allNews feeds)) db1
  else if includeGeneralNews then
    onNews
      (MonitoringService.monitorGeneralNews (newsClock feeds)
         (cryptoPanicNews feeds))
      db1
  else if includeSuiNews then
    onNews (MonitoringService.monitorSuiNews (newsClock feeds) (suiNews feeds))
      db1
  else db1.

End MonitoringCycle.

(** * Vocabulary of the properties *)

Import Scanner.
Import NewsService.
Import Monitoring.

(** The order of a list sorted newest first. *)
Definition descending {A : Type} (key : A → Z) (a b : A) : Prop :=
  key b ≤ key a.

(** The callback of [findIndex] in [removeDuplicatesAndSort], asked about
    the record [c] at index [i] while the filter stands at [coin], at
    [index]. *)
Definition sameAddress {Addr Time : Type} `{!Js.StrictEq Addr}
    (coin : CoinData.t Addr Time) (index : Z)
    (c : CoinData.t Addr Time) (i : Z) : bool :=
  (i =? index)
  || Js.strictEquals (CoinData.contractAddress c)
                     (CoinData.contractAddress coin).

(** The callback of [filter] in [removeDuplicatesAndSort]: [coin] stands at
    the first index that carries its address. *)
Definition isFirst {Addr Time : Type} `{!Js.StrictEq Addr}
    (coins : list (CoinData.t Addr Time))
    (coin : CoinData.t Addr Time) (index : Z) : bool :=
  Js.findIndexFrom (sameAddress coin index) 0 coins =? index.

(** The comparator of the sort in [removeDuplicatesAndSort]. *)
Definition byLaunchTime {Addr Time : Type} `{!Js.HasTime Time}
    (a b : CoinData.t Addr Time) : option Z :=
  tb ← Js.getTime (CoinData.launchTime b);
  ta ← Js.getTime (CoinData.launchTime a);
  Some (tb - ta).

(** An address that [===] compares by value: a string, or another
    primitive value. *)
Definition byValue {Addr : Type} `{!Js.StrictEq Addr} (a : Addr) : Prop :=
  Js.strictEquals a a = true.

Global Instance byValue_dec {Addr : Type} `{!Js.StrictEq Addr} (a : Addr) :
  Decision (byValue a).
Proof. unfold byValue. apply _. Defined.

(** The launch time of a record is a valid date. *)
Definition validLaunch {Addr Time : Type} `{!Js.HasTime Time}
    (c : CoinData.t Addr Time) : Prop :=
  is_Some (Js.getTime (CoinData.launchTime c)).

(** The milliseconds of a valid launch time. *)
Definition launchMs {Addr Time : Type} `{!Js.HasTime Time}
    (c : CoinData.t Addr Time) : Z :=
  default 0 (Js.getTime (CoinData.launchTime c)).

(** What the BNB decoders do to an address before a record reaches the
    reconciliation step ([pair.toLowerCase()], [tokenAddress.toLowerCase()]). *)
Definition lowerAddress (c : CoinData.t string Z) : CoinData.t string Z :=
  {| CoinData.id := CoinData.id c;
     CoinData.symbol := CoinData.symbol c;
     CoinData.name := CoinData.name c;
     CoinData.network := CoinData.network c;
     CoinData.contractAddress := Js.toLowerCase (CoinData.contractAddress c);
     CoinData.marketCap := CoinData.marketCap c;
     CoinData.volume24h := CoinData.volume24h c;
     CoinData.price := CoinData.price c;
     CoinData.priceChange24h := CoinData.priceChange24h c;
     CoinData.launchTime := CoinData.launchTime c;
     CoinData.dextoolsUrl := CoinData.dextoolsUrl c;
     CoinData.dexscreenerUrl := CoinData.dexscreenerUrl c;
     CoinData.verified := CoinData.verified c |}.

(** A record as [decodeFactoryPairLog] builds it. *)
Definition pairCoin (id address : string) (launch : Z) : CoinData.t string Z :=
  {| CoinData.id := id;
     CoinData.symbol := "CAKE/WBNB"%string;
     CoinData.name := "Cake / Wrapped BNB"%string;
     CoinData.network := bnb;
     CoinData.contractAddress := address;
     CoinData.marketCap := 0;
     CoinData.volume24h := 0;
     CoinData.price := 0;
     CoinData.priceChange24h := 0;
     CoinData.launchTime := launch;
     CoinData.dextoolsUrl := None;
     CoinData.dexscreenerUrl := None;
     CoinData.verified := Some false |}.

(** The entries kept when a new block is about to be stored. *)
Definition evictOldest (m : BlockCache) : BlockCache :=
  if cache_size m >? 100 then tail m else m.

(** The scanner as its constructor leaves it. *)
Definition initialScanner : ScannerState :=
  {| blockCache := []; lastRequestTime := 0 |}.

(** Lookups of the blocks [n], [n - 1], ..., [1], each fetched at the first
    attempt. *)
Fixpoint freshLookups (n : nat) : list (Z * list FetchOutcome * Z) :=
  match n with
  | O => []
  | S n' =>
      (0, [Fetched (Some {| number := Z.of_nat n; timestamp := 0; hash := "0x1" |})],
       Z.of_nat n) :: freshLookups n'
  end.

(** The payload field [f], read as [event?.f]. *)
Definition field (ev : SuiEvent) (f : string) : Js.JsVal :=
  Js.getPropOpt (parsedJson ev) f.

(** The payload field [f] is present and truthy. *)
Definition hasField (ev : SuiEvent) (f : string) : bool :=
  Js.truthy (field ev f).

(** The transaction digest, the address of last resort. *)
Definition digestOf (ev : SuiEvent) : Js.JsVal :=
  Js.JStr (id_txDigest_or_empty ev).

(** The contract/pool address in the words of the specification: the four
    payload shapes in their priority order, then the digest. *)
Definition addressByPriority (ev : SuiEvent) : Js.JsVal :=
  if hasField ev "token_x" && hasField ev "token_y"
  then Js.or_val (field ev "pair") (digestOf ev)
  else if hasField ev "coin_type_a" && hasField ev "coin_type_b"
  then Js.or_val (field ev "pool_id") (digestOf ev)
  else if hasField ev "coin_type" then field ev "coin_type"
  else if hasField ev "pool_id" then field ev "pool_id"
  else digestOf ev.

(** No payload shape is recognised. *)
Definition unrecognised (ev : SuiEvent) : bool :=
  negb (hasField ev "token_x" && hasField ev "token_y")
  && negb (hasField ev "coin_type_a" && hasField ev "coin_type_b")
  && negb (hasField ev "coin_type")
  && negb (hasField ev "pool_id").

(** The symbol derived from the event's type path and digest. *)
Definition syntheticSymbol (ev : SuiEvent) : string :=
  match ev_type ev with
  | Some type =>
      match Js.split_colons type with
      | _ :: _ :: part :: _ =>
          part +:+ "_" +:+ Js.slice_last 6 (id_txDigest_or_empty ev)
      | _ => "UNKNOWN"
      end
  | None => "UNKNOWN"
  end.

(** A value with a [split] method: a string. *)
Definition isString (v : Js.JsVal) : bool :=
  match v with
  | Js.JStr _ => true
  | _ => false
  end.

(** A value with a [slice] method: a string or an array. *)
Definition isSliceable (v : Js.JsVal) : bool :=
  match v with
  | Js.JStr _ | Js.JArr _ => true
  | _ => false
  end.

(** The event came without its [id]. *)
Definition lacksId (ev : SuiEvent) : bool :=
  match ev_id ev with
  | Some _ => false
  | None => true
  end.

(** The type path of the event has the three parts the synthetic symbol is
    made of. *)
Definition hasTypePath (ev : SuiEvent) : bool :=
  match ev_type ev with
  | Some type => 3 <=? Z.of_nat (length (Js.split_colons type))
  | None => false
  end.

(** The payload has one of the shapes, but not the types that shape is
    read with: a coin type that is not a string, a pool identifier that is
    neither a string nor an array, or a digest that is needed from an event
    without [id]. *)
Definition unreadable (ev : SuiEvent) : bool :=
  if hasField ev "token_x" && hasField ev "token_y"
  then negb (hasField ev "pair") && lacksId ev
  else if hasField ev "coin_type_a" && hasField ev "coin_type_b"
  then negb (isString (field ev "coin_type_a"))
       || negb (isString (field ev "coin_type_b"))
       || (negb (hasField ev "pool_id") && lacksId ev)
  else if hasField ev "coin_type" then negb (isString (field ev "coin_type"))
  else if hasField ev "pool_id" then negb (isSliceable (field ev "pool_id"))
  else hasTypePath ev && lacksId ev.

(** The date of an event: that of its timestamp string, and that of the
    clock when it has none. *)
Definition eventDate (dateParse : string → option Z) (now : Z)
    (ev : SuiEvent) : option Z :=
  match timestampMs ev with
  | Some t => if bool_decide (t = "") then Some now else dateParse t
  | None => Some now
  end.

(** Sample events, one per way through [parseSuiEvent]. *)
Definition suiEvent (digest : string) (type : string) (payload : Js.JsVal)
    : SuiEvent :=
  {| ev_id := Some {| txDigest := digest; eventSeq := "3" |};
     ev_type := Some type;
     timestampMs := Some "1700000000000";
     parsedJson := payload |}.

Definition tokenPairPayload : Js.JsVal :=
  Js.JObj [("token_x", Js.JObj [("symbol", Js.JStr "SUI"); ("name", Js.JStr "Sui")]);
           ("token_y", Js.JObj [("symbol", Js.JStr "USDC")]);
           ("pair", Js.JStr "0x5eb2");
           ("pool_id", Js.JStr "0xffff")].

Definition typeNamePayload : Js.JsVal :=
  Js.JObj [("coin_type_a", Js.JObj [("name", Js.JStr "0x2::sui::SUI")]);
           ("coin_type_b", Js.JObj [("name", Js.JStr "0x7::usdc::USDC")]);
           ("pool_id", Js.JStr "0x5eb2")].

(** [Date.parse] of an engine that reads no string of bare digits as a
    date, on the timestamps of the events below. *)
Definition digitsUnparsed (s : string) : option Z := None.

(** A pool-creation event of the Cetus package for the coin type
    [coinType]. *)
Definition cetusPoolEvent (digest coinType timestamp : string)
    : SuiEvent :=
  {| ev_id := Some {| txDigest := digest; eventSeq := "0" |};
     ev_type := Some (SuiScanner.CETUS +:+ "::factory::PoolCreatedEvent");
     timestampMs := Some timestamp;
     parsedJson := Js.JObj [("coin_type", Js.JStr coinType)] |}.

(** A node that answers every time-range query with two events: pools of
    two coin types of one module whose names differ in the case of their
    letters only. *)
Definition twoCaseNode (packageId eventType : string) : SuiScanner.Node :=
  {| SuiScanner.timeRange :=
       Answered
         [cetusPoolEvent "9xKpQ2LmNq" "0xa1b2::token::TOKEN" "1700000000000";
          cetusPoolEvent "7hTr5VwXz1" "0xa1b2::token::Token" "1700000060000"];
     SuiScanner.moveEventType := λ _, Raised "not called";
     SuiScanner.clock := λ i, (1700000100000, 1700000100000) |}.

(** A source of the chain-specific path failed: its promise was rejected
    or it answered [success: false]. *)
Definition sourceFailed (r : Settled (ApiResponse (list NewsItem.t))) : bool :=
  match r with
  | Fulfilled value => negb (success value)
  | Rejected => true
  end.

(** The items of the general path: those of the first source that has any,
    CryptoPanic before CoinTelegraph. *)
Definition generalItems
    (cryptoPanicResult coinTelegraphResult : ApiResponse (list NewsItem.t))
    : list NewsItem.t :=
  if hasItems cryptoPanicResult then default [] (data cryptoPanicResult)
  else if hasItems coinTelegraphResult
  then default [] (data coinTelegraphResult)
  else [].

(** A news item as the source clients build it. *)
Definition story (id title : string) (publishedAt : Z) (network source : string)
    : NewsItem.t :=
  {| NewsItem.id := id;
     NewsItem.title := title;
     NewsItem.description := "";
     NewsItem.url := "https://example.org/story";
     NewsItem.publishedAt := publishedAt;
     NewsItem.coinSymbol := if bool_decide (network = "sui") then "SUI" else "";
     NewsItem.network := network;
     NewsItem.source := source |}.

(** The reconciliation key of an asset record. *)
Definition coinKey (c : Coin.t) : string * Network :=
  (CoinData.contractAddress (Coin.doc c), CoinData.network (Coin.doc c)).

(** The collections that runs of [saveNewCoins], one after the other,
    produce from the empty one. *)
Inductive coinsReachable : list Coin.t → Prop :=
| coinsReachable_empty : coinsReachable []
| coinsReachable_save clock coinList coll :
    coinsReachable coll → coinsReachable (saveNewCoins clock coinList coll).1.

(** The stored title of a news record. *)
Definition newsTitle (n : News.t) : string := NewsItem.title (News.doc n).

(** The collections that runs of [saveNews], one after the other, produce
    from the empty one. *)
Inductive newsReachable : list News.t → Prop :=
| newsReachable_empty : newsReachable []
| newsReachable_save clock newsItems coll :
    newsReachable coll → newsReachable (saveNews clock newsItems coll).1.1.

(** No stored title is the trimmed title of a record stored after it. *)
Definition laterDiffers (coll : list News.t) : Prop :=
  ∀ (i j : nat) a b,
    coll !! i = Some a → coll !! j = Some b → (i < j)%nat →
    newsTitle a ≠ Js.trim (newsTitle b).

(** Every fact is about a flagged item, and no item has two facts. *)
Definition flagInv {X F : Type} (key : X → string) (flag : X → bool)
    (about : string → F → Prop) `{!∀ i f, Decision (about i f)}
    (items : list X) (facts : list F) : Prop :=
  (∀ f i, f ∈ facts → about i f →
          ∃ x, x ∈ items ∧ key x = i ∧ flag x = true)
  ∧ (∀ i, length (filter (about i) facts) ≤ 1)%nat.

(** [Coin.update] and [News.update], for any collection keyed by [key]. *)
Definition updateBy {X : Type} (key : X → string)
    (g : X → X) (k : string) (items : list X) : list X :=
  (λ d, if bool_decide (key d = k) then g d else d) <$> items.

(** The channel and the group of the client are kept apart: they are two
    different chats, or the client sends nothing at all. *)
Definition separateChats (client : TelegramClient) : Prop :=
  enabled client = false ∨ channelId client ≠ groupId client.

(** The invariant of the database: identifiers are unique in both item
    collections; tweets are about flagged items, one per item at most; and,
    where the channel and the group are kept apart, channel messages are
    about flagged items, one per item at most, and the group has at most
    one message per news item and none about a coin. *)
Record Inv (client : TelegramClient) (db : Db) : Prop := mkInv {
  inv_coin_ids : NoDup (Coin.id <$> coins db);
  inv_news_ids : NoDup (News.id <$> newsColl db);
  inv_tw_coin :
    flagInv Coin.id Coin.isPosted (λ i, tweetIs (CoinRef i))
      (coins db) (tweets db);
  inv_tw_news :
    flagInv News.id News.isPosted (λ i, tweetIs (NewsRef i))
      (newsColl db) (tweets db);
  inv_ch_coin :
    separateChats client →
    flagInv Coin.id Coin.isTelegramPosted
      (λ i, messageIs (channelId client) (CoinRef i))
      (coins db) (telegramMessages db);
  inv_ch_news :
    separateChats client →
    flagInv News.id News.isTelegramPosted
      (λ i, messageIs (channelId client) (NewsRef i))
      (newsColl db) (telegramMessages db);
  inv_gr_news :
    separateChats client →
    ∀ i, (length (filter (messageIs (groupId client) (NewsRef i))
                    (telegramMessages db)) ≤ 1)%nat;
  inv_gr_coin :
    separateChats client →
    ∀ i, filter (messageIs (groupId client) (CoinRef i))
           (telegramMessages db) = []
}.

(** A later version of a stored coin: same identifier, no flag cleared. *)
Definition coinEvolves (c c' : Coin.t) : Prop :=
  Coin.id c' = Coin.id c
  ∧ (Coin.isPosted c = true → Coin.isPosted c' = true)
  ∧ (Coin.isTelegramPosted c = true → Coin.isTelegramPosted c' = true).

(** A later version of a stored news record. *)
Definition newsEvolves (n n' : News.t) : Prop :=
  News.id n' = News.id n
  ∧ (News.isPosted n = true → News.isPosted n' = true)
  ∧ (News.isTelegramPosted n = true → News.isTelegramPosted n' = true).

(** A later state of the database: every item is still there, no flag is
    cleared, and the fact collections have only grown at the end. *)
Definition evolves (db db' : Db) : Prop :=
  (∀ c, c ∈ coins db → ∃ c', c' ∈ coins db' ∧ coinEvolves c c')
  ∧ (∀ n, n ∈ newsColl db → ∃ n', n' ∈ newsColl db' ∧ newsEvolves n n')
  ∧ (∃ extra, tweets db' = tweets db ++ extra)
  ∧ (∃ extra, telegramMessages db' = telegramMessages db ++ extra).

(** A coin without its Twitter flag and without [updatedAt], the time of
    its last save. *)
Definition coinT (c : Coin.t) : CoinData.t string Z * bool * Z :=
  (Coin.doc c, Coin.isTelegramPosted c, Coin.createdAt c).

(** A coin without its Telegram flag and without [updatedAt]. *)
Definition coinP (c : Coin.t) : CoinData.t string Z * bool * Z :=
  (Coin.doc c, Coin.isPosted c, Coin.createdAt c).

(** A news record without its Twitter flag and without [updatedAt]. *)
Definition newsT (n : News.t) : NewsItem.t * bool * Z :=
  (News.doc n, News.isTelegramPosted n, News.createdAt n).

(** A news record without its Telegram flag and without [updatedAt]. *)
Definition newsP (n : News.t) : NewsItem.t * bool * Z :=
  (News.doc n, News.isPosted n, News.createdAt n).

(** A stored coin after a Twitter pass: as it was, or as the pass saved it,
    with [isPosted] set and [updatedAt] the time of that save. *)
Definition coinTweeted (c c' : Coin.t) : Prop :=
  c' = c ∨ ∃ stamp, c' = Coin.setPosted stamp c.

(** A stored news record after a Twitter pass. *)
Definition newsTweeted (n n' : News.t) : Prop :=
  n' = n ∨ ∃ stamp, n' = News.setPosted stamp n.

(** A stored coin after a channel pass: as it was, or as the pass saved it,
    with [isTelegramPosted] set and [updatedAt] the time of that save. *)
Definition coinMessaged (c c' : Coin.t) : Prop :=
  c' = c ∨ ∃ stamp, c' = Coin.setTelegramPosted stamp c.

(** A stored news record after a channel pass. *)
Definition newsMessaged (n n' : News.t) : Prop :=
  n' = n ∨ ∃ stamp, n' = News.setTelegramPosted stamp n.

(** What a Twitter pass may change: it saves items with their [isPosted]
    flag set, and adds tweets. *)
Definition twitterFrame (db db' : Db) : Prop :=
  Forall2 coinTweeted (coins db) (coins db')
  ∧ Forall2 newsTweeted (newsColl db) (newsColl db')
  ∧ (∃ extra, tweets db' = tweets db ++ extra)
  ∧ telegramMessages db' = telegramMessages db.

(** What a channel pass may change: it saves items with their
    [isTelegramPosted] flag set, and adds messages recorded under the
    channel's chat id. *)
Definition channelFrame (client : TelegramClient) (db db' : Db) : Prop :=
  Forall2 coinMessaged (coins db) (coins db')
  ∧ Forall2 newsMessaged (newsColl db) (newsColl db')
  ∧ tweets db' = tweets db
  ∧ ∃ extra,
      telegramMessages db' = telegramMessages db ++ extra
      ∧ Forall (λ m, TelegramMessage.chatId m = Some (channelId client)) extra.

(** What a group pass may change: at most one message, recorded under the
    group's chat id. *)
Definition groupFrame (client : TelegramClient) (db db' : Db) : Prop :=
  coins db' = coins db
  ∧ newsColl db' = newsColl db
  ∧ tweets db' = tweets db
  ∧ ∃ extra,
      telegramMessages db' = telegramMessages db ++ extra
      ∧ Forall (λ m, TelegramMessage.chatId m = Some (groupId client)
                     ∧ TelegramMessage.coinId m = None) extra
      ∧ (length extra ≤ 1)%nat.

(** A client with a channel and a group. *)
Definition demoClient : TelegramClient :=
  {| enabled := true; channelId := "@launches"; groupId := "-1001234" |}.

(** Twitter accepts every tweet and answers [tweetId]. *)
Definition tweetOk {X : Type} (tweetId : string) (_ : X) : Attempt string :=
  {| rendered := "NEW TOKEN SPOTTED!"; answer := Some tweetId;
     recordedAt := 5010; savedAt := 5020 |}.

(** Telegram accepts every message and answers [messageId]. *)
Definition messageOk {X : Type} (messageId : Z) (_ : X) : Attempt Z :=
  {| rendered := "<b>FRESH LAUNCH ALERT!</b>"; answer := Some messageId;
     recordedAt := 6110; savedAt := 6120 |}.

(** One coin and one story are saved. *)
Definition demoSaves : list Action :=
  [RunSaveCoins (λ _, 3000) [pairCoin "0xabc1-7" "0xabc1" 1000];
   RunSaveNews (λ _, 3100)
     [story "n1" "Sui upgrade ships" 2000 "sui" "NewsAPI"]].

Definition demoSaved : Db := runAll demoClient demoSaves emptyDb.

(** Then a Twitter pass runs. *)
Definition demoDb : Db :=
  runAll demoClient [RunTweets (tweetOk "1800") (tweetOk "1801") 5000]
    demoSaved.

(** A client whose channel and group are one and the same chat. *)
Definition sharedChatClient : TelegramClient :=
  {| enabled := true; channelId := "@launches"; groupId := "@launches" |}.

(** Further passes for every destination, each run twice. *)
Definition demoLater : list Action :=
  [RunTweets (tweetOk "1900") (tweetOk "1901") 6000;
   RunTelegram (messageOk 41) (messageOk 42) 6100;
   RunGroupNews (messageOk 43) 6200;
   RunTweets (tweetOk "2000") (tweetOk "2001") 7000;
   RunTelegram (messageOk 51) (messageOk 52) 7100;
   RunGroupNews (messageOk 53) 7200].

(** A complete tag: a [<] with a [>] somewhere after it. *)
Fixpoint hasTag (s : string) : bool :=
  match s with
  | EmptyString => false
  | String c r =>
      (bool_decide (c = "<"%char) && NewsSources.hasGt r) || hasTag r
  end.

(** The three RSS clients of the general path, each with the bound of its
    [slice] and the source name it writes. *)
Definition rssClients
    : list (((nat → Z) → Http (list NewsSources.RssItem)
             → ApiResponse (list NewsItem.t)) * nat * string) :=
  [ (NewsSources.getCoinTelegraphNews, 15%nat, "CoinTelegraph");
    (NewsSources.getCoinDeskNews, 15%nat, "CoinDesk");
    (NewsSources.getCoinJournalNews, 10%nat, "CoinJournal") ].

(** A record in the shape every producer of the BNB scan gives it: on
    [bnb], under a lower-cased address, with a symbol and a name, no market
    data yet, a launch time that is a whole number of seconds, and not
    verified. *)
Definition bnbRecord (c : CoinData.t string Z) : Prop :=
  CoinData.network c = bnb
  ∧ Js.toLowerCase (CoinData.contractAddress c) = CoinData.contractAddress c
  ∧ CoinData.symbol c ≠ ""
  ∧ CoinData.name c ≠ ""
  ∧ CoinData.marketCap c = 0
  ∧ CoinData.volume24h c = 0
  ∧ CoinData.price c = 0
  ∧ CoinData.priceChange24h c = 0
  ∧ (∃ seconds, CoinData.launchTime c = seconds * 1000)
  ∧ CoinData.verified c = Some false.

(** A record of the alternative detection: identified as a mint, and
    never under the placeholder symbol. *)
Definition mintRecord (c : CoinData.t string Z) : Prop :=
  bnbRecord c
  ∧ String.prefix "mint-" (CoinData.id c) = true
  ∧ CoinData.symbol c ≠ "UNKNOWN".

(** The address of a record with the case of its letters folded. *)
Definition foldedAddress (c : CoinData.t string Z) : string :=
  Js.toLowerCase (CoinData.contractAddress c).

(** A decoder for logs whose data is the address itself, followed by the
    address of a second token. *)
Definition demoDecode (types : list string) (data : string)
    : option (list string) :=
  Some [data; "0x55d398326f99059fF775485246999027B3197955"].

Definition demoAnswers (i : nat) : BnbScanner.Answers :=
  {| BnbScanner.pairCalls := λ _ _,
       {| BnbScanner.token0NameCall := Fulfilled "PancakeSwap Token";
          BnbScanner.token0SymbolCall := Fulfilled "CAKE";
          BnbScanner.token1NameCall := Fulfilled "Wrapped BNB";
          BnbScanner.token1SymbolCall := Fulfilled "WBNB" |};
     BnbScanner.tokenCalls := λ _,
       {| BnbScanner.nameCall := Fulfilled "Tether USD";
          BnbScanner.symbolCall := Fulfilled "USDT";
          BnbScanner.decimalsCall := Fulfilled 18;
          BnbScanner.totalSupplyCall := Fulfilled 1000000;
          BnbScanner.unitsRaised := false |};
     BnbScanner.clock := 1700000000000 + Z.of_nat i;
     BnbScanner.fetches :=
       [RateLimited;
        Fetched (Some {| number := 100; timestamp := 1700000000;
                         hash := "0xb10c" |})] |}.

Definition demoLog (address data : string) : BnbScanner.Log :=
  {| BnbScanner.log_address := address;
     BnbScanner.log_topics := ["0xtopic"; "0x000000000000000000000000aaaa"; "0x000000000000000000000000bbbb"];
     BnbScanner.log_data := data;
     BnbScanner.log_blockNumber := 100;
     BnbScanner.log_transactionHash := "0x7a";
     BnbScanner.log_type := None |}.

(** A chain on which the factory emitted the same pair twice, with the
    letters of the address in different case. *)
Definition demoChain : BnbScanner.Chain :=
  {| BnbScanner.latestBlock := Some 1000;
     BnbScanner.factoryLogs :=
       Answered [demoLog "0xfac" "0xAbCd"; demoLog "0xfac" "0xabcd"];
     BnbScanner.v2RouterLogs := (Fulfilled [demoLog "0x10ED" "0xEeEe"], Rejected);
     BnbScanner.v3RouterLogs := (Rejected, Rejected);
     BnbScanner.mintLogs := Raised "timeout";
     BnbScanner.factoryAnswers := demoAnswers;
     BnbScanner.liquidityAnswers := demoAnswers;
     BnbScanner.mintAnswers := demoAnswers |}.

(** A chain with no pair and no liquidity event, on which two tokens were
    minted, one of them twice. *)
Definition quietChain : BnbScanner.Chain :=
  {| BnbScanner.latestBlock := Some 1000;
     BnbScanner.factoryLogs := Raised "timeout";
     BnbScanner.v2RouterLogs := (Rejected, Rejected);
     BnbScanner.v3RouterLogs := (Rejected, Rejected);
     BnbScanner.mintLogs :=
       Answered [demoLog "0xAAA1" "0x"; demoLog "0xaaa1" "0x";
                 demoLog "0xBBB2" "0x"];
     BnbScanner.factoryAnswers := demoAnswers;
     BnbScanner.liquidityAnswers := demoAnswers;
     BnbScanner.mintAnswers := demoAnswers |}.

(** The block [getBlockWithCache] makes up when the fetch raised an error
    that is not a rate limit. *)
Definition fallbackBlock (blockNumber now : Z) : Block :=
  {| number := blockNumber; timestamp := now / 1000; hash := "0x0" |}.

(** An outcome that ends the retry loop at once. *)
Definition decisive (a : FetchOutcome) : bool :=
  match a with
  | Fetched (Some _) | Failed => true
  | _ => false
  end.

(** The provider answered [null]. *)
Definition answeredNull (a : FetchOutcome) : bool :=
  match a with
  | Fetched None => true
  | _ => false
  end.

(** Twitter refused the tweet: [null] or an empty identifier. *)
Definition tweetRefused (a : Attempt string) : Prop :=
  match answer a with
  | Some tweetId => Js.truthy_str tweetId = false
  | None => True
  end.

(** Telegram refused the message: [null] or a zero identifier. *)
Definition messageRefused (a : Attempt Z) : Prop :=
  match answer a with
  | Some messageId => messageId = 0
  | None => True
  end.

(** A publishing task none of whose sends goes through. *)
Definition allRefused (client : TelegramClient) (a : Action) : Prop :=
  match a with
  | RunTweets coinTweet newsTweet _ =>
      (∀ c, tweetRefused (coinTweet c)) ∧ (∀ n, tweetRefused (newsTweet n))
  | RunTelegram coinMessage newsMessage _ =>
      enabled client = false
      ∨ ((∀ c, messageRefused (coinMessage c))
         ∧ (∀ n, messageRefused (newsMessage n)))
  | RunGroupNews message _ =>
      enabled client = false ∨ (∀ n, messageRefused (message n))
  | RunSaveCoins _ _ | RunSaveNews _ _ => False
  end.

(** Twitter is down. *)
Definition tweetFails {X : Type} (_ : X) : Attempt string :=
  {| rendered := "NEW TOKEN SPOTTED!"; answer := None;
     recordedAt := 5010; savedAt := 5020 |}.

(** A client switched off by its configuration. *)
Definition disabledClient : TelegramClient :=
  {| enabled := false; channelId := "@launches"; groupId := "-1001234" |}.

(** Twitter accepted the tweet: a content to record and an identifier. *)
Definition tweetAccepted (a : Attempt string) : Prop :=
  rendered a ≠ "" ∧ ∃ tweetId, answer a = Some tweetId ∧ tweetId ≠ "".

(** Telegram accepted the message. *)
Definition messageAccepted (a : Attempt Z) : Prop :=
  rendered a ≠ "" ∧ ∃ messageId, answer a = Some messageId ∧ messageId ≠ 0.

(** A tweet record as a pass writes it. *)
Definition tweetRecord (kind : ContentKind) (t : Tweet.t) : Prop :=
  Tweet.type t = kind
  ∧ Tweet.isPosted t = true
  ∧ Tweet.content t ≠ ""
  ∧ (∃ tweetId, Tweet.tweetId t = Some tweetId ∧ tweetId ≠ "")
  ∧ match kind with
    | launch => is_Some (Tweet.coinId t) ∧ Tweet.newsId t = None
    | news => is_Some (Tweet.newsId t) ∧ Tweet.coinId t = None
    end.

(** A channel message record as a pass writes it. *)
Definition messageRecord (client : TelegramClient) (kind : ContentKind)
    (m : TelegramMessage.t) : Prop :=
  TelegramMessage.type m = kind
  ∧ TelegramMessage.isPosted m = true
  ∧ TelegramMessage.content m ≠ ""
  ∧ TelegramMessage.chatId m = Some (channelId client)
  ∧ (∃ messageId, TelegramMessage.messageId m = Some messageId ∧ messageId ≠ 0)
  ∧ match kind with
    | launch =>
        is_Some (TelegramMessage.coinId m) ∧ TelegramMessage.newsId m = None
    | news =>
        is_Some (TelegramMessage.newsId m) ∧ TelegramMessage.coinId m = None
    end.

(** A task that saves what monitoring found. *)
Definition isSave (a : Action) : Prop :=
  match a with
  | RunSaveCoins _ _ | RunSaveNews _ _ => True
  | _ => False
  end.

(** What a monitoring run may change: documents are appended to the two
    item collections, nothing else. *)
Definition monitoringFrame (db db' : Db) : Prop :=
  coins db `prefix_of` coins db'
  ∧ newsColl db `prefix_of` newsColl db'
  ∧ tweets db' = tweets db
  ∧ telegramMessages db' = telegramMessages db.

(** A scanner that reports the same pair at every call, and a news
    service with one story on each path. *)
Definition demoFeeds : MonitoringCycle.Feeds :=
  {| MonitoringCycle.scans := λ _ network,
       {| success := true;
          data := Some [pairCoin "0xabc1-7" "0xabc1" 1000];
          error := None |};
     MonitoringCycle.allNews :=
       getAllNews
         {| success := true;
            data := Some [story "cp_1" "Bitcoin rallies" 3000 "general"
                            "CryptoPanic"];
            error := None |}
         {| success := false; data := None; error := Some "timeout" |}
         (Fulfilled
            {| success := true;
               data := Some [story "n1" "Sui upgrade ships" 2000 "sui"
                               "NewsAPI"];
               error := None |})
         Rejected;
     MonitoringCycle.cryptoPanicNews :=
       {| success := false; data := None; error := Some "timeout" |};
     MonitoringCycle.suiNews :=
       {| success := false; data := None; error := Some "timeout" |};
     MonitoringCycle.coinClock := λ i _, 4000 + Z.of_nat i;
     MonitoringCycle.newsClock := λ _, 4100 |}.

(** The character [c] occurs in [s]. *)
Fixpoint mentions (c : ascii) (s : string) : bool :=
  match s with
  | EmptyString => false
  | String c' r => bool_decide (c' = c) || mentions c r
  end.

(** A string that [trimStart] leaves as it is. *)
Definition startsClean (s : string) : Prop :=
  match s with
  | EmptyString => True
  | String c _ => Js.is_space c = false
  end.

(** The normalised title of a stored record. *)
Definition storedKey (n : News.t) : string := titleKey (News.doc n).

(** [selected] are the [limit] newest of the [stored] items that are
    [pending], newest first: every pending item left out is at most as
    recent as every item selected. *)
Definition newestFirst {X : Type} (key : X → Z) (pending : X → Prop)
    `{!∀ x, Decision (pending x)} (limit : nat) (stored selected : list X)
    : Prop :=
  length selected = (limit `min` length (filter pending stored))%nat
  ∧ StronglySorted (descending key) selected
  ∧ (∀ c, c ∈ selected → c ∈ stored ∧ pending c)
  ∧ (∀ c d, c ∈ selected → d ∈ stored → pending d → d ∉ selected →
            key d ≤ key c).

(** * Properties *)

(** ** JavaScript helpers on sample values *)

Example toLowerCase_sample : Js.toLowerCase "0xAbC1 Z[" = "0xabc1 z[".
Proof. reflexivity. Qed.

Example trim_sample :
  Js.trim (String "009" (String " " "Sui  Upgrade ") +:+ String "010" "")
  = "Sui  Upgrade".
Proof. reflexivity. Qed.

Example split_colons_samples :
  Js.split_colons "0x2::sui::SUI" = ["0x2"; "sui"; "SUI"]
  ∧ Js.split_colons "a:::b" = ["a"; ":b"]
  ∧ Js.split_colons "SUI" = ["SUI"]
  ∧ Js.split_colons "a::" = ["a"; ""].
Proof. repeat split; reflexivity. Qed.

Example slice_last_samples :
  Js.slice_last 8 "0x5eb2aa01cafe" = "aa01cafe" ∧ Js.slice_last 8 "0x5" = "0x5".
Proof. split; reflexivity. Qed.

Example toString_samples :
  Js.toString (Js.JNum 1700) = "1700"
  ∧ Js.toString (Js.JNum (-3)) = "-3"
  ∧ Js.toString (Js.JArr [Js.JNum 1; Js.JNull; Js.JStr "x"]) = "1,,x"
  ∧ Js.toString (Js.JObj [("name", Js.JStr "x")]) = "[object Object]".
Proof. repeat split; reflexivity. Qed.

Example sortDesc_is_stable :
  Js.sortDesc fst [(1, "a"); (3, "b"); (1, "c"); (2, "d"); (3, "e")]
  = [(3, "b"); (3, "e"); (2, "d"); (1, "a"); (1, "c")].
Proof. reflexivity. Qed.

(** ** Sorting and filtering *)

Section SortFacts.
Context {A : Type} (key : A → Z).

Lemma insertDesc_perm x l : Js.insertDesc key x l ≡ₚ x :: l.
Proof.
  induction l as [|y l IH]; simpl; [done|].
  destruct (key x <? key y); [|done].
  rewrite IH. apply Permutation_swap.
Qed.

Lemma sortDesc_perm l : Js.sortDesc key l ≡ₚ l.
Proof.
  induction l as [|x l IH]; simpl; [done|].
  by rewrite insertDesc_perm, IH.
Qed.

Lemma insertDesc_sorted x l :
  StronglySorted (descending key) l → StronglySorted (descending key) (Js.insertDesc key x l).
Proof.
  induction 1 as [|y l Hl IH Hy]; simpl.
  - repeat constructor.
  - destruct (key x <? key y) eqn:E.
    + constructor; [done|].
      apply Forall_forall. intros z Hz.
      apply (elem_of_Permutation_proper z _ _ (insertDesc_perm x l)) in Hz.
      apply elem_of_cons in Hz as [->|Hz].
      * unfold descending. lia.
      * by eapply Forall_forall in Hy.
    + constructor; [by constructor|].
      constructor.
      * unfold descending. lia.
      * eapply Forall_impl; [exact Hy|]. unfold descending. intros z ?. lia.
Qed.

Lemma sortDesc_sorted l : StronglySorted (descending key) (Js.sortDesc key l).
Proof.
  induction l; simpl; [constructor|by apply insertDesc_sorted].
Qed.

End SortFacts.

Section SortWithFacts.
Context {A : Type} (compare : A → A → option Z).

Lemma insertWith_perm x l : Js.insertWith compare x l ≡ₚ x :: l.
Proof.
  induction l as [|y l IH]; simpl; [done|].
  destruct (default 0 (compare y x) <? 0); [|done].
  rewrite IH. apply Permutation_swap.
Qed.

Lemma sortWith_perm l : Js.sortWith compare l ≡ₚ l.
Proof.
  induction l as [|x l IH]; simpl; [done|].
  by rewrite insertWith_perm, IH.
Qed.

(** Where the comparator is [NaN] on every pair, nothing moves. *)
Lemma sortWith_all_NaN l :
  (∀ x y, x ∈ l → y ∈ l → compare y x = None) →
  Js.sortWith compare l = l.
Proof.
  induction l as [|x l IH]; intros Hnan; simpl; [done|].
  rewrite IH by (intros a b Ha Hb; apply Hnan; by right).
  destruct l as [|y l]; simpl; [done|].
  rewrite (Hnan x y); [done|by left|right; by left].
Qed.

End SortWithFacts.

Section SortByKey.
Context {A : Type} (time : A → option Z).

(** Where every key is a number, the comparator that subtracts the keys
    sorts as [sortDesc] does. *)
Lemma sortWith_valid l :
  Forall (λ x, is_Some (time x)) l →
  Js.sortWith (λ a b, tb ← time b; ta ← time a; Some (tb - ta)) l
  = Js.sortDesc (λ x, default 0 (time x)) l.
Proof.
  set (compare := λ a b, tb ← time b; ta ← time a; Some (tb - ta)).
  set (key := λ x, default 0 (time x)).
  assert (∀ x l, is_Some (time x) → Forall (λ y, is_Some (time y)) l →
                 Js.insertWith compare x l = Js.insertDesc key x l) as Hins.
  { intros x l0 [tx Hx] Hl.
    induction Hl as [|y l0 [ty Hy] _ IH]; simpl; [done|].
    unfold compare at 1, key at 1 2. rewrite Hx, Hy. simpl.
    replace (tx - ty <? 0) with (tx <? ty)
      by (destruct (Z.ltb_spec tx ty), (Z.ltb_spec (tx - ty) 0); lia).
    by rewrite IH. }
  induction 1 as [|x l Hx Hl IH]; simpl; [done|].
  rewrite IH. apply Hins; [done|].
  eapply Forall_forall. intros y Hy.
  apply (elem_of_Permutation_proper y _ _ (sortDesc_perm key l)) in Hy.
  by eapply Forall_forall in Hl.
Qed.

End SortByKey.

(** ** In-call reconciliation of asset records *)

(** [===] compares by value what it compares at all. *)
Lemma string_strictEquals (a b : string) :
  Js.strictEquals a b = true ↔ a = b ∧ Js.strictEquals a a = true.
Proof.
  unfold Js.strictEquals, Js.string_StrictEq.
  rewrite !bool_decide_eq_true. by split; [|intros []].
Qed.

Lemma JsVal_strictEquals (a b : Js.JsVal) :
  Js.strictEquals a b = true ↔ a = b ∧ Js.strictEquals a a = true.
Proof.
  unfold Js.strictEquals, Js.JsVal_StrictEq.
  destruct a, b; simpl; rewrite ?bool_decide_eq_true, ?Z.eqb_eq;
    (split; [intros H|intros [H ?]]); try done;
    try (split; [by f_equal|done]); by inversion H.
Qed.

Lemma removeDuplicatesAndSort_unfold {Addr Time : Type}
    `{!Js.StrictEq Addr, !Js.HasTime Time}
    (coins : list (CoinData.t Addr Time)) :
  Scanner.removeDuplicatesAndSort coins
  = Js.sortWith byLaunchTime (Js.filteri (isFirst coins) coins).
Proof. reflexivity. Qed.

Section FirstOccurrence.
Context {Addr Time : Type} `{!Js.StrictEq Addr}.
Hypothesis strictEquals_spec :
  ∀ a b : Addr,
    Js.strictEquals a b = true ↔ a = b ∧ Js.strictEquals a a = true.
Context (coins : list (CoinData.t Addr Time)).

Lemma findIndexFrom_at (x : CoinData.t Addr Time) i0 pre r :
  (Js.findIndexFrom (sameAddress x (i0 + Z.of_nat (length pre))) i0
     (pre ++ x :: r) =? i0 + Z.of_nat (length pre))
  = forallb
      (λ y, negb (Js.strictEquals (CoinData.contractAddress y)
                    (CoinData.contractAddress x)))
      pre.
Proof.
  revert i0. induction pre as [|y pre IH]; intros i0.
  - simpl. unfold sameAddress.
    rewrite (proj2 (Z.eqb_eq i0 (i0 + Z.of_nat 0))) by lia. simpl.
    apply Z.eqb_eq. lia.
  - cbn [app Js.findIndexFrom forallb length].
    unfold sameAddress at 1.
    rewrite (proj2 (Z.eqb_neq i0 (i0 + Z.of_nat (S (length pre))))) by lia.
    simpl.
    destruct (Js.strictEquals (CoinData.contractAddress y)
                (CoinData.contractAddress x)) eqn:E; simpl.
    + apply Z.eqb_neq. lia.
    + replace (i0 + Z.of_nat (S (length pre)))
        with ((i0 + 1) + Z.of_nat (length pre)) by lia.
      apply IH.
Qed.

Lemma isFirst_at pre x r :
  coins = pre ++ x :: r →
  isFirst coins x (Z.of_nat (length pre)) = true
  ↔ (byValue (CoinData.contractAddress x) →
     CoinData.contractAddress x ∉ CoinData.contractAddress <$> pre).
Proof.
  intros Hc. unfold isFirst. rewrite Hc.
  rewrite <- (Z.add_0_l (Z.of_nat (length pre))).
  rewrite findIndexFrom_at, forallb_forall. split.
  - intros Hall Hv Hin. apply list_elem_of_fmap in Hin as (y & Hy & Hin).
    apply list_elem_of_In in Hin. specialize (Hall y Hin).
    rewrite <- Hy, Hv in Hall. done.
  - intros Hnew y Hy. apply list_elem_of_In in Hy.
    destruct (Js.strictEquals (CoinData.contractAddress y)
                (CoinData.contractAddress x)) eqn:E; [|done].
    apply strictEquals_spec in E as [E Hv]. exfalso.
    apply Hnew; [unfold byValue; by rewrite <- E|].
    rewrite <- E. by apply list_elem_of_fmap_2.
Qed.

Lemma isFirst_false pre x r :
  coins = pre ++ x :: r →
  isFirst coins x (Z.of_nat (length pre)) = false →
  byValue (CoinData.contractAddress x)
  ∧ CoinData.contractAddress x ∈ CoinData.contractAddress <$> pre.
Proof.
  intros Hc. unfold isFirst. rewrite Hc.
  rewrite <- (Z.add_0_l (Z.of_nat (length pre))).
  rewrite findIndexFrom_at. clear Hc.
  induction pre as [|y pre IH]; simpl; [done|].
  destruct (Js.strictEquals (CoinData.contractAddress y)
              (CoinData.contractAddress x)) eqn:E; simpl.
  - intros _. apply strictEquals_spec in E as [E Hv].
    split; [unfold byValue; by rewrite <- E|]. rewrite E. by left.
  - intros Hall. destruct (IH Hall) as [Hv Hin]. split; [done|by right].
Qed.

Lemma filterFrom_first pre l :
  coins = pre ++ l →
  let out := Js.filterFrom (isFirst coins) (Z.of_nat (length pre)) l in
  NoDup (filter byValue (CoinData.contractAddress <$> out))
  ∧ (∀ c, c ∈ out →
       c ∈ l
       ∧ (byValue (CoinData.contractAddress c) →
          CoinData.contractAddress c ∉ CoinData.contractAddress <$> pre))
  ∧ (∀ c, c ∈ l →
       if decide (byValue (CoinData.contractAddress c))
       then CoinData.contractAddress c
            ∈ CoinData.contractAddress <$> pre
            ∨ CoinData.contractAddress c ∈ CoinData.contractAddress <$> out
       else c ∈ out).
Proof.
  revert pre. induction l as [|x r IH]; intros pre Hc; simpl.
  - split; [constructor|]. split; intros c Hin; by apply elem_of_nil in Hin.
  - assert (coins = (pre ++ [x]) ++ r) as Hc' by by rewrite <- app_assoc.
    specialize (IH (pre ++ [x]) Hc') as (Hnd & Hsub & Hcov).
    rewrite length_app in Hnd, Hsub, Hcov. simpl in Hnd, Hsub, Hcov.
    replace (Z.of_nat (length pre + 1)) with (Z.of_nat (length pre) + 1)
      in Hnd, Hsub, Hcov by lia.
    pose proof (isFirst_at pre x r Hc) as Hfirst.
    set (rest := Js.filterFrom (isFirst coins) (Z.of_nat (length pre) + 1) r) in *.
    assert (∀ c, c ∈ rest → byValue (CoinData.contractAddress c) →
              CoinData.contractAddress c ≠ CoinData.contractAddress x
              ∧ CoinData.contractAddress c
                ∉ CoinData.contractAddress <$> pre)
      as Hfresh.
    { intros c Hin Hv. apply Hsub in Hin as [_ Hn]. specialize (Hn Hv).
      rewrite fmap_app in Hn. split; intros E; apply Hn, elem_of_app.
      - right. rewrite E. by left.
      - by left. }
    assert (∀ c, c ∈ r →
              if decide (byValue (CoinData.contractAddress c))
              then CoinData.contractAddress c
                   ∈ CoinData.contractAddress <$> pre
                   ∨ CoinData.contractAddress c = CoinData.contractAddress x
                   ∨ CoinData.contractAddress c
                     ∈ CoinData.contractAddress <$> rest
              else c ∈ rest) as Hcov'.
    { intros c Hin. specialize (Hcov c Hin).
      destruct (decide (byValue (CoinData.contractAddress c))); [|done].
      destruct Hcov as [Hin'|Hin']; [|by right; right].
      rewrite fmap_app in Hin'. apply elem_of_app in Hin' as [Hin'|Hin'].
      - by left.
      - right. left. simpl in Hin'. by apply list_elem_of_singleton in Hin'. }
    destruct (isFirst coins x (Z.of_nat (length pre))) eqn:E.
    + pose proof (proj1 Hfirst eq_refl) as E'. split; [|split].
      * rewrite fmap_cons, filter_cons.
        destruct (decide (byValue (CoinData.contractAddress x))) as [Hv|_];
          [|done].
        constructor; [|done].
        intros Hin. apply list_elem_of_filter in Hin as [_ Hin].
        apply list_elem_of_fmap in Hin as (c & Hc1 & Hc2).
        apply Hfresh in Hc2 as [Hne _]; [congruence|].
        unfold byValue. by rewrite <- Hc1.
      * intros c Hin. apply elem_of_cons in Hin as [->|Hin].
        -- split; [by left|done].
        -- split; [right; by apply Hsub in Hin as [? _]|].
           intros Hv. by apply Hfresh.
      * intros c Hin. apply elem_of_cons in Hin as [->|Hin].
        -- destruct (decide _); [right; rewrite fmap_cons|]; by left.
        -- specialize (Hcov' c Hin). destruct (decide _); [|by right].
           destruct Hcov' as [?|[Heq|?]]; [by left|right..].
           ++ rewrite fmap_cons, Heq. by left.
           ++ rewrite fmap_cons. by right.
    + destruct (isFirst_false pre x r Hc E) as [Hv Hx].
      split; [done|]. split.
      * intros c Hin. split; [right; by apply Hsub in Hin as [? _]|].
        intros Hvc. by apply Hfresh.
      * intros c Hin. apply elem_of_cons in Hin as [->|Hin].
        -- rewrite decide_True by done. by left.
        -- specialize (Hcov' c Hin). destruct (decide _); [|done].
           destruct Hcov' as [?|[Heq|?]]; [by left| |by right].
           left. by rewrite Heq.
Qed.

(** The records kept by the filter of [removeDuplicatesAndSort]. *)
Lemma filteri_first :
  let out := Js.filteri (isFirst coins) coins in
  NoDup (filter byValue (CoinData.contractAddress <$> out))
  ∧ (∀ c, c ∈ out → c ∈ coins)
  ∧ (∀ c, c ∈ coins →
       if decide (byValue (CoinData.contractAddress c))
       then CoinData.contractAddress c ∈ CoinData.contractAddress <$> out
       else c ∈ out).
Proof.
  destruct (filterFrom_first [] coins eq_refl) as (Hnd & Hsub & Hcov).
  split; [done|]. split.
  - intros c Hin. by apply Hsub in Hin as [? _].
  - intros c Hin. specialize (Hcov c Hin). destruct (decide _); [|done].
    destruct Hcov as [Hcov|Hcov]; [|done]. by apply elem_of_nil in Hcov.
Qed.

End FirstOccurrence.

Lemma toLowerCase_idem s : Js.toLowerCase (Js.toLowerCase s) = Js.toLowerCase s.
Proof.
  induction s as [|c s IH]; simpl; [done|]. f_equal; [|done].
  unfold Js.lower_char at 1.
  destruct (Js.is_upper (Js.lower_char c)) eqn:E; [|done].
  exfalso. revert E. unfold Js.lower_char.
  destruct (Js.is_upper c) eqn:Ec.
  - unfold Js.is_upper in *.
    rewrite nat_ascii_embedding.
    + intros E. apply andb_true_iff in E as [E1 E2].
      apply andb_true_iff in Ec as [E3 E4].
      apply Nat.leb_le in E1, E2, E3, E4. lia.
    + apply andb_true_iff in Ec as [E3 E4]. apply Nat.leb_le in E4. lia.
  - congruence.
Qed.

Lemma filter_all {A : Type} (P : A → Prop) `{!∀ x, Decision (P x)}
    (l : list A) :
  (∀ x, P x) → filter P l = l.
Proof.
  intros HP. induction l as [|x l IH]; [done|].
  rewrite filter_cons, decide_True by done. by rewrite IH.
Qed.

(** On the records of the BNB scan: addresses are strings and launch times
    valid dates. *)
Lemma removeDuplicatesAndSort_typed (coins : list (CoinData.t string Z)) :
  Scanner.removeDuplicatesAndSort coins
  = Js.sortDesc CoinData.launchTime (Js.filteri (isFirst coins) coins).
Proof.
  rewrite removeDuplicatesAndSort_unfold. unfold byLaunchTime.
  rewrite (sortWith_valid (λ c, Js.getTime (CoinData.launchTime c))); [done|].
  apply Forall_forall. by eexists.
Qed.

Lemma removeDuplicatesAndSort_facts (coins : list (CoinData.t string Z)) :
  let out := Scanner.removeDuplicatesAndSort coins in
  NoDup (CoinData.contractAddress <$> out)
  ∧ (∀ c, c ∈ out → c ∈ coins)
  ∧ (∀ c, c ∈ coins →
       CoinData.contractAddress c ∈ CoinData.contractAddress <$> out).
Proof.
  intros out.
  destruct (filteri_first string_strictEquals coins) as (Hnd & Hsub & Hcov).
  assert (∀ a : string, byValue a) as Hv
    by (intros a; by apply bool_decide_eq_true).
  rewrite filter_all in Hnd by done.
  assert (out ≡ₚ Js.filteri (isFirst coins) coins) as Hp
    by apply sortWith_perm.
  split; [by rewrite Hp|]. split.
  - intros c Hin. rewrite Hp in Hin. by apply Hsub.
  - intros c Hin. rewrite Hp. specialize (Hcov c Hin).
    by rewrite decide_True in Hcov.
Qed.

Lemma filteri_elem {A : Type} (p : A → Z → bool) (l : list A) x :
  x ∈ Js.filteri p l → x ∈ l.
Proof.
  unfold Js.filteri. generalize 0. induction l as [|y l IH]; intros i; simpl.
  - done.
  - destruct (p y i); [|right; by eapply IH].
    intros [->|Hin]%elem_of_cons; [by left|right; by eapply IH].
Qed.



(** On the BNB side two candidates whose addresses differ only in the case
    of a letter would both be emitted as well; the decoders lower-case the
    addresses before. *)
Example removeDuplicatesAndSort_case_sensitive_strings :
  Scanner.removeDuplicatesAndSort
    [pairCoin "a" "0xAbC1" 2000; pairCoin "b" "0xabc1" 1000]
  = [pairCoin "a" "0xAbC1" 2000; pairCoin "b" "0xabc1" 1000].
Proof. reflexivity. Qed.

(** The scenario of the specification: two logs decoding to the same pool
    address yield one emitted record. *)
Example removeDuplicatesAndSort_same_pool :
  Scanner.removeDuplicatesAndSort
    [pairCoin "a" "0xabc1" 1000; pairCoin "b" "0xabc1" 2000]
  = [pairCoin "a" "0xabc1" 1000].
Proof. reflexivity. Qed.

(** On the Move-chain side an address that is not a primitive value is
    never a duplicate: two events with the same array for a pool identifier
    are both emitted. *)
Example removeDuplicatesAndSort_arrays :
  length
    (Scanner.removeDuplicatesAndSort
       (SuiScanner.parseEvents digitsUnparsed (λ _, (5, 5))
          [suiEvent "9xKpQ2LmNq" "0x1eab::factory::PoolCreatedEvent"
             (Js.JObj [("pool_id", Js.JArr [Js.JNum 7])]);
           suiEvent "7hTr5VwXz1" "0x1eab::factory::PoolCreatedEvent"
             (Js.JObj [("pool_id", Js.JArr [Js.JNum 7])])]))
  = 2%nat.
Proof. reflexivity. Qed.

(** ** The block cache *)

Lemma cache_set_absent k b m :
  cache_get k m = None → cache_set k b m = m ++ [(k, b)].
Proof.
  induction m as [|[k' b'] m IH]; simpl; [done|].
  destruct (k' =? k); [done|]. intros H. by rewrite IH.
Qed.

Lemma cache_set_length k b m :
  (length (cache_set k b m) ≤ S (length m))%nat.
Proof.
  induction m as [|[k' b'] m IH]; simpl; [lia|].
  destruct (k' =? k); simpl; lia.
Qed.

Lemma cache_delete_first m :
  match cache_firstKey m with
  | Some firstKey => cache_delete firstKey m
  | None => m
  end = tail m.
Proof.
  destruct m as [|[k b] m]; simpl; [done|]. by rewrite Z.eqb_refl.
Qed.

Lemma cacheBlock_evict k b m :
  cacheBlock k b m = cache_set k b (evictOldest m).
Proof.
  unfold cacheBlock, evictOldest.
  destruct (cache_size m >? 100); [|done]. by rewrite cache_delete_first.
Qed.

Lemma cache_get_evict k m :
  cache_get k m = None → cache_get k (evictOldest m) = None.
Proof.
  unfold evictOldest. destruct (cache_size m >? 100); [|done].
  destruct m as [|[k' b'] m]; simpl; [done|].
  by destruct (k' =? k).
Qed.

Lemma cacheBlock_fifo k b m :
  cache_get k m = None → cacheBlock k b m = evictOldest m ++ [(k, b)].
Proof.
  intros H. rewrite cacheBlock_evict.
  by apply cache_set_absent, cache_get_evict.
Qed.

Lemma evictOldest_size m :
  cache_size m ≤ 101 → cache_size (evictOldest m) ≤ 100.
Proof.
  unfold evictOldest, cache_size.
  destruct (Z.of_nat (length m) >? 100) eqn:E.
  - destruct m; simpl in *; lia.
  - lia.
Qed.

Lemma cacheBlock_size k b m :
  cache_size m ≤ 101 → cache_size (cacheBlock k b m) ≤ 101.
Proof.
  intros H. rewrite cacheBlock_evict.
  pose proof (evictOldest_size m H) as H1.
  pose proof (cache_set_length k b (evictOldest m)) as H2.
  unfold cache_size in *. lia.
Qed.

Lemma fetchLoop_cache k attempts retries m m' r :
  fetchLoop k attempts retries m = Some (m', r) →
  m' = m ∨ ∃ b, m' = cacheBlock k b m.
Proof.
  revert retries. induction attempts as [|a attempts IH]; intros retries; simpl.
  - destruct (retries >? 0); [done|]. intros [= <- _]. by left.
  - destruct (retries >? 0).
    + destruct a as [[b|]| |].
      * intros [= <- _]. right. by exists b.
      * apply IH.
      * apply IH.
      * intros [= <- _]. by left.
    + intros [= <- _]. by left.
Qed.

Lemma getBlockWithCache_cache now attempts k st st' r :
  getBlockWithCache now attempts k st = Some (st', r) →
  blockCache st' = blockCache st
  ∨ (cache_get k (blockCache st) = None
     ∧ ∃ b, blockCache st' = evictOldest (blockCache st) ++ [(k, b)]).
Proof.
  unfold getBlockWithCache, cache_has.
  destruct (cache_get k (blockCache st)) eqn:Hget.
  - intros [= <- _]. by left.
  - destruct (fetchLoop k attempts 3 (blockCache st)) as [[m res]|] eqn:Hloop;
      [|done].
    apply fetchLoop_cache in Hloop as [->|[b ->]].
    + destruct res; intros [= <- _]; by left.
    + destruct res; intros [= <- _]; right; (split; [done|]);
        exists b; by apply cacheBlock_fifo.
Qed.

Lemma lookups_size calls st st' :
  cache_size (blockCache st) ≤ 101 →
  lookups calls st = Some st' →
  cache_size (blockCache st') ≤ 101.
Proof.
  revert st. induction calls as [|[[now attempts] k] calls IH]; intros st Hst.
  - by intros [= <-].
  - simpl.
    destruct (getBlockWithCache now attempts k st) as [[st1 r]|] eqn:Hcall;
      [|done].
    apply IH.
    apply getBlockWithCache_cache in Hcall as [->|(Hget & b & ->)]; [done|].
    pose proof (evictOldest_size _ Hst) as H1.
    unfold cache_size in *. rewrite length_app. simpl. lia.
Qed.

(** C8.  Across every sequence of block lookups issued on a fresh scanner the
    block cache holds at most 101 entries (the code evicts once the size
    exceeds 100), and a lookup either leaves the cache as it was or appends
    the fetched block at the end after dropping the first, that is oldest,
    entry when more than 100 are held. *)
Theorem blockCache_bounded_evicts_oldest calls now attempts k st st' r :
  lookups calls initialScanner = Some st →
  getBlockWithCache now attempts k st = Some (st', r) →
  cache_size (blockCache st) ≤ 101
  ∧ cache_size (blockCache st') ≤ 101
  ∧ (blockCache st' = blockCache st
     ∨ (cache_get k (blockCache st) = None
        ∧ ∃ b, blockCache st'
               = (if cache_size (blockCache st) >? 100
                  then tail (blockCache st) else blockCache st) ++ [(k, b)])).
Proof.
  intros Hreach Hcall.
  assert (cache_size (blockCache st) ≤ 101) as Hst.
  { eapply lookups_size; [|exact Hreach]. unfold cache_size. simpl. lia. }
  split; [done|]. split.
  - apply (lookups_size [(now, attempts, k)] st st'); [done|].
    simpl. by rewrite Hcall.
  - by apply getBlockWithCache_cache in Hcall.
Qed.

(** A full cache: 101 blocks fetched, then one more after a rate-limit
    error; the block fetched first is the one dropped. *)
Lemma blockCache_bounded_evicts_oldest_witness :
  ∃ st st' r,
    lookups (freshLookups 101) initialScanner = Some st
    ∧ getBlockWithCache 0
        [RateLimited; Fetched (Some {| number := 500; timestamp := 7; hash := "0x2" |})]
        500 st = Some (st', r)
    ∧ cache_size (blockCache st) = 101
    ∧ cache_size (blockCache st') ≤ 101
    ∧ blockCache st' = tail (blockCache st)
                        ++ [(500, {| number := 500; timestamp := 7; hash := "0x2" |})].
Proof.
  eexists _, _, _.
  split; [vm_compute; reflexivity|].
  split; [vm_compute; reflexivity|].
  split; [vm_compute; reflexivity|].
  split.
  - eapply (blockCache_bounded_evicts_oldest (freshLookups 101) 0
              [RateLimited; Fetched (Some {| number := 500; timestamp := 7; hash := "0x2" |})]
              500);
      vm_compute; reflexivity.
  - vm_compute; reflexivity.
Defined.

(** ** Parsing of Move-chain events *)

Lemma getProp_of_truthy v f g :
  Js.truthy (Js.getPropOpt v f) = true → Js.getProp v g = Some (Js.getPropOpt v g).
Proof. by destruct v. Qed.

Lemma or_str_empty d : Js.or_str d "" = d.
Proof. by destruct d. Qed.

Lemma id_txDigest_some ev d :
  id_txDigest ev = Some d → id_txDigest_or_empty ev = d.
Proof.
  unfold id_txDigest, id_txDigest_or_empty.
  destruct (ev_id ev) as [i|]; simpl; [|done].
  intros [= <-]. apply or_str_empty.
Qed.

Lemma or_txDigest_some a ev v :
  or_txDigest a ev = Some v → v = Js.or_val a (digestOf ev).
Proof.
  unfold or_txDigest, Js.or_val, digestOf.
  destruct (Js.truthy a); [by intros [= ->]|].
  destruct (id_txDigest ev) as [d|] eqn:Hd; simpl; [|done].
  intros [= <-]. by rewrite (id_txDigest_some _ _ Hd).
Qed.

Lemma decodeShape_address ev symbol name address :
  decodeShape ev = Some (symbol, name, address) →
  address = addressByPriority ev
  ∧ (unrecognised ev = true → symbol = syntheticSymbol ev).
Proof.
  unfold decodeShape, shapeOf, addressByPriority, unrecognised, syntheticSymbol,
    hasField, field.
  set (event := parsedJson ev).
  destruct (Js.truthy (Js.getPropOpt event "token_x")
            && Js.truthy (Js.getPropOpt event "token_y")) eqn:H1.
  { apply andb_true_iff in H1 as [Hx Hy]. intros H. simplify_option_eq.
    rewrite (getProp_of_truthy event "token_x" "pair") in * by done.
    simplify_eq. split; [by eapply or_txDigest_some|done]. }
  destruct (Js.truthy (Js.getPropOpt event "coin_type_a")
            && Js.truthy (Js.getPropOpt event "coin_type_b")) eqn:H2.
  { apply andb_true_iff in H2 as [Ha Hb]. intros H. simplify_option_eq.
    rewrite (getProp_of_truthy event "coin_type_a" "pool_id") in * by done.
    simplify_eq. split; [by eapply or_txDigest_some|done]. }
  destruct (Js.truthy (Js.getPropOpt event "coin_type")) eqn:H3.
  { intros H. simplify_option_eq.
    rewrite (getProp_of_truthy event "coin_type" "coin_type") in * by done.
    by simplify_eq. }
  destruct (Js.truthy (Js.getPropOpt event "pool_id")) eqn:H4.
  { intros H. simplify_option_eq.
    rewrite (getProp_of_truthy event "pool_id" "pool_id") in * by done.
    by simplify_eq. }
  simpl. destruct (ev_type ev) as [type|]; simpl.
  - destruct (Js.truthy_str type) eqn:Htype.
    + destruct (Js.split_colons type) as [|p0 [|p1 [|p2 parts]]];
        try by (intros [= <- <- <-]).
      destruct (3 <=? Z.of_nat (length (p0 :: p1 :: p2 :: parts))) eqn:E;
        [|apply Z.leb_gt in E; simpl in E; lia].
      intros H. simplify_option_eq. split; [done|]. intros _.
      by erewrite id_txDigest_some.
    + destruct type; [|done]. by intros [= <- <- <-].
  - by intros [= <- <- <-].
Qed.

Lemma or_txDigest_none a ev :
  or_txDigest a ev = None ↔ negb (Js.truthy a) && lacksId ev = true.
Proof.
  unfold or_txDigest, id_txDigest, lacksId.
  destruct (Js.truthy a); simpl; [done|]. by destruct (ev_id ev).
Qed.

Lemma split_val_none v : Js.split_val v = None ↔ isString v = false.
Proof. by destruct v. Qed.

Lemma slice_val_none n v : Js.slice_val n v = None ↔ isSliceable v = false.
Proof. by destruct v. Qed.

Lemma bind_none {A B : Type} (m : option A) (f : A → option B) :
  m ≫= f = None ↔ m = None ∨ ∃ a, m = Some a ∧ f a = None.
Proof.
  destruct m as [a|]; simpl; [|by split; [left|]].
  split; [intros H; right; by exists a|].
  by intros [|(? & [= <-] & ?)].
Qed.

Lemma getProp_truthy v p :
  Js.truthy v = true → Js.getProp v p = Some (Js.getPropOpt v p).
Proof. by destruct v. Qed.

(** The decoding raises exactly on the payloads that are [unreadable]. *)
Lemma decodeShape_unreadable ev :
  decodeShape ev = None ↔ unreadable ev = true.
Proof.
  unfold decodeShape, shapeOf, unreadable, hasField, field, hasTypePath.
  set (event := parsedJson ev).
  destruct (Js.truthy (Js.getPropOpt event "token_x")
            && Js.truthy (Js.getPropOpt event "token_y")) eqn:H1.
  { apply andb_true_iff in H1 as [Hx Hy].
    rewrite !(getProp_of_truthy event "token_x" _ Hx). simpl.
    rewrite !(getProp_truthy _ _ Hx), !(getProp_truthy _ _ Hy). simpl.
    destruct (or_txDigest (Js.getPropOpt event "pair") ev) eqn:E; simpl.
    - split; [done|]. intros Hn. apply or_txDigest_none in Hn. congruence.
    - split; [intros _|done]. by apply or_txDigest_none. }
  destruct (Js.truthy (Js.getPropOpt event "coin_type_a")
            && Js.truthy (Js.getPropOpt event "coin_type_b")) eqn:H2.
  { apply andb_true_iff in H2 as [Ha Hb].
    rewrite !(getProp_of_truthy event "coin_type_a" _ Ha). simpl.
    destruct (Js.getPropOpt event "coin_type_a") eqn:Ea; simpl; try done.
    destruct (Js.getPropOpt event "coin_type_b") eqn:Eb; simpl; try done.
    destruct (or_txDigest (Js.getPropOpt event "pool_id") ev) eqn:E; simpl.
    - split; [done|]. intros Hn. apply or_txDigest_none in Hn. congruence.
    - split; [intros _|done]. by apply or_txDigest_none. }
  destruct (Js.truthy (Js.getPropOpt event "coin_type")) eqn:H3.
  { rewrite !(getProp_of_truthy event "coin_type" _ H3). simpl.
    by destruct (Js.getPropOpt event "coin_type"). }
  destruct (Js.truthy (Js.getPropOpt event "pool_id")) eqn:H4.
  { rewrite !(getProp_of_truthy event "pool_id" _ H4). simpl.
    by destruct (Js.getPropOpt event "pool_id"). }
  unfold id_txDigest, lacksId.
  destruct (ev_type ev) as [type|]; simpl; [|done].
  destruct (Js.truthy_str type) eqn:Htype.
  - destruct (3 <=? Z.of_nat (length (Js.split_colons type))); simpl; [|done].
    by destruct (ev_id ev).
  - destruct type; [|done]. simpl. done.
Qed.




(** The parser on sample events: a typed token pair wins over a bare pool
    identifier; an unrecognised payload falls back to the digest and the
    synthetic symbol; a payload whose coin types are not strings, and an
    event without any address, are dropped. *)
Example parseSuiEvent_samples :
  (CoinData.contractAddress
     <$> parseSuiEvent digitsUnparsed 5 6
           (suiEvent "9xKpQ2LmNq" "0x1eab::factory::PoolCreatedEvent"
              tokenPairPayload)) = Some (Js.JStr "0x5eb2")
  ∧ (CoinData.symbol
       <$> parseSuiEvent digitsUnparsed 5 6
             (suiEvent "9xKpQ2LmNq" "0x1eab::factory::PoolCreatedEvent"
                tokenPairPayload)) = Some "SUI/USDC"
  ∧ ((λ r, (CoinData.contractAddress r, CoinData.symbol r, CoinData.id r))
       <$> parseSuiEvent digitsUnparsed 5 6
             (suiEvent "9xKpQ2LmNq" "0x1eab::factory::PoolCreatedEvent"
                (Js.JObj [("sender", Js.JStr "0x77")])))
     = Some (Js.JStr "9xKpQ2LmNq", "PoolCreatedEvent_Q2LmNq", "9xKpQ2LmNq-3")
  ∧ parseSuiEvent digitsUnparsed 5 6
      (suiEvent "9xKpQ2LmNq" "0x1eab::factory::PoolCreatedEvent"
         typeNamePayload) = None
  ∧ parseSuiEvent digitsUnparsed 5 6
      {| ev_id := None; ev_type := None; timestampMs := None;
         parsedJson := Js.JNull |} = None.
Proof. repeat split; vm_compute; reflexivity. Qed.

(** ** The news aggregator *)

Lemma removeDuplicatesFrom_facts seen items :
  let out := removeDuplicatesFrom seen items in
  NoDup (titleKey <$> out)
  ∧ (∀ item, item ∈ out → item ∈ items ∧ titleKey item ∉ seen)
  ∧ (∀ item, item ∈ items →
       titleKey item ∈ seen ∨ titleKey item ∈ titleKey <$> out).
Proof.
  revert seen. induction items as [|x items IH]; intros seen; simpl.
  - split; [constructor|]. split; intros item Hin; by apply elem_of_nil in Hin.
  - case_bool_decide as Hseen.
    + destruct (IH seen) as (Hnd & Hsub & Hcov).
      split; [done|]. split.
      * intros item Hin. apply Hsub in Hin as [? ?]. split; [by right|done].
      * intros item Hin. apply elem_of_cons in Hin as [->|Hin]; [by left|].
        by apply Hcov.
    + destruct (IH ({[titleKey x]} ∪ seen)) as (Hnd & Hsub & Hcov).
      split; [|split].
      * rewrite fmap_cons. constructor; [|done].
        intros Hin. apply list_elem_of_fmap in Hin as (y & Hy & Hin).
        apply Hsub in Hin as [_ Hn]. apply Hn, elem_of_union. left.
        by apply elem_of_singleton.
      * intros item Hin. apply elem_of_cons in Hin as [->|Hin].
        -- split; [by left|done].
        -- apply Hsub in Hin as [? Hn]. split; [by right|].
           intros Hs. apply Hn, elem_of_union. by right.
      * intros item Hin. rewrite fmap_cons.
        apply elem_of_cons in Hin as [->|Hin]; [right; by left|].
        apply Hcov in Hin as [Hin|Hin]; [|right; by right].
        apply elem_of_union in Hin as [Hin|Hin]; [|by left].
        apply elem_of_singleton in Hin. right. rewrite Hin. by left.
Qed.

Lemma removeDuplicates_facts items :
  let out := removeDuplicates items in
  NoDup (titleKey <$> out)
  ∧ (∀ item, item ∈ out → item ∈ items)
  ∧ (∀ item, item ∈ items → titleKey item ∈ titleKey <$> out).
Proof.
  destruct (removeDuplicatesFrom_facts ∅ items) as (Hnd & Hsub & Hcov).
  split; [done|]. split.
  - intros item Hin. by apply Hsub in Hin as [? _].
  - intros item Hin. apply Hcov in Hin as [Hin|Hin]; [|done].
    by apply not_elem_of_empty in Hin.
Qed.

(** C7, as the code has it.  [getSuiNews] uses the settled results of both
    sources, returns the items of whichever sources succeeded, deduplicated
    by normalised title, a failed source contributing nothing; it never
    reports failure: when every source failed the answer is still a success,
    with an empty list. *)
Theorem getSuiNews_merges_and_never_fails newsApiResult googleRssResult :
  let r := getSuiNews newsApiResult googleRssResult in
  let merged := settledItems newsApiResult ++ settledItems googleRssResult in
  success r = true
  ∧ data r = Some (removeDuplicates merged)
  ∧ NoDup (titleKey <$> removeDuplicates merged)
  ∧ (∀ item, item ∈ removeDuplicates merged → item ∈ merged)
  ∧ (∀ item, item ∈ merged →
       titleKey item ∈ titleKey <$> removeDuplicates merged)
  ∧ (if sourceFailed newsApiResult
     then settledItems newsApiResult = [] else True)
  ∧ (if sourceFailed googleRssResult
     then settledItems googleRssResult = [] else True)
  ∧ (if sourceFailed newsApiResult && sourceFailed googleRssResult
     then data r = Some [] else True).
Proof.
  intros r merged.
  destruct (removeDuplicates_facts merged) as (Hnd & Hsub & Hcov).
  assert (∀ s, sourceFailed s = true → settledItems s = []) as Hfail.
  { intros [v|]; simpl; [|done]. by destruct (success v). }
  repeat split; try done.
  - destruct (sourceFailed newsApiResult) eqn:E; [by apply Hfail|done].
  - destruct (sourceFailed googleRssResult) eqn:E; [by apply Hfail|done].
  - destruct (sourceFailed newsApiResult) eqn:E1; [|done].
    destruct (sourceFailed googleRssResult) eqn:E2; [|done].
    simpl. unfold r, getSuiNews. simpl.
    by rewrite (Hfail _ E1), (Hfail _ E2).
Qed.

(** C7 as stated fails: with both sources failed the path still reports
    success. *)
Lemma getSuiNews_total_failure_is_success :
  let newsApiResult :=
    Fulfilled {| success := false; data := None;
                 error := Some "Request failed with status code 401" |} in
  let googleRssResult := Rejected in
  sourceFailed newsApiResult = true
  ∧ sourceFailed googleRssResult = true
  ∧ success (getSuiNews newsApiResult googleRssResult) = true
  ∧ ¬ (success (getSuiNews newsApiResult googleRssResult) = false
       ↔ sourceFailed newsApiResult && sourceFailed googleRssResult = true).
Proof.
  repeat split; try done. intros [_ H]. by specialize (H eq_refl).
Qed.

(** C6, as the code has it.  [getAllNews] always succeeds; its combined list
    is the items of the general path followed by the deduplicated items of
    the chain-specific path, sorted by publish time descending.  Only the
    chain-specific part is deduplicated by normalised title. *)
Theorem getAllNews_combined_sorted cryptoPanicResult coinTelegraphResult
    newsApiResult googleRssResult :
  let r := getAllNews cryptoPanicResult coinTelegraphResult
             newsApiResult googleRssResult in
  let suiItems :=
    removeDuplicates
      (settledItems newsApiResult ++ settledItems googleRssResult) in
  success r = true
  ∧ ∃ all, data r = Some all
      ∧ general all = generalItems cryptoPanicResult coinTelegraphResult
      ∧ sui_news all = suiItems
      ∧ combined all
        = Js.sortDesc NewsItem.publishedAt (general all ++ sui_news all)
      ∧ combined all ≡ₚ general all ++ sui_news all
      ∧ StronglySorted (descending NewsItem.publishedAt) (combined all)
      ∧ NoDup (titleKey <$> sui_news all).
Proof.
  intros r suiItems. split; [done|]. eexists. split; [reflexivity|]. simpl.
  assert ((if success (getGeneralCryptoNews cryptoPanicResult coinTelegraphResult)
           then default [] (data (getGeneralCryptoNews cryptoPanicResult
                                    coinTelegraphResult))
           else []) = generalItems cryptoPanicResult coinTelegraphResult) as ->.
  { unfold getGeneralCryptoNews, generalItems, hasItems.
    destruct (success cryptoPanicResult) eqn:E1; simpl.
    - destruct (data cryptoPanicResult) as [l|] eqn:D1.
      + destruct (0 <? Z.of_nat (length l)); [by rewrite E1, D1|].
        destruct (success coinTelegraphResult) eqn:E2; simpl; [|done].
        destruct (data coinTelegraphResult) as [l2|] eqn:D2; [|done].
        destruct (0 <? Z.of_nat (length l2)); [by rewrite E2, D2|done].
      + destruct (success coinTelegraphResult) eqn:E2; simpl; [|done].
        destruct (data coinTelegraphResult) as [l2|] eqn:D2; [|done].
        destruct (0 <? Z.of_nat (length l2)); [by rewrite E2, D2|done].
    - destruct (success coinTelegraphResult) eqn:E2; simpl; [|done].
      destruct (data coinTelegraphResult) as [l2|] eqn:D2; [|done].
      destruct (0 <? Z.of_nat (length l2)); [by rewrite E2, D2|done]. }
  split; [done|]. split; [done|]. split; [done|].
  split; [apply sortDesc_perm|]. split; [apply sortDesc_sorted|].
  apply removeDuplicates_facts.
Qed.

(** C6 as stated fails: a story carried by the general path and by the
    chain-specific path appears twice in the combined list. *)
Lemma getAllNews_combined_keeps_duplicates :
  let cryptoPanicResult :=
    {| success := true;
       data := Some [story "cp_1" "Sui hits a record high" 2000 "general" "CryptoPanic"];
       error := None |} in
  let coinTelegraphResult :=
    {| success := false; data := None; error := Some "timeout" |} in
  let newsApiResult :=
    Fulfilled {| success := true;
                 data := Some [story "news_sui_0_1" "SUI hits a record high " 1000 "sui" "NewsAPI"];
                 error := None |} in
  let r := getAllNews cryptoPanicResult coinTelegraphResult
             newsApiResult Rejected in
  (combined <$> data r)
  = Some [story "cp_1" "Sui hits a record high" 2000 "general" "CryptoPanic";
          story "news_sui_0_1" "SUI hits a record high " 1000 "sui" "NewsAPI"]
  ∧ ¬ NoDup (titleKey <$> default [] (combined <$> data r)).
Proof.
  split; [vm_compute; reflexivity|].
  intros H. vm_compute in H. apply NoDup_cons_1_1 in H. apply H. by left.
Qed.

(** ** Reconciliation against the store: asset records *)

Lemma Coin_findOne_none address net coll :
  Coin.findOne address net coll = None →
  (address, net) ∉ coinKey <$> coll.
Proof.
  unfold Coin.findOne. intros Hnone Hin.
  apply list_elem_of_fmap in Hin as (d & Hd & Hin).
  apply list_elem_of_In in Hin.
  pose proof (find_none _ _ Hnone d Hin) as Hf. simpl in Hf.
  unfold coinKey in Hd. injection Hd as -> ->.
  by rewrite !bool_decide_eq_true_2 in Hf.
Qed.

Lemma Coin_save_some c coll coll' :
  Coin.save c coll = Some coll' →
  coll' = coll ++ [c] ∧ Coin.id c ∉ Coin.id <$> coll.
Proof.
  unfold Coin.save.
  destruct (Coin.valid c); simpl; [|done].
  destruct (existsb _ coll) eqn:E; simpl; [done|].
  intros [= <-]. split; [done|].
  intros Hin. apply list_elem_of_fmap in Hin as (d & Hd & Hin).
  apply list_elem_of_In in Hin.
  assert (existsb (λ d, bool_decide (Coin.id d = Coin.id c)) coll = true)
    as Ht; [|congruence].
  apply existsb_exists. exists d. split; [done|]. by apply bool_decide_eq_true.
Qed.

Lemma saveNewCoinsFrom_unique clock coinList coll n :
  NoDup (coinKey <$> coll) → NoDup (Coin.id <$> coll) →
  NoDup (coinKey <$> (saveNewCoinsFrom clock coinList coll n).1)
  ∧ NoDup (Coin.id <$> (saveNewCoinsFrom clock coinList coll n).1).
Proof.
  revert coll n. induction coinList as [|d rest IH]; intros coll n Hk Hi; simpl.
  - done.
  - destruct (Coin.findOne _ _ coll) eqn:Hfind; [by apply IH|].
    destruct (Coin.save (Coin.new (clock d) d) coll) as [coll'|] eqn:Hsave;
      [|by apply IH].
    apply Coin_save_some in Hsave as [-> Hfresh].
    apply Coin_findOne_none in Hfind.
    apply IH; rewrite fmap_app; apply NoDup_app; (split; [done|]);
      (split; [|apply NoDup_singleton]); intros x Hx Hx';
      apply list_elem_of_singleton in Hx'; subst x; done.
Qed.

(** C3, as the code has it.  In every collection that successive runs of
    [saveNewCoins] produce from the empty one, no two asset records share
    the pair of contract/pool address and chain tag, and no two share the
    identifier.  The first is the work of the check made before each
    insert; the store's own uniqueness constraint covers the identifier
    only. *)
Theorem saveNewCoins_unique_key coll :
  coinsReachable coll →
  NoDup (coinKey <$> coll) ∧ NoDup (Coin.id <$> coll).
Proof.
  induction 1 as [|clock coinList coll _ [Hk Hi]].
  - split; constructor.
  - by apply saveNewCoinsFrom_unique.
Qed.

(** Three candidates, two of them for the same pool: two records stored. *)
Lemma saveNewCoins_unique_key_witness :
  let coll :=
    (saveNewCoins (λ _, 3000)
       [pairCoin "a" "0xabc1" 1000; pairCoin "b" "0xabc1" 2000;
        pairCoin "c" "0xabc2" 3000] []).1 in
  length coll = 2%nat
  ∧ NoDup (coinKey <$> coll) ∧ NoDup (Coin.id <$> coll).
Proof.
  split; [reflexivity|].
  apply (saveNewCoins_unique_key
           (saveNewCoins (λ _, 3000)
              [pairCoin "a" "0xabc1" 1000; pairCoin "b" "0xabc1" 2000;
               pairCoin "c" "0xabc2" 3000] []).1).
  apply coinsReachable_save, coinsReachable_empty.
Defined.

(** C3 as stated fails: the store itself accepts a second record with the
    address and chain tag of a stored one, its only unique index being the
    one on [id]. *)
Lemma Coin_save_accepts_duplicate_key :
  let stored := Coin.new 3000 (pairCoin "0xabc1-1" "0xabc1" 1000) in
  let second := Coin.new 3050 (pairCoin "0xabc1-2" "0xabc1" 1000) in
  Coin.save second [stored] = Some [stored; second]
  ∧ coinKey stored = coinKey second
  ∧ ¬ NoDup (coinKey <$> [stored; second]).
Proof.
  split; [reflexivity|]. split; [reflexivity|].
  intros H. apply NoDup_cons_1_1 in H. apply H. by left.
Qed.

(** ** Reconciliation against the store: news records *)

Lemma News_findOne_none title coll d :
  News.findOne title coll = None → d ∈ coll → newsTitle d ≠ title.
Proof.
  unfold News.findOne. intros Hnone Hin Heq.
  apply list_elem_of_In in Hin.
  pose proof (find_none _ _ Hnone d Hin) as Hf. simpl in Hf.
  by rewrite bool_decide_eq_true_2 in Hf.
Qed.

Lemma News_save_some n coll coll' :
  News.save n coll = Some coll' → coll' = coll ++ [n].
Proof.
  unfold News.save. destruct (_ && _); [|done]. by intros [= <-].
Qed.

Lemma laterDiffers_snoc coll n :
  laterDiffers coll →
  News.findOne (Js.trim (newsTitle n)) coll = None →
  laterDiffers (coll ++ [n]).
Proof.
  intros Hinv Hfind i j a b Hi Hj Hlt.
  destruct (decide (j < length coll)%nat) as [Hj'|Hj'].
  - rewrite lookup_app_l in Hi by lia. rewrite lookup_app_l in Hj by lia.
    by eapply Hinv.
  - assert (j = length coll) as ->.
    { apply lookup_lt_Some in Hj. rewrite length_app in Hj. simpl in Hj. lia. }
    rewrite lookup_app_l in Hi by lia.
    rewrite lookup_app_r in Hj by lia.
    rewrite Nat.sub_diag in Hj. injection Hj as <-.
    eapply News_findOne_none; [exact Hfind|].
    by eapply list_elem_of_lookup_2.
Qed.

Lemma saveNewsFrom_laterDiffers clock newsItems coll s k :
  laterDiffers coll →
  laterDiffers (saveNewsFrom clock newsItems coll s k).1.1.
Proof.
  revert coll s k. induction newsItems as [|x rest IH]; intros coll s k Hinv;
    simpl; [done|].
  destruct (News.findOne _ coll) eqn:Hfind; [by apply IH|].
  destruct (News.save (News.new (clock x) x) coll) as [coll'|] eqn:Hsave;
    [|by apply IH].
  apply News_save_some in Hsave as ->.
  apply IH. by apply laterDiffers_snoc.
Qed.

(** C4, as the code has it.  In every collection that successive runs of
    [saveNews] produce from the empty one, no stored title equals the
    trimmed title of a record stored later; hence two stored records whose
    titles carry no surrounding white space never have the same title,
    titles being compared as exact strings. *)
Theorem saveNews_unique_exact_title coll (i j : nat) a b :
  newsReachable coll →
  coll !! i = Some a → coll !! j = Some b → i ≠ j →
  (i < j → newsTitle a ≠ Js.trim (newsTitle b))%nat
  ∧ (Js.trim (newsTitle a) = newsTitle a →
     Js.trim (newsTitle b) = newsTitle b →
     newsTitle a ≠ newsTitle b).
Proof.
  intros Hreach Ha Hb Hij.
  assert (laterDiffers coll) as Hinv.
  { clear Ha Hb. induction Hreach as [|clock newsItems coll _ IH].
    - intros i' j' a' b' Hi. by rewrite lookup_nil in Hi.
    - by apply saveNewsFrom_laterDiffers. }
  split; [intros Hlt; by eapply Hinv|].
  intros Hta Htb Heq.
  destruct (decide (i < j)%nat) as [Hlt|Hge].
  - apply (Hinv i j a b Ha Hb Hlt). congruence.
  - apply (Hinv j i b a Hb Ha); [lia|congruence].
Qed.

(** Three stories, two of them with the same title: two records stored,
    with different titles. *)
Lemma saveNews_unique_exact_title_witness :
  let coll :=
    (saveNews (λ _, 3100)
       [story "n1" "Sui upgrade ships" 2000 "sui" "NewsAPI";
        story "n2" "Sui upgrade ships" 1500 "sui" "Google News";
        story "n3" "BNB burn completed" 1000 "bnb" "NewsAPI"] []).1.1 in
  coll = [News.new 3100 (story "n1" "Sui upgrade ships" 2000 "sui" "NewsAPI");
          News.new 3100 (story "n3" "BNB burn completed" 1000 "bnb" "NewsAPI")]
  ∧ "Sui upgrade ships" ≠ "BNB burn completed".
Proof.
  split; [reflexivity|].
  refine (proj2 (saveNews_unique_exact_title
           (saveNews (λ _, 3100)
              [story "n1" "Sui upgrade ships" 2000 "sui" "NewsAPI";
               story "n2" "Sui upgrade ships" 1500 "sui" "Google News";
               story "n3" "BNB burn completed" 1000 "bnb" "NewsAPI"] []).1.1
           0 1
           (News.new 3100 (story "n1" "Sui upgrade ships" 2000 "sui" "NewsAPI"))
           (News.new 3100
              (story "n3" "BNB burn completed" 1000 "bnb" "NewsAPI"))
           _ _ _ _) _ _).
  - apply newsReachable_save, newsReachable_empty.
  - reflexivity.
  - reflexivity.
  - lia.
  - reflexivity.
  - reflexivity.
Defined.

(** C4 as stated fails: two titles that differ only in the case of a
    letter are both stored, although they are equal after lower-casing and
    trimming. *)
Lemma saveNews_stores_case_variants :
  let first := story "n1" "Sui Upgrade Ships" 2000 "sui" "NewsAPI" in
  let second := story "n2" "Sui upgrade ships" 1500 "sui" "Google News" in
  (saveNews (λ _, 3100) [first; second] []).1.1
  = [News.new 3100 first; News.new 3100 second]
  ∧ titleKey first = titleKey second.
Proof. split; reflexivity. Qed.

(** ** Persistence of general news *)

Lemma saveNewsFrom_general clock newsItems coll s k :
  Forall (λ item, NewsItem.network item = "general") newsItems →
  (saveNewsFrom clock newsItems coll s k).1.1 = coll.
Proof.
  intros Hall. revert s k.
  induction Hall as [|item rest Hitem _ IH]; intros s k; simpl; [done|].
  destruct (News.findOne _ coll); [apply IH|].
  unfold News.save, News.valid. simpl. rewrite Hitem.
  rewrite !(bool_decide_eq_false_2 (_ = _)) by done.
  rewrite andb_false_r. simpl. apply IH.
Qed.

(** C9 on the code: an item of the general path, whose chain tag is
    ["general"], fails the validation of the [News] schema; [saveNews]
    catches the error and nothing is stored. *)
Lemma saveNews_rejects_general clock :
  let item := story "cp_901" "Bitcoin rallies" 1000 "general" "CryptoPanic" in
  News.findOne (Js.trim (NewsItem.title item)) [] = None
  ∧ News.valid (News.new (clock item) item) = false
  ∧ News.save (News.new (clock item) item) [] = None
  ∧ saveNews clock [item] [] = ([], 0, 0).
Proof. repeat split; reflexivity. Qed.

(** ** Publication state *)

(** *** Selection pipelines *)

Section Pipeline.
Context {A : Type} (R : A → A → Prop).
Context (P : A → Prop) `{!∀ x, Decision (P x)} (key : A → Z).
Hypothesis R_P : ∀ x y, R x y → (P x ↔ P y).
Hypothesis R_key : ∀ x y, R x y → key x = key y.

Lemma Forall2_filter_rel l l' :
  Forall2 R l l' → Forall2 R (filter P l) (filter P l').
Proof.
  induction 1 as [|x y l l' Hxy _ IH]; [constructor|].
  rewrite !filter_cons. pose proof (R_P x y Hxy).
  destruct (decide (P x)), (decide (P y)); try tauto. by constructor.
Qed.

Lemma Forall2_insertDesc x y l l' :
  R x y → Forall2 R l l' →
  Forall2 R (Js.insertDesc key x l) (Js.insertDesc key y l').
Proof.
  intros Hxy. induction 1 as [|a b l l' Hab Hl IH]; simpl.
  - by repeat constructor.
  - rewrite <- (R_key x y Hxy), <- (R_key a b Hab).
    destruct (key x <? key a); by repeat constructor.
Qed.

Lemma Forall2_sortDesc l l' :
  Forall2 R l l' → Forall2 R (Js.sortDesc key l) (Js.sortDesc key l').
Proof.
  induction 1; simpl; [constructor|by apply Forall2_insertDesc].
Qed.

Lemma Forall2_pipeline n l l' :
  Forall2 R l l' →
  Forall2 R (take n (Js.sortDesc key (filter P l)))
            (take n (Js.sortDesc key (filter P l'))).
Proof.
  intros Hl. by apply Forall2_take, Forall2_sortDesc, Forall2_filter_rel.
Qed.

End Pipeline.

Section PipelineFacts.
Context {A : Type} (P : A → Prop) `{!∀ x, Decision (P x)} (key : A → Z).

Lemma pipeline_elem n l x :
  x ∈ take n (Js.sortDesc key (filter P l)) → x ∈ l ∧ P x.
Proof.
  intros Hin. eapply elem_of_sublist in Hin; [|apply sublist_take].
  rewrite (sortDesc_perm key) in Hin.
  by apply list_elem_of_filter in Hin as [? ?].
Qed.

Lemma pipeline_NoDup {B : Type} (f : A → B) n l :
  NoDup (f <$> l) → NoDup (f <$> take n (Js.sortDesc key (filter P l))).
Proof.
  intros Hnd.
  eapply sublist_NoDup; [|apply fmap_sublist, sublist_take].
  rewrite (sortDesc_perm key).
  eapply sublist_NoDup; [exact Hnd|apply fmap_sublist, sublist_filter].
Qed.

End PipelineFacts.

(** *** Flags and facts *)

Section FlagInvariant.
Context {X F : Type} (key : X → string) (flag : X → bool).
Context (about : string → F → Prop) `{!∀ i f, Decision (about i f)}.

Lemma flagInv_nil : flagInv key flag about [] [].
Proof.
  split; [intros f i Hin; by apply elem_of_nil in Hin|]. intros i. simpl. lia.
Qed.

Lemma flagInv_other_fact items facts f :
  flagInv key flag about items facts → (∀ i, ¬ about i f) →
  flagInv key flag about items (facts ++ [f]).
Proof.
  intros [H1 H2] Hno. split.
  - intros f' i Hin Hab. apply elem_of_app in Hin as [Hin|Hin].
    + by eapply H1.
    + apply list_elem_of_singleton in Hin as ->. by apply Hno in Hab.
  - intros i. rewrite filter_app, length_app, filter_cons.
    destruct (decide (about i f)) as [Hab|_]; [by apply Hno in Hab|].
    rewrite filter_nil. specialize (H2 i). simpl. lia.
Qed.

Lemma flagInv_items items items' facts :
  flagInv key flag about items facts →
  (∀ x, x ∈ items → flag x = true →
        ∃ x', x' ∈ items' ∧ key x' = key x ∧ flag x' = true) →
  flagInv key flag about items' facts.
Proof.
  intros [H1 H2] Hmono. split; [|done].
  intros f i Hin Hab. destruct (H1 f i Hin Hab) as (x & Hx & <- & Hf).
  destruct (Hmono x Hx Hf) as (x' & ? & ? & ?). by exists x'.
Qed.

Lemma updateBy_keys g k items :
  (∀ x, key (g x) = key x) → key <$> updateBy key g k items = key <$> items.
Proof.
  intros Hg. unfold updateBy. rewrite <- list_fmap_compose.
  apply list_fmap_ext. intros i x _. simpl.
  case_bool_decide; [apply Hg|done].
Qed.

Lemma updateBy_elem g k items x :
  x ∈ items → (if bool_decide (key x = k) then g x else x) ∈ updateBy key g k items.
Proof.
  intros Hin. unfold updateBy. apply list_elem_of_fmap. by exists x.
Qed.

Lemma updateBy_mono g k items facts :
  (∀ x, key (g x) = key x) → (∀ x, flag x = true → flag (g x) = true) →
  flagInv key flag about items facts → flagInv key flag about (updateBy key g k items) facts.
Proof.
  intros Hk Hf Hinv. eapply flagInv_items; [exact Hinv|].
  intros x Hx Hfx. eexists. split; [by apply updateBy_elem|].
  case_bool_decide; [split; [apply Hk|by apply Hf]|done].
Qed.

Lemma flagInv_no_fact items facts x :
  NoDup (key <$> items) → flagInv key flag about items facts →
  x ∈ items → flag x = false →
  filter (about (key x)) facts = [].
Proof.
  intros Hnd [H1 _] Hx Hfx.
  destruct (filter (about (key x)) facts) as [|f fs] eqn:E; [done|].
  assert (f ∈ filter (about (key x)) facts) as Hin by (rewrite E; by left).
  apply list_elem_of_filter in Hin as [Hab Hin].
  destruct (H1 f _ Hin Hab) as (x' & Hx' & Hk & Hf').
  assert (x' = x) as ->; [|congruence].
  apply list_elem_of_lookup in Hx as [j Hj], Hx' as [j' Hj'].
  assert (j' = j) as ->; [|congruence].
  eapply NoDup_lookup; [exact Hnd| |].
  - rewrite list_lookup_fmap, Hj'. simpl. by rewrite Hk.
  - by rewrite list_lookup_fmap, Hj.
Qed.

Lemma flagInv_post g items facts x f :
  (∀ y, key (g y) = key y) → (∀ y, flag (g y) = true) →
  NoDup (key <$> items) → flagInv key flag about items facts →
  x ∈ items → flag x = false →
  (∀ i, about i f ↔ i = key x) →
  flagInv key flag about (updateBy key g (key x) items) (facts ++ [f]).
Proof.
  intros Hk Hg Hnd Hinv Hx Hfx Hab.
  pose proof (flagInv_no_fact items facts x Hnd Hinv Hx Hfx) as Hnone.
  destruct Hinv as [H1 H2]. split.
  - intros f' i Hin Habout. apply elem_of_app in Hin as [Hin|Hin].
    + destruct (H1 f' i Hin Habout) as (y & Hy & <- & Hfy).
      eexists. split; [by apply updateBy_elem|].
      case_bool_decide; [split; [apply Hk|apply Hg]|done].
    + apply list_elem_of_singleton in Hin as ->. apply Hab in Habout as ->.
      eexists. split; [by apply updateBy_elem|].
      rewrite bool_decide_eq_true_2 by done. split; [apply Hk|apply Hg].
  - intros i. rewrite filter_app, length_app, filter_cons, filter_nil.
    destruct (decide (about i f)) as [Habout|_].
    + apply Hab in Habout as ->. rewrite Hnone. simpl. lia.
    + specialize (H2 i). simpl. lia.
Qed.

End FlagInvariant.

(** *** The invariant of the database *)

Section Publication.
Context (client : TelegramClient).

Lemma Inv_empty : Inv client emptyDb.
Proof.
  split; simpl; try intros _; try apply flagInv_nil; try constructor; done.
Qed.

(** A client that sends is enabled; its channel and its group are then two
    chats as soon as they are kept apart. *)
Lemma sendMessage_some platform messageId :
  TelegramService.sendMessage client platform = Some messageId →
  enabled client = true.
Proof. unfold TelegramService.sendMessage. by destruct (enabled client). Qed.

Lemma separateChats_distinct :
  enabled client = true → separateChats client →
  channelId client ≠ groupId client.
Proof. intros Hen [Hoff|Hne]; [congruence|done]. Qed.

Lemma Tweet_save_some t coll coll' :
  Tweet.save t coll = Some coll' → coll' = coll ++ [t].
Proof. unfold Tweet.save. destruct (Js.truthy_str _); [|done]. by intros [= <-]. Qed.

Lemma TelegramMessage_save_some m coll coll' :
  TelegramMessage.save m coll = Some coll' → coll' = coll ++ [m].
Proof.
  unfold TelegramMessage.save. destruct (Js.truthy_str _); [|done].
  by intros [= <-].
Qed.

Lemma filter_snoc_none {A : Type} (P : A → Prop) `{!∀ x, Decision (P x)} l x :
  ¬ P x → filter P (l ++ [x]) = filter P l.
Proof.
  intros Hn. rewrite filter_app, filter_cons, filter_nil.
  destruct (decide (P x)); [done|]. by rewrite app_nil_r.
Qed.

Lemma Inv_post_coin_tweet db coin t stamp :
  Inv client db → coin ∈ coins db → Coin.isPosted coin = false →
  Tweet.isPosted t = true → Tweet.coinId t = Some (Coin.id coin) →
  Tweet.newsId t = None →
  Inv client
    {| coins := Coin.update (Coin.setPosted stamp) (Coin.id coin) (coins db);
       newsColl := newsColl db;
       tweets := tweets db ++ [t];
       telegramMessages := telegramMessages db |}.
Proof.
  intros [] Hin Hflag Hp Hc Hn.
  change (Coin.update (Coin.setPosted stamp) (Coin.id coin) (coins db))
    with (updateBy Coin.id (Coin.setPosted stamp) (Coin.id coin) (coins db)).
  split; simpl; try done.
  - by rewrite updateBy_keys.
  - apply flagInv_post; try done.
    intros i. unfold tweetIs. rewrite Hc. split; [by intros [_ [= ->]]|].
    by intros ->.
  - apply flagInv_other_fact; [done|].
    intros i [_ Hi]. congruence.
  - intros Hsep. apply updateBy_mono; [done..|by apply inv_ch_coin0].
Qed.

Lemma Inv_post_news_tweet db item t stamp :
  Inv client db → item ∈ newsColl db → News.isPosted item = false →
  Tweet.isPosted t = true → Tweet.newsId t = Some (News.id item) →
  Tweet.coinId t = None →
  Inv client
    {| coins := coins db;
       newsColl :=
         News.update (News.setPosted stamp) (News.id item) (newsColl db);
       tweets := tweets db ++ [t];
       telegramMessages := telegramMessages db |}.
Proof.
  intros [] Hin Hflag Hp Hn Hc.
  change (News.update (News.setPosted stamp) (News.id item) (newsColl db))
    with (updateBy News.id (News.setPosted stamp) (News.id item) (newsColl db)).
  split; simpl; try done.
  - by rewrite updateBy_keys.
  - apply flagInv_other_fact; [done|].
    intros i [_ Hi]. congruence.
  - apply flagInv_post; try done.
    intros i. unfold tweetIs. rewrite Hn. split; [by intros [_ [= ->]]|].
    by intros ->.
  - intros Hsep. apply updateBy_mono; [done..|by apply inv_ch_news0].
Qed.

Lemma Inv_post_coin_message db coin m stamp :
  enabled client = true →
  Inv client db → coin ∈ coins db → Coin.isTelegramPosted coin = false →
  TelegramMessage.isPosted m = true →
  TelegramMessage.chatId m = Some (channelId client) →
  TelegramMessage.coinId m = Some (Coin.id coin) →
  TelegramMessage.newsId m = None →
  Inv client
    {| coins :=
         Coin.update (Coin.setTelegramPosted stamp) (Coin.id coin) (coins db);
       newsColl := newsColl db;
       tweets := tweets db;
       telegramMessages := telegramMessages db ++ [m] |}.
Proof.
  intros Hen [] Hin Hflag Hp Hchat Hc Hn.
  change (Coin.update (Coin.setTelegramPosted stamp) (Coin.id coin) (coins db))
    with (updateBy Coin.id (Coin.setTelegramPosted stamp) (Coin.id coin)
            (coins db)).
  split; simpl; try done.
  - by rewrite updateBy_keys.
  - by apply updateBy_mono.
  - intros Hsep. apply flagInv_post; try done; [by apply inv_ch_coin0|].
    intros i. unfold messageIs. rewrite Hc. split; [by intros (_ & _ & [= ->])|].
    by intros ->.
  - intros Hsep. apply flagInv_other_fact; [by apply inv_ch_news0|].
    intros i (_ & _ & Hi). congruence.
  - intros Hsep i. pose proof (separateChats_distinct Hen Hsep) as Hne.
    rewrite filter_snoc_none; [by apply inv_gr_news0|].
    intros (_ & Hg & _). congruence.
  - intros Hsep i. pose proof (separateChats_distinct Hen Hsep) as Hne.
    rewrite filter_snoc_none; [by apply inv_gr_coin0|].
    intros (_ & Hg & _). congruence.
Qed.

Lemma Inv_post_news_message db item m stamp :
  enabled client = true →
  Inv client db → item ∈ newsColl db → News.isTelegramPosted item = false →
  TelegramMessage.isPosted m = true →
  TelegramMessage.chatId m = Some (channelId client) →
  TelegramMessage.newsId m = Some (News.id item) →
  TelegramMessage.coinId m = None →
  Inv client
    {| coins := coins db;
       newsColl :=
         News.update (News.setTelegramPosted stamp) (News.id item)
           (newsColl db);
       tweets := tweets db;
       telegramMessages := telegramMessages db ++ [m] |}.
Proof.
  intros Hen [] Hin Hflag Hp Hchat Hn Hc.
  change (News.update (News.setTelegramPosted stamp) (News.id item)
            (newsColl db))
    with (updateBy News.id (News.setTelegramPosted stamp) (News.id item)
            (newsColl db)).
  split; simpl; try done.
  - by rewrite updateBy_keys.
  - by apply updateBy_mono.
  - intros Hsep. apply flagInv_other_fact; [by apply inv_ch_coin0|].
    intros i (_ & _ & Hi). congruence.
  - intros Hsep. apply flagInv_post; try done; [by apply inv_ch_news0|].
    intros i. unfold messageIs. rewrite Hn. split; [by intros (_ & _ & [= ->])|].
    by intros ->.
  - intros Hsep i. pose proof (separateChats_distinct Hen Hsep) as Hne.
    rewrite filter_snoc_none; [by apply inv_gr_news0|].
    intros (_ & Hg & _). congruence.
  - intros Hsep i. pose proof (separateChats_distinct Hen Hsep) as Hne.
    rewrite filter_snoc_none; [by apply inv_gr_coin0|].
    intros (_ & Hg & _). congruence.
Qed.

(** *** The posting loops keep the invariant *)

Lemma rest_still_unflagged {X : Type} (key : X → string) (g : X → X)
    (x : X) (rest items : list X) (Q : X → Prop) :
  NoDup (key <$> x :: rest) →
  (∀ c, c ∈ x :: rest → c ∈ items ∧ Q c) →
  ∀ c, c ∈ rest → c ∈ updateBy key g (key x) items ∧ Q c.
Proof.
  intros Hnd Hall c Hc.
  destruct (Hall c) as [Hin HQ]; [by right|]. split; [|done].
  apply (updateBy_elem key g (key x)) in Hin.
  rewrite bool_decide_eq_false_2 in Hin; [done|].
  rewrite fmap_cons in Hnd. apply NoDup_cons_1_1 in Hnd.
  intros Heq. apply Hnd. rewrite <- Heq. by apply list_elem_of_fmap_2.
Qed.

Lemma Inv_postCoinTweets tweet now selected db :
  Inv client db → NoDup (Coin.id <$> selected) →
  (∀ c, c ∈ selected → c ∈ coins db ∧ Coin.isPosted c = false) →
  Inv client (TweetService.postCoinTweets tweet now selected db).
Proof.
  revert db. induction selected as [|coin rest IH]; intros db Hinv Hnd Hall;
    simpl; [done|].
  assert (NoDup (Coin.id <$> rest)) as Hnd'
    by (rewrite fmap_cons in Hnd; by apply NoDup_cons_1_2 in Hnd).
  assert (∀ c, c ∈ rest → c ∈ coins db ∧ Coin.isPosted c = false) as Hall'
    by (intros c Hc; apply Hall; by right).
  destruct (Hall coin) as [Hin Hflag]; [by left|].
  destruct (answer (tweet coin)) as [tweetId|]; [|by apply IH].
  destruct (Js.truthy_str tweetId); [|by apply IH].
  destruct (Tweet.save _ (tweets db)) as [tweets1|] eqn:Hsave; [|by apply IH].
  apply Tweet_save_some in Hsave as ->.
  apply IH; [by apply Inv_post_coin_tweet|done|].
  simpl. by eapply (rest_still_unflagged Coin.id).
Qed.

Lemma Inv_postNewsTweets tweet now selected db :
  Inv client db → NoDup (News.id <$> selected) →
  (∀ n, n ∈ selected → n ∈ newsColl db ∧ News.isPosted n = false) →
  Inv client (TweetService.postNewsTweets tweet now selected db).
Proof.
  revert db. induction selected as [|item rest IH]; intros db Hinv Hnd Hall;
    simpl; [done|].
  assert (NoDup (News.id <$> rest)) as Hnd'
    by (rewrite fmap_cons in Hnd; by apply NoDup_cons_1_2 in Hnd).
  assert (∀ n, n ∈ rest → n ∈ newsColl db ∧ News.isPosted n = false) as Hall'
    by (intros c Hc; apply Hall; by right).
  destruct (Hall item) as [Hin Hflag]; [by left|].
  destruct (answer (tweet item)) as [tweetId|]; [|by apply IH].
  destruct (Js.truthy_str tweetId); [|by apply IH].
  destruct (Tweet.save _ (tweets db)) as [tweets1|] eqn:Hsave; [|by apply IH].
  apply Tweet_save_some in Hsave as ->.
  apply IH; [by apply Inv_post_news_tweet|done|].
  simpl. by eapply (rest_still_unflagged News.id).
Qed.

Lemma Inv_postCoinMessages message now selected db :
  Inv client db → NoDup (Coin.id <$> selected) →
  (∀ c, c ∈ selected → c ∈ coins db ∧ Coin.isTelegramPosted c = false) →
  Inv client (TelegramService.postCoinMessages client message now selected db).
Proof.
  revert db. induction selected as [|coin rest IH]; intros db Hinv Hnd Hall;
    simpl; [done|].
  assert (NoDup (Coin.id <$> rest)) as Hnd'
    by (rewrite fmap_cons in Hnd; by apply NoDup_cons_1_2 in Hnd).
  assert (∀ c, c ∈ rest → c ∈ coins db ∧ Coin.isTelegramPosted c = false)
    as Hall' by (intros c Hc; apply Hall; by right).
  destruct (Hall coin) as [Hin Hflag]; [by left|].
  destruct (TelegramService.sendMessage client _) as [messageId|] eqn:Hsend;
    [|by apply IH].
  apply sendMessage_some in Hsend.
  destruct (TelegramService.truthy_id messageId); [|by apply IH].
  destruct (TelegramMessage.save _ (telegramMessages db)) as [messages1|]
    eqn:Hsave; [|by apply IH].
  apply TelegramMessage_save_some in Hsave as ->.
  apply IH; [by apply Inv_post_coin_message|done|].
  simpl. by eapply (rest_still_unflagged Coin.id).
Qed.

Lemma Inv_postNewsMessages message now selected db :
  Inv client db → NoDup (News.id <$> selected) →
  (∀ n, n ∈ selected → n ∈ newsColl db ∧ News.isTelegramPosted n = false) →
  Inv client (TelegramService.postNewsMessages client message now selected db).
Proof.
  revert db. induction selected as [|item rest IH]; intros db Hinv Hnd Hall;
    simpl; [done|].
  assert (NoDup (News.id <$> rest)) as Hnd'
    by (rewrite fmap_cons in Hnd; by apply NoDup_cons_1_2 in Hnd).
  assert (∀ n, n ∈ rest → n ∈ newsColl db ∧ News.isTelegramPosted n = false)
    as Hall' by (intros c Hc; apply Hall; by right).
  destruct (Hall item) as [Hin Hflag]; [by left|].
  destruct (TelegramService.sendMessage client _) as [messageId|] eqn:Hsend;
    [|by apply IH].
  apply sendMessage_some in Hsend.
  destruct (TelegramService.truthy_id messageId); [|by apply IH].
  destruct (TelegramMessage.save _ (telegramMessages db)) as [messages1|]
    eqn:Hsave; [|by apply IH].
  apply TelegramMessage_save_some in Hsave as ->.
  apply IH; [by apply Inv_post_news_message|done|].
  simpl. by eapply (rest_still_unflagged News.id).
Qed.

Lemma Inv_processPendingTweets coinTweet newsTweet now db :
  Inv client db → Inv client (TweetService.processPendingTweets coinTweet newsTweet now db).
Proof.
  intros Hinv. unfold TweetService.processPendingTweets,
    TweetService.processNewsTweets, TweetService.processNewCoinTweets.
  set (db1 := TweetService.postCoinTweets _ _ _ db).
  assert (Inv client db1) as Hinv1.
  { apply Inv_postCoinTweets; [done| |].
    - apply pipeline_NoDup, Hinv.
    - intros c Hc. by apply pipeline_elem in Hc. }
  apply Inv_postNewsTweets; [done| |].
  - apply pipeline_NoDup, Hinv1.
  - intros n Hn. by apply pipeline_elem in Hn.
Qed.

Lemma Inv_processPendingMessages coinMessage newsMessage now db :
  Inv client db →
  Inv client (TelegramService.processPendingMessages client coinMessage newsMessage
         now db).
Proof.
  intros Hinv. unfold TelegramService.processPendingMessages,
    TelegramService.processNewsMessages,
    TelegramService.processNewCoinMessages.
  destruct (negb (enabled client)); [done|].
  set (db1 := TelegramService.postCoinMessages _ _ _ _ db).
  assert (Inv client db1) as Hinv1.
  { apply Inv_postCoinMessages; [done| |].
    - apply pipeline_NoDup, Hinv.
    - intros c Hc. by apply pipeline_elem in Hc. }
  apply Inv_postNewsMessages; [done| |].
  - apply pipeline_NoDup, Hinv1.
  - intros n Hn. by apply pipeline_elem in Hn.
Qed.

(** *** The group pass and the save steps keep the invariant *)

Lemma findOne_none_count newsId chat messages :
  TelegramMessage.findOne newsId chat messages = None →
  filter (messageIs chat (NewsRef newsId)) messages = [].
Proof.
  unfold TelegramMessage.findOne. intros Hnone.
  destruct (filter _ messages) as [|m ms] eqn:E; [done|].
  assert (m ∈ filter (messageIs chat (NewsRef newsId)) messages) as Hin
    by (rewrite E; by left).
  apply list_elem_of_filter in Hin as [(Hp & Hc & Hn) Hin].
  apply list_elem_of_In in Hin.
  pose proof (find_none _ _ Hnone m Hin) as Hf. simpl in Hf.
  by rewrite !bool_decide_eq_true_2, Hp in Hf.
Qed.

Lemma newsToPost_unposted db item :
  TelegramService.newsToPost client db = Some item →
  filter (messageIs (groupId client) (NewsRef (News.id item)))
    (telegramMessages db) = [].
Proof.
  unfold TelegramService.newsToPost. intros Hfind.
  apply find_some in Hfind as [_ Hneg].
  unfold TelegramService.isNewsPostedToDestination in Hneg.
  destruct (TelegramMessage.findOne _ _ _) eqn:E; [done|].
  by apply findOne_none_count.
Qed.

Lemma Inv_processGroupNews message now db :
  Inv client db → Inv client (TelegramService.processGroupNews client message now db).
Proof.
  intros Hinv. unfold TelegramService.processGroupNews.
  destruct (negb (Js.truthy_str (groupId client))); [done|].
  destruct (TelegramService.newsToPost client db) as [item|] eqn:Hsel; [|done].
  destruct (TelegramService.sendMessage client _) as [messageId|] eqn:Hsend;
    [|done].
  apply sendMessage_some in Hsend.
  destruct (TelegramService.truthy_id messageId); [|done].
  destruct (TelegramMessage.save _ (telegramMessages db)) as [messages1|]
    eqn:Hsave; [|done].
  apply TelegramMessage_save_some in Hsave as ->.
  apply newsToPost_unposted in Hsel.
  destruct Hinv. split; simpl; try done.
  - intros Hsep. pose proof (separateChats_distinct Hsend Hsep) as Hne.
    apply flagInv_other_fact; [by apply inv_ch_coin0|].
    intros i (_ & Hc & _). simpl in Hc. congruence.
  - intros Hsep. pose proof (separateChats_distinct Hsend Hsep) as Hne.
    apply flagInv_other_fact; [by apply inv_ch_news0|].
    intros i (_ & Hc & _). simpl in Hc. congruence.
  - intros Hsep i. rewrite filter_app, length_app, filter_cons, filter_nil.
    destruct (decide (messageIs _ _ _)) as [(_ & _ & Hi)|_].
    + simpl in Hi. injection Hi as <-. rewrite Hsel. simpl. lia.
    + specialize (inv_gr_news0 Hsep i). simpl. lia.
  - intros Hsep i. rewrite filter_snoc_none; [by apply inv_gr_coin0|].
    by intros (_ & _ & Hi).
Qed.

Lemma saveNewCoinsFrom_appends clock coinList coll n :
  ∃ added, (saveNewCoinsFrom clock coinList coll n).1 = coll ++ added
           ∧ (NoDup (Coin.id <$> coll) → NoDup (Coin.id <$> coll ++ added)).
Proof.
  revert coll n. induction coinList as [|d rest IH]; intros coll n; simpl.
  - exists []. by rewrite app_nil_r.
  - destruct (Coin.findOne _ _ coll); [apply IH|].
    destruct (Coin.save (Coin.new (clock d) d) coll) as [coll'|] eqn:Hsave;
      [|apply IH].
    apply Coin_save_some in Hsave as [-> Hfresh].
    destruct (IH (coll ++ [Coin.new (clock d) d]) (n + 1))
      as (added & -> & Hnd).
    exists (Coin.new (clock d) d :: added). split; [by rewrite <- app_assoc|].
    intros Hc.
    change (Coin.new (clock d) d :: added)
      with ([Coin.new (clock d) d] ++ added).
    rewrite app_assoc. apply Hnd.
    rewrite fmap_app. apply NoDup_app. split; [done|].
    split; [|apply NoDup_singleton].
    intros x Hx Hx'. apply list_elem_of_singleton in Hx'. by subst x.
Qed.

Lemma News_save_fresh n coll coll' :
  News.save n coll = Some coll' → News.id n ∉ News.id <$> coll.
Proof.
  unfold News.save.
  destruct (News.valid n); simpl; [|done].
  destruct (existsb _ coll) eqn:E; simpl; [done|].
  intros _ Hin. apply list_elem_of_fmap in Hin as (d & Hd & Hin).
  apply list_elem_of_In in Hin.
  assert (existsb (λ d, bool_decide (News.id d = News.id n)) coll = true)
    as Ht; [|congruence].
  apply existsb_exists. exists d. split; [done|]. by apply bool_decide_eq_true.
Qed.

Lemma saveNewsFrom_appends clock newsItems coll s k :
  ∃ added, (saveNewsFrom clock newsItems coll s k).1.1 = coll ++ added
           ∧ (NoDup (News.id <$> coll) → NoDup (News.id <$> coll ++ added)).
Proof.
  revert coll s k. induction newsItems as [|d rest IH]; intros coll s k; simpl.
  - exists []. by rewrite app_nil_r.
  - destruct (News.findOne _ coll); [apply IH|].
    destruct (News.save (News.new (clock d) d) coll) as [coll'|] eqn:Hsave;
      [|apply IH].
    pose proof (News_save_fresh _ _ _ Hsave) as Hfresh.
    apply News_save_some in Hsave as ->.
    destruct (IH (coll ++ [News.new (clock d) d]) (s + 1) k)
      as (added & -> & Hnd).
    exists (News.new (clock d) d :: added). split; [by rewrite <- app_assoc|].
    intros Hc.
    change (News.new (clock d) d :: added)
      with ([News.new (clock d) d] ++ added).
    rewrite app_assoc. apply Hnd.
    rewrite fmap_app. apply NoDup_app. split; [done|].
    split; [|apply NoDup_singleton].
    intros x Hx Hx'. apply list_elem_of_singleton in Hx'. by subst x.
Qed.

Lemma flagInv_appended {X F : Type} (key : X → string) (flag : X → bool)
    (about : string → F → Prop) `{!∀ i f, Decision (about i f)}
    items added facts :
  flagInv key flag about items facts →
  flagInv key flag about (items ++ added) facts.
Proof.
  intros Hinv. eapply flagInv_items; [exact Hinv|].
  intros x Hx Hf. exists x. split; [|done]. apply elem_of_app. by left.
Qed.

Lemma Inv_run a db : Inv client db → Inv client (run client a db).
Proof.
  intros Hinv.
  destruct a as [ct nt now|cm nm now|m now|clock coinList|clock newsItems];
    simpl.
  - by apply Inv_processPendingTweets.
  - by apply Inv_processPendingMessages.
  - by apply Inv_processGroupNews.
  - destruct (saveNewCoinsFrom_appends clock coinList (coins db) 0)
      as (added & Heq & Hnd).
    unfold saveNewCoins. rewrite Heq. destruct Hinv.
    split; simpl; try done; [by apply Hnd| |];
      try intros Hsep; apply flagInv_appended; auto.
  - destruct (saveNewsFrom_appends clock newsItems (newsColl db) 0 0)
      as (added & Heq & Hnd).
    unfold saveNews. rewrite Heq. destruct Hinv.
    split; simpl; try done; [by apply Hnd| |];
      try intros Hsep; apply flagInv_appended; auto.
Qed.

Lemma Inv_reachable db : reachable client db → Inv client db.
Proof. induction 1; [apply Inv_empty|by apply Inv_run]. Qed.

Lemma reachable_runAll actions db :
  reachable client db → reachable client (runAll client actions db).
Proof.
  revert db. induction actions as [|a actions IH]; intros db Hr; simpl; [done|].
  apply IH. by constructor.
Qed.

(** *** Flags are never cleared and facts are never removed *)

Lemma evolves_refl db : evolves db db.
Proof.
  repeat split; try (exists []; by rewrite app_nil_r).
  - intros c Hc. exists c. by repeat split.
  - intros n Hn. exists n. by repeat split.
Qed.

Lemma evolves_trans db1 db2 db3 :
  evolves db1 db2 → evolves db2 db3 → evolves db1 db3.
Proof.
  intros (Hc1 & Hn1 & [t1 Ht1] & [m1 Hm1]) (Hc2 & Hn2 & [t2 Ht2] & [m2 Hm2]).
  repeat split.
  - intros c Hc. destruct (Hc1 c Hc) as (c' & Hc' & E1 & P1 & T1).
    destruct (Hc2 c' Hc') as (c'' & Hc'' & E2 & P2 & T2).
    exists c''. repeat split; [done|congruence|auto|auto].
  - intros n Hn. destruct (Hn1 n Hn) as (n' & Hn' & E1 & P1 & T1).
    destruct (Hn2 n' Hn') as (n'' & Hn'' & E2 & P2 & T2).
    exists n''. repeat split; [done|congruence|auto|auto].
  - exists (t1 ++ t2). by rewrite Ht2, Ht1, app_assoc.
  - exists (m1 ++ m2). by rewrite Hm2, Hm1, app_assoc.
Qed.

Lemma evolves_coin_update g k db tweets1 messages1 :
  (∀ c, coinEvolves c (g c)) →
  (∃ extra, tweets1 = tweets db ++ extra) →
  (∃ extra, messages1 = telegramMessages db ++ extra) →
  evolves db {| coins := Coin.update g k (coins db);
                newsColl := newsColl db;
                tweets := tweets1;
                telegramMessages := messages1 |}.
Proof.
  intros Hg Ht Hm. repeat split; simpl; try done.
  - intros c Hc. eexists. split; [by apply (updateBy_elem Coin.id g k)|].
    case_bool_decide; [apply Hg|by repeat split].
  - intros n Hn. exists n. by repeat split.
Qed.

Lemma evolves_news_update g k db tweets1 messages1 :
  (∀ n, newsEvolves n (g n)) →
  (∃ extra, tweets1 = tweets db ++ extra) →
  (∃ extra, messages1 = telegramMessages db ++ extra) →
  evolves db {| coins := coins db;
                newsColl := News.update g k (newsColl db);
                tweets := tweets1;
                telegramMessages := messages1 |}.
Proof.
  intros Hg Ht Hm. repeat split; simpl; try done.
  - intros c Hc. exists c. by repeat split.
  - intros n Hn. eexists. split; [by apply (updateBy_elem News.id g k)|].
    case_bool_decide; [apply Hg|by repeat split].
Qed.

Lemma app_nil_extra {A : Type} (l : list A) : ∃ extra, l = l ++ extra.
Proof. exists []. by rewrite app_nil_r. Qed.

Lemma evolves_postCoinTweets tweet now selected db :
  evolves db (TweetService.postCoinTweets tweet now selected db).
Proof.
  revert db. induction selected as [|coin rest IH]; intros db; simpl;
    [apply evolves_refl|].
  destruct (answer (tweet coin)) as [tweetId|]; [|apply IH].
  destruct (Js.truthy_str tweetId); [|apply IH].
  destruct (Tweet.save _ (tweets db)) as [tweets1|] eqn:Hsave; [|apply IH].
  apply Tweet_save_some in Hsave as ->.
  eapply evolves_trans; [|apply IH].
  apply evolves_coin_update; [by repeat split|by eexists|apply app_nil_extra].
Qed.

Lemma evolves_postNewsTweets tweet now selected db :
  evolves db (TweetService.postNewsTweets tweet now selected db).
Proof.
  revert db. induction selected as [|item rest IH]; intros db; simpl;
    [apply evolves_refl|].
  destruct (answer (tweet item)) as [tweetId|]; [|apply IH].
  destruct (Js.truthy_str tweetId); [|apply IH].
  destruct (Tweet.save _ (tweets db)) as [tweets1|] eqn:Hsave; [|apply IH].
  apply Tweet_save_some in Hsave as ->.
  eapply evolves_trans; [|apply IH].
  apply evolves_news_update; [by repeat split|by eexists|apply app_nil_extra].
Qed.

Lemma evolves_postCoinMessages message now selected db :
  evolves db (TelegramService.postCoinMessages client message now selected db).
Proof.
  revert db. induction selected as [|coin rest IH]; intros db; simpl;
    [apply evolves_refl|].
  destruct (TelegramService.sendMessage client _) as [messageId|]; [|apply IH].
  destruct (TelegramService.truthy_id messageId); [|apply IH].
  destruct (TelegramMessage.save _ (telegramMessages db)) as [messages1|]
    eqn:Hsave; [|apply IH].
  apply TelegramMessage_save_some in Hsave as ->.
  eapply evolves_trans; [|apply IH].
  apply evolves_coin_update; [by repeat split|apply app_nil_extra|by eexists].
Qed.

Lemma evolves_postNewsMessages message now selected db :
  evolves db (TelegramService.postNewsMessages client message now selected db).
Proof.
  revert db. induction selected as [|item rest IH]; intros db; simpl;
    [apply evolves_refl|].
  destruct (TelegramService.sendMessage client _) as [messageId|]; [|apply IH].
  destruct (TelegramService.truthy_id messageId); [|apply IH].
  destruct (TelegramMessage.save _ (telegramMessages db)) as [messages1|]
    eqn:Hsave; [|apply IH].
  apply TelegramMessage_save_some in Hsave as ->.
  eapply evolves_trans; [|apply IH].
  apply evolves_news_update; [by repeat split|apply app_nil_extra|by eexists].
Qed.

Lemma evolves_run a db : evolves db (run client a db).
Proof.
  destruct a as [ct nt now|cm nm now|m now|clock coinList|clock newsItems];
    simpl.
  - eapply evolves_trans; [apply evolves_postCoinTweets|].
    apply evolves_postNewsTweets.
  - unfold TelegramService.processPendingMessages.
    destruct (negb (enabled client)); [apply evolves_refl|].
    eapply evolves_trans; [apply evolves_postCoinMessages|].
    apply evolves_postNewsMessages.
  - unfold TelegramService.processGroupNews.
    destruct (negb (Js.truthy_str (groupId client))); [apply evolves_refl|].
    destruct (TelegramService.newsToPost client db) as [item|];
      [|apply evolves_refl].
    destruct (TelegramService.sendMessage client _) as [messageId|];
      [|apply evolves_refl].
    destruct (TelegramService.truthy_id messageId); [|apply evolves_refl].
    destruct (TelegramMessage.save _ (telegramMessages db)) as [messages1|]
      eqn:Hsave; [|apply evolves_refl].
    apply TelegramMessage_save_some in Hsave as ->.
    repeat split; simpl; try apply app_nil_extra; [| |by eexists].
    + intros c Hc. exists c. by repeat split.
    + intros n Hn. exists n. by repeat split.
  - destruct (saveNewCoinsFrom_appends clock coinList (coins db) 0)
      as (added & Heq & _).
    unfold saveNewCoins. rewrite Heq.
    repeat split; simpl; try apply app_nil_extra.
    + intros c Hc. exists c. split; [apply elem_of_app; by left|].
      by repeat split.
    + intros n Hn. exists n. by repeat split.
  - destruct (saveNewsFrom_appends clock newsItems (newsColl db) 0 0)
      as (added & Heq & _).
    unfold saveNews. rewrite Heq.
    repeat split; simpl; try apply app_nil_extra.
    + intros c Hc. exists c. by repeat split.
    + intros n Hn. exists n. split; [apply elem_of_app; by left|].
      by repeat split.
Qed.

Lemma evolves_runAll actions db : evolves db (runAll client actions db).
Proof.
  revert db. induction actions as [|a actions IH]; intros db; simpl;
    [apply evolves_refl|].
  eapply evolves_trans; [apply evolves_run|apply IH].
Qed.

(** *** At most one publication per item and destination *)

Lemma find_app_some {A : Type} (p : A → bool) l extra x :
  List.find p l = Some x → List.find p (l ++ extra) = Some x.
Proof.
  induction l as [|y l IH]; simpl; [done|]. by destruct (p y).
Qed.

Lemma posted_evolves db db' item dest :
  evolves db db' → posted client db item dest → posted client db' item dest.
Proof.
  intros (Hc & Hn & _ & [extra Hm]).
  destruct dest, item as [i|i]; simpl; try done.
  - intros (c & Hin & <- & Hf). destruct (Hc c Hin) as (c' & ? & ? & P & _).
    exists c'. auto.
  - intros (n & Hin & <- & Hf). destruct (Hn n Hin) as (n' & ? & ? & P & _).
    exists n'. auto.
  - intros (c & Hin & <- & Hf). destruct (Hc c Hin) as (c' & ? & ? & _ & T).
    exists c'. auto.
  - intros (n & Hin & <- & Hf). destruct (Hn n Hin) as (n' & ? & ? & _ & T).
    exists n'. auto.
  - unfold TelegramService.isNewsPostedToDestination. rewrite Hm.
    unfold TelegramMessage.findOne.
    destruct (List.find _ (telegramMessages db)) as [m|] eqn:E; [|done].
    by rewrite (find_app_some _ _ extra _ E).
Qed.

Lemma publicationCount_evolves db db' item dest :
  evolves db db' →
  (publicationCount client db item dest
   ≤ publicationCount client db' item dest)%nat.
Proof.
  intros (_ & _ & [t Ht] & [m Hm]).
  destruct dest; simpl; rewrite ?Ht, ?Hm, filter_app, length_app; lia.
Qed.

Lemma telegram_separate dest :
  dest = Twitter ∨ separateChats client → dest ≠ Twitter →
  separateChats client.
Proof. by intros [->|?]. Qed.

Lemma publicationCount_le_1 db item dest :
  Inv client db → dest = Twitter ∨ separateChats client →
  (publicationCount client db item dest ≤ 1)%nat.
Proof.
  intros [] Hd. destruct dest, item as [i|i]; simpl;
    try (apply telegram_separate in Hd; [|done]).
  - apply inv_tw_coin0.
  - apply inv_tw_news0.
  - by apply inv_ch_coin0.
  - by apply inv_ch_news0.
  - rewrite inv_gr_coin0 by done. simpl. lia.
  - by apply inv_gr_news0.
Qed.

Lemma same_key_same_item {X : Type} (key : X → string) (l : list X) x y :
  NoDup (key <$> l) → x ∈ l → y ∈ l → key x = key y → x = y.
Proof.
  intros Hnd Hx Hy Hk.
  apply list_elem_of_lookup in Hx as [i Hi], Hy as [j Hj].
  assert (i = j) as ->; [|congruence].
  eapply NoDup_lookup; [exact Hnd| |].
  - by rewrite list_lookup_fmap, Hi.
  - rewrite list_lookup_fmap, Hj. simpl. by rewrite Hk.
Qed.

Lemma posted_not_selected db item dest :
  Inv client db → posted client db item dest → item ∉ selection client db dest.
Proof.
  intros Hinv Hposted Hsel. destruct dest; simpl in Hsel.
  - apply elem_of_app in Hsel as [Hsel|Hsel];
      apply list_elem_of_fmap in Hsel as (x & -> & Hx);
      apply pipeline_elem in Hx as [Hx Hflag]; simpl in Hposted;
      destruct Hposted as (y & Hy & Hk & Hf).
    + assert (y = x) as -> by
        (eapply (same_key_same_item Coin.id); [apply Hinv|done..]).
      congruence.
    + assert (y = x) as -> by
        (eapply (same_key_same_item News.id); [apply Hinv|done..]).
      congruence.
  - apply elem_of_app in Hsel as [Hsel|Hsel];
      apply list_elem_of_fmap in Hsel as (x & -> & Hx);
      apply pipeline_elem in Hx as [Hx Hflag]; simpl in Hposted;
      destruct Hposted as (y & Hy & Hk & Hf).
    + assert (y = x) as -> by
        (eapply (same_key_same_item Coin.id); [apply Hinv|done..]).
      congruence.
    + assert (y = x) as -> by
        (eapply (same_key_same_item News.id); [apply Hinv|done..]).
      congruence.
  - destruct (TelegramService.newsToPost client db) as [n|] eqn:E;
      [|by apply elem_of_nil in Hsel].
    apply list_elem_of_singleton in Hsel as ->. simpl in Hposted.
    apply find_some in E as [_ Hneg]. by rewrite Hposted in Hneg.
Qed.

Lemma recorded_is_posted db item dest :
  Inv client db → dest = Twitter ∨ separateChats client →
  (1 ≤ publicationCount client db item dest)%nat →
  posted client db item dest.
Proof.
  intros Hinv Hd Hcount.
  assert (∀ {F : Type} (P : F → Prop) `{!∀ x, Decision (P x)} (l : list F),
            (1 ≤ length (filter P l))%nat → ∃ f, f ∈ l ∧ P f) as Hex.
  { intros F P ? l Hl. destruct (filter P l) as [|f fs] eqn:E; [simpl in Hl; lia|].
    assert (f ∈ filter P l) as Hin by (rewrite E; by left).
    apply list_elem_of_filter in Hin as [? ?]. by exists f. }
  destruct Hinv. destruct dest, item as [i|i]; simpl in *;
    try (apply telegram_separate in Hd; [|done]).
  - apply Hex in Hcount as (f & Hin & Hf). by eapply (proj1 inv_tw_coin0).
  - apply Hex in Hcount as (f & Hin & Hf). by eapply (proj1 inv_tw_news0).
  - apply Hex in Hcount as (f & Hin & Hf).
    by eapply (proj1 (inv_ch_coin0 Hd)).
  - apply Hex in Hcount as (f & Hin & Hf).
    by eapply (proj1 (inv_ch_news0 Hd)).
  - rewrite inv_gr_coin0 in Hcount by done. simpl in Hcount. lia.
  - apply Hex in Hcount as (f & Hin & (Hp & Hc & Hn)).
    unfold TelegramService.isNewsPostedToDestination, TelegramMessage.findOne.
    destruct (List.find _ (telegramMessages db)) eqn:E; [done|].
    apply list_elem_of_In in Hin.
    pose proof (find_none _ _ E f Hin) as Hnone. simpl in Hnone.
    by rewrite !bool_decide_eq_true_2, Hp in Hnone.
Qed.

(** C1, as the code has it.  Take a state reached from the empty database
    by cycles run one after the other, and any further cycles.  For Twitter,
    and for the Telegram channel and the Telegram group of a client that
    keeps the two apart (two different chats, or a client switched off):
    an item has at most one publication fact for the destination; an item
    with a recorded publication keeps exactly that one; and a recorded
    publication means the posted state is set.  For every destination and
    every client, an item whose posted state for the destination is set is
    not selected for it again. *)
Theorem at_most_one_publication db actions item dest :
  reachable client db →
  let db' := runAll client actions db in
  (posted client db item dest → item ∉ selection client db' dest)
  ∧ (dest = Twitter ∨ separateChats client →
     (publicationCount client db' item dest ≤ 1)%nat
     ∧ (publicationCount client db item dest = 1%nat →
        publicationCount client db' item dest = 1%nat)
     ∧ ((1 ≤ publicationCount client db item dest)%nat →
        posted client db item dest)).
Proof.
  intros Hreach db'.
  assert (Inv client db) as Hinv by by apply Inv_reachable.
  assert (Inv client db') as Hinv' by by apply Inv_reachable, reachable_runAll.
  pose proof (evolves_runAll actions db) as Hev. fold db' in Hev.
  split.
  - intros Hp. apply posted_not_selected; [done|]. by eapply posted_evolves.
  - intros Hd. split; [by apply publicationCount_le_1|]. split.
    + intros H1. pose proof (publicationCount_evolves db db' item dest Hev).
      pose proof (publicationCount_le_1 db' item dest Hinv' Hd). lia.
    + by apply recorded_is_posted.
Qed.

(** *** Publishing to one destination leaves the others alone *)

Lemma fmap_updateBy {X B : Type} (key : X → string) (f : X → B) g k l :
  (∀ x, f (g x) = f x) → f <$> updateBy key g k l = f <$> l.
Proof.
  intros Hf. unfold updateBy. rewrite <- list_fmap_compose.
  apply list_fmap_ext. intros i x _. simpl. case_bool_decide; [apply Hf|done].
Qed.

Lemma fmap_eq_Forall2 {X B : Type} (f : X → B) l l' :
  f <$> l = f <$> l' → Forall2 (λ x y, f x = f y) l l'.
Proof.
  revert l'. induction l as [|x l IH]; intros [|y l']; simpl; try done.
  intros [= ? ?]. constructor; [done|by apply IH].
Qed.

Lemma Forall2_fmap_eq {X B : Type} (R : X → X → Prop) (f : X → B) l l' :
  (∀ x y, R x y → f x = f y) → Forall2 R l l' → f <$> l = f <$> l'.
Proof.
  intros Hf. induction 1 as [|x y l l' Hxy _ IH]; [done|].
  rewrite !fmap_cons. f_equal; [by apply Hf|done].
Qed.

Lemma find_rel {X : Type} (R : X → X → Prop) (p p' : X → bool) l l' :
  (∀ x y, R x y → p x = p' y) → Forall2 R l l' →
  option_Forall2 R (List.find p l) (List.find p' l').
Proof.
  intros Hp. induction 1 as [|x y l l' Hxy _ IH]; simpl; [constructor|].
  rewrite <- (Hp x y Hxy). destruct (p x); [by constructor|done].
Qed.

Lemma find_app_none {X : Type} (p : X → bool) l extra :
  Forall (λ x, p x = false) extra → List.find p (l ++ extra) = List.find p l.
Proof.
  intros Hex. induction l as [|y l IH]; simpl.
  - induction Hex as [|x extra Hx _ IH]; simpl; [done|]. by rewrite Hx.
  - by destruct (p y).
Qed.

Lemma selection_twitter_same db db' :
  coinP <$> coins db' = coinP <$> coins db →
  newsP <$> newsColl db' = newsP <$> newsColl db →
  selection client db' Twitter = selection client db Twitter.
Proof.
  intros Hc Hn. simpl. f_equal.
  - unfold TweetService.unpostedCoins.
    apply (Forall2_fmap_eq (λ x y, coinP x = coinP y));
      [by intros x y [= ? ?]; simpl; unfold Coin.id; congruence|].
    apply Forall2_pipeline; [..|by apply fmap_eq_Forall2].
    + intros x y [= ? ?]. by split; congruence.
    + intros x y [= ? ?]. unfold Coin.launchTime. congruence.
  - unfold TweetService.unpostedNews.
    apply (Forall2_fmap_eq (λ x y, newsP x = newsP y));
      [by intros x y [= ? ?]; simpl; unfold News.id; congruence|].
    apply Forall2_pipeline; [..|by apply fmap_eq_Forall2].
    + intros x y [= ? ?]. by split; congruence.
    + intros x y [= ? ?]. unfold News.publishedAt. congruence.
Qed.

Lemma selection_channel_same db db' :
  coinT <$> coins db' = coinT <$> coins db →
  newsT <$> newsColl db' = newsT <$> newsColl db →
  selection client db' TelegramChannel = selection client db TelegramChannel.
Proof.
  intros Hc Hn. simpl. f_equal.
  - unfold TelegramService.unpostedCoins.
    apply (Forall2_fmap_eq (λ x y, coinT x = coinT y));
      [by intros x y [= ? ?]; simpl; unfold Coin.id; congruence|].
    apply Forall2_pipeline; [..|by apply fmap_eq_Forall2].
    + intros x y [= ? ?]. by split; congruence.
    + intros x y [= ? ?]. unfold Coin.launchTime. congruence.
  - unfold TelegramService.unpostedNews.
    apply (Forall2_fmap_eq (λ x y, newsT x = newsT y));
      [by intros x y [= ? ?]; simpl; unfold News.id; congruence|].
    apply Forall2_pipeline; [..|by apply fmap_eq_Forall2].
    + intros x y [= ? ?]. by split; congruence.
    + intros x y [= ? ?]. unfold News.publishedAt. congruence.
Qed.

Lemma selection_group_same db db' :
  News.doc <$> newsColl db' = News.doc <$> newsColl db →
  (∀ i, TelegramService.isNewsPostedToDestination i (groupId client) db'
        = TelegramService.isNewsPostedToDestination i (groupId client) db) →
  selection client db' TelegramGroup = selection client db TelegramGroup.
Proof.
  intros Hn Hposted. simpl. unfold TelegramService.newsToPost.
  assert (Forall2 (λ x y, News.doc x = News.doc y)
            (TelegramService.allNews db') (TelegramService.allNews db)) as Hall.
  { unfold TelegramService.allNews.
    apply Forall2_pipeline; [..|by apply fmap_eq_Forall2].
    - intros x y Hd. by rewrite Hd.
    - intros x y Hd. unfold News.publishedAt. by rewrite Hd. }
  destruct (find_rel (λ x y, News.doc x = News.doc y)
    (λ n, negb (TelegramService.isNewsPostedToDestination
                  (News.id n) (groupId client) db'))
    (λ n, negb (TelegramService.isNewsPostedToDestination
                  (News.id n) (groupId client) db))
    (TelegramService.allNews db') (TelegramService.allNews db))
    as [x y Hd|]; [|done| |done].
  - intros x y Hd. rewrite Hposted. unfold News.id. by rewrite Hd.
  - unfold News.id. by rewrite Hd.
Qed.

Lemma Forall2_refl {X : Type} (R : X → X → Prop) (l : list X) :
  (∀ x, R x x) → Forall2 R l l.
Proof. intros HR. induction l; by constructor. Qed.

Lemma Forall2_updateBy {X : Type} (R : X → X → Prop) (key : X → string)
    g k (l : list X) :
  (∀ x, R x x) → (∀ x, R x (g x)) → Forall2 R l (updateBy key g k l).
Proof.
  intros Hrefl Hg. induction l as [|x l IH]; simpl; constructor; [|done].
  case_bool_decide; [apply Hg|apply Hrefl].
Qed.

Lemma Forall2_compose {X : Type} (R : X → X → Prop) (l1 l2 l3 : list X) :
  (∀ x y z, R x y → R y z → R x z) →
  Forall2 R l1 l2 → Forall2 R l2 l3 → Forall2 R l1 l3.
Proof.
  intros HR H12. revert l3.
  induction H12 as [|x y l1 l2 Hxy _ IH]; intros l3 H23; [by inversion H23|].
  inversion H23 as [|y' z l2' l3' Hyz H23']; subst.
  constructor; [by eapply HR|by apply IH].
Qed.

Lemma coinTweeted_trans c1 c2 c3 :
  coinTweeted c1 c2 → coinTweeted c2 c3 → coinTweeted c1 c3.
Proof.
  intros [->|[s1 ->]] [->|[s2 ->]]; [by left|right; by eexists..].
Qed.

Lemma newsTweeted_trans n1 n2 n3 :
  newsTweeted n1 n2 → newsTweeted n2 n3 → newsTweeted n1 n3.
Proof.
  intros [->|[s1 ->]] [->|[s2 ->]]; [by left|right; by eexists..].
Qed.

Lemma coinMessaged_trans c1 c2 c3 :
  coinMessaged c1 c2 → coinMessaged c2 c3 → coinMessaged c1 c3.
Proof.
  intros [->|[s1 ->]] [->|[s2 ->]]; [by left|right; by eexists..].
Qed.

Lemma newsMessaged_trans n1 n2 n3 :
  newsMessaged n1 n2 → newsMessaged n2 n3 → newsMessaged n1 n3.
Proof.
  intros [->|[s1 ->]] [->|[s2 ->]]; [by left|right; by eexists..].
Qed.

Lemma twitterFrame_refl db : twitterFrame db db.
Proof.
  split; [apply Forall2_refl; by left|].
  split; [apply Forall2_refl; by left|].
  split; [apply app_nil_extra|done].
Qed.

Lemma twitterFrame_trans db1 db2 db3 :
  twitterFrame db1 db2 → twitterFrame db2 db3 → twitterFrame db1 db3.
Proof.
  intros (Hc1 & Hn1 & [e1 Ht1] & Hm1) (Hc2 & Hn2 & [e2 Ht2] & Hm2).
  split; [eapply Forall2_compose; [apply coinTweeted_trans|done..]|].
  split; [eapply Forall2_compose; [apply newsTweeted_trans|done..]|].
  split; [|congruence].
  exists (e1 ++ e2). by rewrite Ht2, Ht1, app_assoc.
Qed.

(** What the frames say of the fields that the selections read. *)
Lemma twitterFrame_fields db db' :
  twitterFrame db db' →
  coinT <$> coins db' = coinT <$> coins db
  ∧ newsT <$> newsColl db' = newsT <$> newsColl db
  ∧ telegramMessages db' = telegramMessages db.
Proof.
  intros (Hc & Hn & _ & Hm). split; [|split; [|done]].
  - symmetry. apply (Forall2_fmap_eq coinTweeted); [|done].
    by intros c c' [->|[stamp ->]].
  - symmetry. apply (Forall2_fmap_eq newsTweeted); [|done].
    by intros n n' [->|[stamp ->]].
Qed.

Lemma channelFrame_fields db db' :
  channelFrame client db db' →
  coinP <$> coins db' = coinP <$> coins db
  ∧ newsP <$> newsColl db' = newsP <$> newsColl db
  ∧ tweets db' = tweets db
  ∧ ∃ extra,
      telegramMessages db' = telegramMessages db ++ extra
      ∧ Forall (λ m, TelegramMessage.chatId m = Some (channelId client)) extra.
Proof.
  intros (Hc & Hn & Ht & Hm). split; [|split; [|done]].
  - symmetry. apply (Forall2_fmap_eq coinMessaged); [|done].
    by intros c c' [->|[stamp ->]].
  - symmetry. apply (Forall2_fmap_eq newsMessaged); [|done].
    by intros n n' [->|[stamp ->]].
Qed.

Lemma twitterFrame_postCoinTweets tweet now selected db :
  twitterFrame db (TweetService.postCoinTweets tweet now selected db).
Proof.
  revert db. induction selected as [|coin rest IH]; intros db; simpl;
    [apply twitterFrame_refl|].
  destruct (answer (tweet coin)) as [tweetId|]; [|apply IH].
  destruct (Js.truthy_str tweetId); [|apply IH].
  destruct (Tweet.save _ (tweets db)) as [tweets1|] eqn:Hsave; [|apply IH].
  apply Tweet_save_some in Hsave as ->.
  eapply twitterFrame_trans; [|apply IH].
  split; simpl.
  { apply (Forall2_updateBy coinTweeted Coin.id); [by left|].
    intros c. right. by eexists. }
  split; [apply Forall2_refl; by left|]. split; [by eexists|done].
Qed.

Lemma twitterFrame_postNewsTweets tweet now selected db :
  twitterFrame db (TweetService.postNewsTweets tweet now selected db).
Proof.
  revert db. induction selected as [|item rest IH]; intros db; simpl;
    [apply twitterFrame_refl|].
  destruct (answer (tweet item)) as [tweetId|]; [|apply IH].
  destruct (Js.truthy_str tweetId); [|apply IH].
  destruct (Tweet.save _ (tweets db)) as [tweets1|] eqn:Hsave; [|apply IH].
  apply Tweet_save_some in Hsave as ->.
  eapply twitterFrame_trans; [|apply IH].
  split; simpl; [apply Forall2_refl; by left|].
  split; [|split; [by eexists|done]].
  apply (Forall2_updateBy newsTweeted News.id); [by left|].
  intros n. right. by eexists.
Qed.

Lemma channelFrame_refl db : channelFrame client db db.
Proof.
  split; [apply Forall2_refl; by left|].
  split; [apply Forall2_refl; by left|]. split; [done|].
  exists []. split; [by rewrite app_nil_r|constructor].
Qed.

Lemma channelFrame_trans db1 db2 db3 :
  channelFrame client db1 db2 → channelFrame client db2 db3 →
  channelFrame client db1 db3.
Proof.
  intros (Hc1 & Hn1 & Ht1 & e1 & Hm1 & He1) (Hc2 & Hn2 & Ht2 & e2 & Hm2 & He2).
  split; [eapply Forall2_compose; [apply coinMessaged_trans|done..]|].
  split; [eapply Forall2_compose; [apply newsMessaged_trans|done..]|].
  split; [congruence|].
  exists (e1 ++ e2). split; [by rewrite Hm2, Hm1, app_assoc|].
  by apply Forall_app.
Qed.

Lemma channelFrame_postCoinMessages message now selected db :
  channelFrame client db
    (TelegramService.postCoinMessages client message now selected db).
Proof.
  revert db. induction selected as [|coin rest IH]; intros db; simpl;
    [apply channelFrame_refl|].
  destruct (TelegramService.sendMessage client _) as [messageId|]; [|apply IH].
  destruct (TelegramService.truthy_id messageId); [|apply IH].
  destruct (TelegramMessage.save _ (telegramMessages db)) as [messages1|]
    eqn:Hsave; [|apply IH].
  apply TelegramMessage_save_some in Hsave as ->.
  eapply channelFrame_trans; [|apply IH].
  split; simpl.
  { apply (Forall2_updateBy coinMessaged Coin.id); [by left|].
    intros c. right. by eexists. }
  split; [apply Forall2_refl; by left|]. split; [done|].
  eexists. split; [done|]. by repeat constructor.
Qed.

Lemma channelFrame_postNewsMessages message now selected db :
  channelFrame client db
    (TelegramService.postNewsMessages client message now selected db).
Proof.
  revert db. induction selected as [|item rest IH]; intros db; simpl;
    [apply channelFrame_refl|].
  destruct (TelegramService.sendMessage client _) as [messageId|]; [|apply IH].
  destruct (TelegramService.truthy_id messageId); [|apply IH].
  destruct (TelegramMessage.save _ (telegramMessages db)) as [messages1|]
    eqn:Hsave; [|apply IH].
  apply TelegramMessage_save_some in Hsave as ->.
  eapply channelFrame_trans; [|apply IH].
  split; simpl; [apply Forall2_refl; by left|].
  split; [|split; [done|]].
  { apply (Forall2_updateBy newsMessaged News.id); [by left|].
    intros n. right. by eexists. }
  eexists. split; [done|]. by repeat constructor.
Qed.

Lemma twitterFrame_processPendingTweets coinTweet newsTweet now db :
  twitterFrame db (TweetService.processPendingTweets coinTweet newsTweet now db).
Proof.
  unfold TweetService.processPendingTweets, TweetService.processNewsTweets,
    TweetService.processNewCoinTweets.
  eapply twitterFrame_trans; [apply twitterFrame_postCoinTweets|].
  apply twitterFrame_postNewsTweets.
Qed.

Lemma channelFrame_processPendingMessages coinMessage newsMessage now db :
  channelFrame client db
    (TelegramService.processPendingMessages client coinMessage newsMessage
       now db).
Proof.
  unfold TelegramService.processPendingMessages,
    TelegramService.processNewsMessages,
    TelegramService.processNewCoinMessages.
  destruct (negb (enabled client)); [apply channelFrame_refl|].
  eapply channelFrame_trans; [apply channelFrame_postCoinMessages|].
  apply channelFrame_postNewsMessages.
Qed.

Lemma groupFrame_processGroupNews message now db :
  groupFrame client db (TelegramService.processGroupNews client message now db).
Proof.
  assert (groupFrame client db db) as Hrefl.
  { repeat split. exists []. rewrite app_nil_r. repeat split; [constructor|].
    simpl. lia. }
  unfold TelegramService.processGroupNews.
  destruct (negb (Js.truthy_str (groupId client))); [done|].
  destruct (TelegramService.newsToPost client db) as [item|]; [|done].
  destruct (TelegramService.sendMessage client _) as [messageId|]; [|done].
  destruct (TelegramService.truthy_id messageId); [|done].
  destruct (TelegramMessage.save _ (telegramMessages db)) as [messages1|]
    eqn:Hsave; [|done].
  apply TelegramMessage_save_some in Hsave as ->.
  repeat split; simpl. eexists. split; [done|].
  split; [by repeat constructor|]. simpl. lia.
Qed.

Lemma group_posted_unchanged db db' extra :
  channelId client ≠ groupId client →
  telegramMessages db' = telegramMessages db ++ extra →
  Forall (λ m, TelegramMessage.chatId m = Some (channelId client)) extra →
  ∀ i, TelegramService.isNewsPostedToDestination i (groupId client) db'
       = TelegramService.isNewsPostedToDestination i (groupId client) db.
Proof.
  intros Hne Hm Hextra i.
  unfold TelegramService.isNewsPostedToDestination, TelegramMessage.findOne.
  rewrite Hm, find_app_none; [done|].
  eapply Forall_impl; [exact Hextra|]. intros m Hc. simpl.
  rewrite (bool_decide_eq_false_2 (TelegramMessage.chatId m = Some (groupId client)));
    [by rewrite andb_false_r|].
  rewrite Hc. intros [= ?]. by apply Hne.
Qed.

(** C2, as the code has it.  A Twitter pass leaves every stored item as it
    was or saves it with [isPosted] set, which rewrites its [updatedAt] and
    nothing else, and adds tweet records; a channel pass does the same with
    [isTelegramPosted], and adds message records under the channel's chat
    id; a group pass adds at most one message record, under the group's
    chat id, and touches no item.  Hence the selection for a destination is
    the same before and after a pass for another destination, with one
    condition: the selection for the group is the same after a channel
    pass where the client keeps channel and group apart. *)
Theorem publishing_is_framed coinTweet newsTweet coinMessage newsMessage
    groupMessage now db :
  let afterTweets :=
    TweetService.processPendingTweets coinTweet newsTweet now db in
  let afterChannel :=
    TelegramService.processPendingMessages client coinMessage newsMessage
      now db in
  let afterGroup :=
    TelegramService.processGroupNews client groupMessage now db in
  twitterFrame db afterTweets
  ∧ channelFrame client db afterChannel
  ∧ groupFrame client db afterGroup
  ∧ (∀ dest, dest ≠ Twitter →
       selection client afterTweets dest = selection client db dest)
  ∧ selection client afterChannel Twitter = selection client db Twitter
  ∧ (separateChats client →
     selection client afterChannel TelegramGroup
     = selection client db TelegramGroup)
  ∧ (∀ dest, dest ≠ TelegramGroup →
       selection client afterGroup dest = selection client db dest).
Proof.
  intros afterTweets afterChannel afterGroup.
  pose proof (twitterFrame_processPendingTweets coinTweet newsTweet now db)
    as Htw.
  pose proof (channelFrame_processPendingMessages coinMessage newsMessage now db)
    as Hch.
  pose proof (groupFrame_processGroupNews groupMessage now db) as Hgr.
  fold afterTweets in Htw. fold afterChannel in Hch. fold afterGroup in Hgr.
  split; [done|]. split; [done|]. split; [done|].
  apply twitterFrame_fields in Htw as (Hc1 & Hn1 & Hm1).
  apply channelFrame_fields in Hch as (Hc2 & Hn2 & Ht2 & e2 & Hm2 & He2).
  destruct Hgr as (Hc3 & Hn3 & Ht3 & e3 & Hm3 & He3 & _).
  split; [|split; [|split]].
  - intros [] Hne; [done| |].
    + by apply selection_channel_same.
    + apply selection_group_same.
      * apply (f_equal (fmap (fst ∘ fst))) in Hn1.
        by rewrite <- !list_fmap_compose in Hn1.
      * intros i. unfold TelegramService.isNewsPostedToDestination.
        by rewrite Hm1.
  - by apply selection_twitter_same.
  - intros [Hoff|Hne].
    + unfold afterChannel, TelegramService.processPendingMessages.
      by rewrite Hoff.
    + apply selection_group_same.
      * apply (f_equal (fmap (fst ∘ fst))) in Hn2.
        by rewrite <- !list_fmap_compose in Hn2.
      * by eapply group_posted_unchanged.
  - intros [] Hne; [| |done].
    + apply selection_twitter_same; congruence.
    + apply selection_channel_same; congruence.
Qed.

End Publication.

(** *** A concrete run *)

(** After a first Twitter pass the coin has one tweet; further passes for
    every destination leave it at one, record one group message for the
    story, and never select the coin for Twitter again. *)
Lemma at_most_one_publication_witness :
  publicationCount demoClient demoDb (CoinRef "0xabc1-7") Twitter = 1%nat
  ∧ publicationCount demoClient (runAll demoClient demoLater demoDb)
      (CoinRef "0xabc1-7") Twitter = 1%nat
  ∧ publicationCount demoClient (runAll demoClient demoLater demoDb)
      (NewsRef "n1") TelegramGroup = 1%nat
  ∧ CoinRef "0xabc1-7"
    ∉ selection demoClient (runAll demoClient demoLater demoDb) Twitter.
Proof.
  assert (reachable demoClient demoDb) as Hr
    by apply reachable_runAll, reachable_runAll, reachable_empty.
  destruct (at_most_one_publication demoClient demoDb demoLater
              (CoinRef "0xabc1-7") Twitter Hr) as (Hsel & Hown).
  destruct (Hown (or_introl eq_refl)) as (_ & Hkeep & Hposted).
  assert (publicationCount demoClient demoDb (CoinRef "0xabc1-7") Twitter
          = 1%nat) as Hc by (vm_compute; reflexivity).
  split; [exact Hc|]. split; [by apply Hkeep|].
  split; [vm_compute; reflexivity|].
  apply Hsel, Hposted. rewrite Hc. lia.
Defined.

(** A client as its constructor builds it keeps channel and group apart
    unless one chat is configured for both: without a channel it is
    switched off. *)
Lemma newTelegramClient_separate env :
  TELEGRAM_CHANNEL_ID env ≠ TELEGRAM_GROUP_ID env
  ∨ TELEGRAM_CHANNEL_ID env = None ∨ TELEGRAM_CHANNEL_ID env = Some "" →
  separateChats (newTelegramClient env).
Proof.
  unfold separateChats, newTelegramClient. simpl.
  destruct (bool_decide (TELEGRAM_ENABLED env = Some "true")); simpl;
    [|by left].
  destruct (Js.truthy_str (default "" (TELEGRAM_BOT_TOKEN env))); simpl;
    [|by left].
  destruct (TELEGRAM_CHANNEL_ID env) as [[|c channel]|] eqn:Ec; simpl;
    try by left.
  intros [Hne|[?|?]]; [|done..]. right.
  destruct (TELEGRAM_GROUP_ID env) as [group|]; simpl; [|done].
  intros E. apply Hne. by rewrite E.
Qed.

(** C1 as stated fails for the two Telegram destinations of a client whose
    channel and group are one and the same chat: a group pass followed by a
    channel pass sends the same story to that chat twice, and both records
    count for either destination. *)
Lemma shared_chat_receives_story_twice :
  let db :=
    runAll sharedChatClient
      [RunSaveNews (λ _, 3100)
         [story "n1" "Sui upgrade ships" 2000 "sui" "NewsAPI"];
       RunGroupNews (messageOk 43) 6200;
       RunTelegram (messageOk 41) (messageOk 42) 6300]
      emptyDb in
  reachable sharedChatClient db
  ∧ publicationCount sharedChatClient db (NewsRef "n1") TelegramChannel
    = 2%nat
  ∧ publicationCount sharedChatClient db (NewsRef "n1") TelegramGroup
    = 2%nat.
Proof.
  split; [apply reachable_runAll, reachable_empty|].
  split; vm_compute; reflexivity.
Qed.

(** A Twitter pass and a channel pass on the saved items both publish, and
    leave the selections of the other destinations as they were. *)
Lemma publishing_is_framed_witness :
  let afterTweets :=
    TweetService.processPendingTweets (tweetOk "1900") (tweetOk "1901") 6000
      demoSaved in
  let afterChannel :=
    TelegramService.processPendingMessages demoClient
      (messageOk 41) (messageOk 42) 6000 demoSaved in
  length (tweets afterTweets) = 2%nat
  ∧ length (telegramMessages afterChannel) = 2%nat
  ∧ selection demoClient afterTweets TelegramChannel
    = selection demoClient demoSaved TelegramChannel
  ∧ selection demoClient afterChannel TelegramGroup
    = selection demoClient demoSaved TelegramGroup
  ∧ selection demoClient demoSaved TelegramGroup = [NewsRef "n1"].
Proof.
  assert (separateChats demoClient) as Hd by (by right).
  destruct (publishing_is_framed demoClient
              (tweetOk "1900") (tweetOk "1901") (messageOk 41) (messageOk 42)
              (messageOk 43) 6000 demoSaved) as (_ & _ & _ & Htw & _ & Hch & _).
  split; [vm_compute; reflexivity|].
  split; [vm_compute; reflexivity|].
  split; [by apply Htw|].
  split; [by apply Hch|].
  vm_compute; reflexivity.
Defined.

(** C2 as stated fails in two ways.  For a client whose channel and group
    are one and the same chat, publishing the story to the channel removes
    it from the selection for the group.  And for every client a pass that
    publishes an item rewrites, besides the flag, the [updatedAt] of the
    item. *)
Lemma shared_chat_channel_pass_changes_group_selection :
  let afterChannel :=
    TelegramService.processPendingMessages sharedChatClient
      (messageOk 41) (messageOk 42) 6000 demoSaved in
  let afterTweets :=
    TweetService.processPendingTweets (tweetOk "1900") (tweetOk "1901") 6000
      demoSaved in
  reachable sharedChatClient demoSaved
  ∧ selection sharedChatClient demoSaved TelegramGroup = [NewsRef "n1"]
  ∧ selection sharedChatClient afterChannel TelegramGroup = []
  ∧ Coin.updatedAt <$> coins demoSaved = [3000]
  ∧ Coin.updatedAt <$> coins afterTweets = [5020].
Proof.
  split.
  { exact (reachable_runAll sharedChatClient demoSaves emptyDb
             (reachable_empty _)). }
  repeat split; vm_compute; reflexivity.
Qed.

(** * Further properties of the reconciliation against the store *)

Lemma Coin_findOne_key address net coll :
  (address, net) ∈ coinKey <$> coll →
  is_Some (Coin.findOne address net coll).
Proof.
  unfold Coin.findOne, coinKey.
  induction coll as [|d coll IH]; simpl.
  - by intros ?%elem_of_nil.
  - intros [E|Hin]%elem_of_cons.
    + injection E as E1 E2. by rewrite !bool_decide_eq_true_2.
    + destruct (_ && _); [done|]. by apply IH.
Qed.

Lemma Coin_save_none_app c coll extra :
  Coin.save c coll = None → Coin.save c (coll ++ extra) = None.
Proof.
  unfold Coin.save. rewrite existsb_app.
  destruct (Coin.valid c); simpl; [|done].
  by destruct (existsb _ coll).
Qed.

Lemma Coin_save_none_clock now now' c coll :
  Coin.save (Coin.new now c) coll = None →
  Coin.save (Coin.new now' c) coll = None.
Proof.
  unfold Coin.save, Coin.valid, Coin.id. simpl. by destruct (_ && _).
Qed.

Lemma saveNewCoinsFrom_again clock clock' coinList coll n extra m :
  saveNewCoinsFrom clock' coinList
    ((saveNewCoinsFrom clock coinList coll n).1 ++ extra) m
  = ((saveNewCoinsFrom clock coinList coll n).1 ++ extra, m).
Proof.
  revert coll n extra m.
  induction coinList as [|c rest IH]; intros coll n extra m; simpl; [done|].
  assert (Hskip : ∀ coll0 n0,
    (∃ mid, (saveNewCoinsFrom clock rest coll0 n0).1 = coll ++ mid) →
    (is_Some (Coin.findOne (CoinData.contractAddress c)
                (CoinData.network c) coll)
     ∨ Coin.save (Coin.new (clock c) c) coll = None) →
    match Coin.findOne (CoinData.contractAddress c) (CoinData.network c)
            ((saveNewCoinsFrom clock rest coll0 n0).1 ++ extra) with
    | Some _ =>
        saveNewCoinsFrom clock' rest
          ((saveNewCoinsFrom clock rest coll0 n0).1 ++ extra) m
    | None =>
        match Coin.save (Coin.new (clock' c) c)
                ((saveNewCoinsFrom clock rest coll0 n0).1 ++ extra) with
        | Some coll' => saveNewCoinsFrom clock' rest coll' (m + 1)
        | None =>
            saveNewCoinsFrom clock' rest
              ((saveNewCoinsFrom clock rest coll0 n0).1 ++ extra) m
        end
    end = ((saveNewCoinsFrom clock rest coll0 n0).1 ++ extra, m)).
  { intros coll0 n0 [mid Hmid] Hwhy.
    destruct (Coin.findOne _ _ (_ ++ extra)) eqn:E2; [apply IH|].
    destruct Hwhy as [[d Hd]|Hno].
    - rewrite Hmid, <- (assoc_L (++)) in E2. unfold Coin.findOne in Hd, E2.
      by rewrite (find_app_some _ _ _ _ Hd) in E2.
    - rewrite Hmid, <- (assoc_L (++)) at 1.
      apply (Coin_save_none_clock _ (clock' c)) in Hno.
      rewrite (Coin_save_none_app _ _ _ Hno). apply IH. }
  destruct (Coin.findOne _ _ coll) eqn:E1.
  - apply Hskip; [|by left].
    destruct (saveNewCoinsFrom_appends clock rest coll n) as (added & -> & _).
    by eexists.
  - destruct (Coin.save (Coin.new (clock c) c) coll) as [coll'|] eqn:Es.
    + apply Coin_save_some in Es as [-> _].
      destruct (saveNewCoinsFrom_appends clock rest
                  (coll ++ [Coin.new (clock c) c]) (n + 1))
        as (added & Hadd & _).
      destruct (Coin.findOne _ _ (_ ++ extra)) eqn:E2; [apply IH|].
      apply Coin_findOne_none in E2. exfalso. apply E2.
      rewrite Hadd, !fmap_app. simpl.
      apply elem_of_app; left. apply elem_of_app; left.
      apply elem_of_app; right. by apply list_elem_of_singleton.
    + apply Hskip; [|by right].
      destruct (saveNewCoinsFrom_appends clock rest coll n)
        as (added & -> & _).
      by eexists.
Qed.

(** A second run of [saveNewCoins] over the same scan result stores
    nothing and reports [0] saved coins, whatever the first run stored and
    whenever the two runs take place. *)
Theorem saveNewCoins_rerun clock clock' coinList coll :
  saveNewCoins clock' coinList (saveNewCoins clock coinList coll).1
  = ((saveNewCoins clock coinList coll).1, 0).
Proof.
  unfold saveNewCoins.
  pose proof (saveNewCoinsFrom_again clock clock' coinList coll 0 [] 0) as H.
  by rewrite !app_nil_r in H.
Qed.

Lemma News_save_none_app n coll extra :
  News.save n coll = None → News.save n (coll ++ extra) = None.
Proof.
  unfold News.save. rewrite existsb_app.
  destruct (News.valid n); simpl; [|done].
  by destruct (existsb _ coll).
Qed.

Lemma News_save_stored now now' item coll :
  News.save (News.new now' item) (coll ++ [News.new now item]) = None.
Proof.
  unfold News.save. rewrite existsb_app. simpl.
  rewrite bool_decide_eq_true_2 by done.
  rewrite orb_true_r. simpl. by rewrite andb_false_r.
Qed.

Lemma News_save_none_clock now now' item coll :
  News.save (News.new now item) coll = None →
  News.save (News.new now' item) coll = None.
Proof.
  unfold News.save, News.valid, News.id. simpl. by destruct (_ && _).
Qed.

Lemma saveNewsFrom_again clock clock' newsItems coll s k extra s' k' :
  (saveNewsFrom clock' newsItems
     ((saveNewsFrom clock newsItems coll s k).1.1 ++ extra) s' k').1
  = ((saveNewsFrom clock newsItems coll s k).1.1 ++ extra, s').
Proof.
  revert coll s k extra s' k'.
  induction newsItems as [|item rest IH]; intros coll s k extra s' k'; simpl;
    [done|].
  assert (Hskip : ∀ base coll0 s0 k0,
    (∃ mid, (saveNewsFrom clock rest coll0 s0 k0).1.1 = base ++ mid) →
    (is_Some (News.findOne (Js.trim (NewsItem.title item)) base)
     ∨ News.save (News.new (clock' item) item) base = None) →
    (match News.findOne (Js.trim (NewsItem.title item))
             ((saveNewsFrom clock rest coll0 s0 k0).1.1 ++ extra) with
     | Some _ =>
         saveNewsFrom clock' rest
           ((saveNewsFrom clock rest coll0 s0 k0).1.1 ++ extra) s' (k' + 1)
     | None =>
         match News.save (News.new (clock' item) item)
                 ((saveNewsFrom clock rest coll0 s0 k0).1.1 ++ extra) with
         | Some coll' => saveNewsFrom clock' rest coll' (s' + 1) k'
         | None =>
             saveNewsFrom clock' rest
               ((saveNewsFrom clock rest coll0 s0 k0).1.1 ++ extra) s' k'
         end
     end).1 = ((saveNewsFrom clock rest coll0 s0 k0).1.1 ++ extra, s')).
  { intros base coll0 s0 k0 [mid Hmid] Hwhy.
    destruct (News.findOne _ (_ ++ extra)) eqn:E2; [apply IH|].
    destruct Hwhy as [[d Hd]|Hno].
    - rewrite Hmid, <- (assoc_L (++)) in E2. unfold News.findOne in Hd, E2.
      by rewrite (find_app_some _ _ _ _ Hd) in E2.
    - rewrite Hmid, <- (assoc_L (++)) at 1.
      rewrite (News_save_none_app _ _ _ Hno). apply IH. }
  destruct (News.findOne _ coll) eqn:E1.
  - apply (Hskip coll); [|by left].
    destruct (saveNewsFrom_appends clock rest coll s (k + 1))
      as (added & -> & _).
    by eexists.
  - destruct (News.save (News.new (clock item) item) coll) as [coll'|] eqn:Es.
    + apply News_save_some in Es as ->.
      apply (Hskip (coll ++ [News.new (clock item) item])).
      * destruct (saveNewsFrom_appends clock rest
                    (coll ++ [News.new (clock item) item]) (s + 1) k)
          as (added & -> & _).
        by eexists.
      * right. apply News_save_stored.
    + apply (Hskip coll);
        [|right; by apply (News_save_none_clock (clock item))].
      destruct (saveNewsFrom_appends clock rest coll s k) as (added & -> & _).
      by eexists.
Qed.

(** A second run of [saveNews] over the same items stores nothing and
    counts no saved item, also for the items whose title carries
    surrounding white space, which the title lookup does not find again:
    the unique index on [id] rejects them. *)
Theorem saveNews_rerun clock clock' newsItems coll :
  (saveNews clock' newsItems (saveNews clock newsItems coll).1.1).1
  = ((saveNews clock newsItems coll).1.1, 0).
Proof.
  unfold saveNews.
  pose proof (saveNewsFrom_again clock clock' newsItems coll 0 0 [] 0 0) as H.
  by rewrite !app_nil_r in H.
Qed.

Lemma saveNewCoinsFrom_kept clock coinList coll n :
  ∃ kept,
    kept `sublist_of` coinList
    ∧ (saveNewCoinsFrom clock coinList coll n).1
      = coll ++ ((λ d, Coin.new (clock d) d) <$> kept)
    ∧ (saveNewCoinsFrom clock coinList coll n).2 = n + Z.of_nat (length kept)
    ∧ Forall (λ c, Coin.valid (Coin.new (clock c) c) = true
                   ∧ (CoinData.contractAddress c, CoinData.network c)
                     ∉ coinKey <$> coll) kept.
Proof.
  revert coll n.
  induction coinList as [|c rest IH]; intros coll n; simpl.
  - exists []. rewrite app_nil_r. repeat split; [done|simpl; lia|done].
  - assert (Hskip : ∃ kept,
      kept `sublist_of` c :: rest
      ∧ (saveNewCoinsFrom clock rest coll n).1
        = coll ++ ((λ d, Coin.new (clock d) d) <$> kept)
      ∧ (saveNewCoinsFrom clock rest coll n).2 = n + Z.of_nat (length kept)
      ∧ Forall (λ c, Coin.valid (Coin.new (clock c) c) = true
                     ∧ (CoinData.contractAddress c, CoinData.network c)
                       ∉ coinKey <$> coll) kept).
    { destruct (IH coll n) as (kept & Hsub & Hout & Hn & Hall).
      exists kept. repeat split; [by apply sublist_cons|done..]. }
    destruct (Coin.findOne _ _ coll) eqn:E1; [done|].
    destruct (Coin.save (Coin.new (clock c) c) coll) as [coll'|] eqn:Es;
      [|done].
    clear Hskip.
    assert (Hv : Coin.valid (Coin.new (clock c) c) = true).
    { unfold Coin.save in Es. by destruct (Coin.valid (Coin.new (clock c) c)). }
    apply Coin_save_some in Es as [-> _].
    destruct (IH (coll ++ [Coin.new (clock c) c]) (n + 1))
      as (kept & Hsub & Hout & Hn & Hall).
    exists (c :: kept). repeat split.
    + by apply sublist_skip.
    + rewrite Hout. simpl. by rewrite <- (assoc_L (++)).
    + rewrite Hn. simpl length. lia.
    + constructor.
      * split; [done|]. by apply Coin_findOne_none.
      * eapply Forall_impl; [exact Hall|]. simpl. intros x [? Hx].
        split; [done|]. intros Hin. apply Hx. rewrite fmap_app.
        apply elem_of_app. by left.
Qed.

(** The count [saveNewCoins] returns is the number of documents it
    added; the added documents are those of a sub-list of the input, in
    input order, each with both publication flags unset, each passing
    schema validation and none under a key the collection already held;
    the documents stored before are unchanged. *)
Theorem saveNewCoins_count_and_growth clock coinList coll :
  ∃ kept,
    kept `sublist_of` coinList
    ∧ (saveNewCoins clock coinList coll).1
      = coll ++ ((λ d, Coin.new (clock d) d) <$> kept)
    ∧ (saveNewCoins clock coinList coll).2 = Z.of_nat (length kept)
    ∧ Forall (λ c, Coin.valid (Coin.new (clock c) c) = true
                   ∧ (CoinData.contractAddress c, CoinData.network c)
                     ∉ coinKey <$> coll) kept
    ∧ Forall (λ d, Coin.isPosted d = false
                   ∧ Coin.isTelegramPosted d = false)
        ((λ d, Coin.new (clock d) d) <$> kept).
Proof.
  destruct (saveNewCoinsFrom_kept clock coinList coll 0)
    as (kept & Hsub & Hout & Hn & Hall).
  exists kept. repeat split; [done..|].
  apply Forall_fmap, Forall_true. by intros x.
Qed.

Lemma saveNewsFrom_kept clock newsItems coll s k :
  ∃ kept,
    kept `sublist_of` newsItems
    ∧ (saveNewsFrom clock newsItems coll s k).1.1
      = coll ++ ((λ d, News.new (clock d) d) <$> kept)
    ∧ (saveNewsFrom clock newsItems coll s k).1.2 = s + Z.of_nat (length kept)
    ∧ k ≤ (saveNewsFrom clock newsItems coll s k).2
    ∧ Z.of_nat (length kept) + ((saveNewsFrom clock newsItems coll s k).2 - k)
      ≤ Z.of_nat (length newsItems)
    ∧ Forall (λ item, News.valid (News.new (clock item) item) = true
                      ∧ Js.trim (NewsItem.title item) ∉ newsTitle <$> coll)
        kept.
Proof.
  revert coll s k.
  induction newsItems as [|item rest IH]; intros coll s k; simpl.
  - exists []. rewrite app_nil_r. repeat split; [done|simpl; lia|lia|simpl; lia|done].
  - destruct (News.findOne _ coll) eqn:E1.
    { destruct (IH coll s (k + 1)) as (kept & Hsub & Hout & Hn & Hk & Hl & Hall).
      exists kept.
      repeat split; [by apply sublist_cons|done|done|lia|lia|done]. }
    destruct (News.save (News.new (clock item) item) coll) as [coll'|] eqn:Es.
    + assert (Hv : News.valid (News.new (clock item) item) = true).
      { unfold News.save in Es.
        by destruct (News.valid (News.new (clock item) item)). }
      apply News_save_some in Es as ->.
      destruct (IH (coll ++ [News.new (clock item) item]) (s + 1) k)
        as (kept & Hsub & Hout & Hn & Hk & Hl & Hall).
      exists (item :: kept). repeat split.
      * by apply sublist_skip.
      * rewrite Hout. simpl. by rewrite <- (assoc_L (++)).
      * rewrite Hn. simpl length. lia.
      * done.
      * simpl length. lia.
      * constructor.
        -- split; [done|]. intros (d & Hd & Hin)%list_elem_of_fmap.
           by apply (News_findOne_none _ _ d E1 Hin).
        -- eapply Forall_impl; [exact Hall|]. simpl. intros x [? Hx].
           split; [done|]. intros Hin. apply Hx. rewrite fmap_app.
           apply elem_of_app. by left.
    + destruct (IH coll s k) as (kept & Hsub & Hout & Hn & Hk & Hl & Hall).
      exists kept.
      repeat split; [by apply sublist_cons|done|done|lia|lia|done].
Qed.

(** The two counters of [saveNews]: the saved count is the number of
    documents added, saved and skipped items together are at most the
    items given (an item the store rejects is counted in neither), and the
    added documents are those of a sub-list of the input, each tagged
    ["sui"] or ["bnb"] with a non-empty [id] and with a trimmed title that
    no document stored before carries. *)
Theorem saveNews_counters clock newsItems coll :
  ∃ kept,
    kept `sublist_of` newsItems
    ∧ (saveNews clock newsItems coll).1.1
      = coll ++ ((λ d, News.new (clock d) d) <$> kept)
    ∧ (saveNews clock newsItems coll).1.2 = Z.of_nat (length kept)
    ∧ 0 ≤ (saveNews clock newsItems coll).2
    ∧ (saveNews clock newsItems coll).1.2 + (saveNews clock newsItems coll).2
      ≤ Z.of_nat (length newsItems)
    ∧ Forall (λ item, NewsItem.id item ≠ ""
                      ∧ NewsItem.network item ∈ ["sui"; "bnb"]
                      ∧ Js.trim (NewsItem.title item) ∉ newsTitle <$> coll)
        kept.
Proof.
  destruct (saveNewsFrom_kept clock newsItems coll 0 0)
    as (kept & Hsub & Hout & Hn & Hk & Hl & Hall).
  exists kept. unfold saveNews.
  repeat split; [done|done|by rewrite Hn|done|rewrite Hn; lia|].
  eapply Forall_impl; [exact Hall|]. simpl. intros item [Hv Ht].
  unfold News.valid in Hv. simpl in Hv.
  apply andb_true_iff in Hv as [Hid Hnet].
  repeat split; [|by apply orb_true_iff in Hnet as [?%bool_decide_eq_true|?%bool_decide_eq_true]; set_solver|done].
  intros E. by rewrite E in Hid.
Qed.

Lemma valid_passes_filter now (c : CoinData.t string Z) :
  Coin.valid (Coin.new now c) = true →
  Js.truthy_str (CoinData.contractAddress c)
  && Js.truthy_str (CoinData.symbol c) && Js.truthy_str (CoinData.name c)
  = true.
Proof.
  unfold Coin.valid. simpl.
  intros (((_ & ->)%andb_true_iff & ->)%andb_true_iff & ->)%andb_true_iff.
  done.
Qed.

Lemma saveNewCoinsFrom_filterNewPairs clock coinList coll n :
  saveNewCoinsFrom clock
    (MonitoringService.filterNewPairs Js.truthy_str coinList) coll n
  = saveNewCoinsFrom clock coinList coll n.
Proof.
  revert coll n.
  induction coinList as [|c rest IH]; intros coll n; simpl; [done|].
  destruct (_ && _) eqn:Ef; simpl.
  - destruct (Coin.findOne _ _ coll); [apply IH|].
    destruct (Coin.save _ coll); apply IH.
  - rewrite IH. destruct (Coin.findOne _ _ coll); [done|].
    unfold Coin.save.
    destruct (Coin.valid (Coin.new (clock c) c)) eqn:Ev; [|done].
    by rewrite (valid_passes_filter _ _ Ev) in Ef.
Qed.

(** [filterNewPairs] drops no coin that [saveNewCoins] would store: a
    monitoring run on a scan result stores, and counts, exactly what
    saving the unfiltered result would; without a successful result it
    stores nothing. *)
Theorem monitorNetworkLaunches_filter_is_subsumed clock result coll :
  MonitoringService.monitorNetworkLaunches clock result coll
  = match success result, data result with
    | true, Some found => saveNewCoins clock found coll
    | _, _ => (coll, 0)
    end.
Proof.
  unfold MonitoringService.monitorNetworkLaunches, saveNewCoins.
  destruct (success result), (data result); try done.
  apply saveNewCoinsFrom_filterNewPairs.
Qed.

(** * Further properties of the news sources *)

Lemma Forall_imap {A B : Type} (P : B → Prop) (f : nat → A → B) (l : list A) :
  (∀ i x, l !! i = Some x → P (f i x)) → Forall P (imap f l).
Proof.
  intros H. apply Forall_lookup. intros i y Hy.
  rewrite list_lookup_imap in Hy.
  destruct (l !! i) as [x|] eqn:E; simplify_eq/=. by apply H.
Qed.

Lemma getCryptoPanicNews_general response items :
  data (NewsSources.getCryptoPanicNews response) = Some items →
  Forall (λ item, NewsItem.network item = "general") items.
Proof.
  destruct response as [results|message]; simpl; [|done].
  intros [= <-]. by apply Forall_fmap, Forall_true.
Qed.

Lemma rssNews_general prefix sourceName fallback limit now response items :
  data (NewsSources.rssNews prefix sourceName fallback limit now response)
  = Some items →
  Forall (λ item, NewsItem.network item = "general") items.
Proof.
  destruct response as [results|message]; simpl; [|done].
  intros [= <-]. by apply Forall_imap.
Qed.

(** [monitorGeneralNews] never changes the [News] collection, whatever
    CryptoPanic answers: every item [getCryptoPanicNews] builds is tagged
    ["general"], which the schema of [News] rejects. *)
Theorem monitorGeneralNews_stores_nothing clock response coll :
  MonitoringService.monitorGeneralNews clock
    (NewsSources.getCryptoPanicNews response) coll
  = coll.
Proof.
  unfold MonitoringService.monitorGeneralNews,
    MonitoringService.monitorOneSource.
  destruct (success _) eqn:Es; [|done].
  destruct (data _) as [items|] eqn:Ed; [|done].
  apply saveNewsFrom_general. by eapply getCryptoPanicNews_general.
Qed.

Lemma general_path_general cryptoPanic now coinTelegraph :
  let generalResult :=
    getGeneralCryptoNews (NewsSources.getCryptoPanicNews cryptoPanic)
      (NewsSources.getCoinTelegraphNews now coinTelegraph) in
  Forall (λ item, NewsItem.network item = "general")
    (if success generalResult then default [] (data generalResult) else []).
Proof.
  simpl. unfold getGeneralCryptoNews.
  destruct (hasItems (NewsSources.getCryptoPanicNews cryptoPanic)) eqn:E1.
  - destruct (success _); [|done].
    destruct (data _) as [items|] eqn:Ed; [|done].
    by eapply getCryptoPanicNews_general.
  - destruct (hasItems (NewsSources.getCoinTelegraphNews now coinTelegraph));
      [|done].
    destruct (success _); [|done].
    destruct (data _) as [items|] eqn:Ed; [|done].
    by eapply rssNews_general.
Qed.

(** [monitorNews] stores exactly what saving the chain-specific items
    alone stores: the items of the general path, whether they come from
    CryptoPanic or from the CoinTelegraph fallback, are all rejected. *)
Theorem monitorNews_stores_chain_specific_only clock
    cryptoPanic now coinTelegraph newsApiResult googleRssResult coll :
  MonitoringService.monitorNews clock
    (getAllNews (NewsSources.getCryptoPanicNews cryptoPanic)
       (NewsSources.getCoinTelegraphNews now coinTelegraph)
       newsApiResult googleRssResult) coll
  = (saveNews clock
       (removeDuplicates
          (settledItems newsApiResult ++ settledItems googleRssResult))
       coll).1.1.
Proof.
  unfold MonitoringService.monitorNews, getAllNews. simpl.
  pose proof (general_path_general cryptoPanic now coinTelegraph) as Hg.
  simpl in Hg. revert Hg.
  generalize (if success (getGeneralCryptoNews
                            (NewsSources.getCryptoPanicNews cryptoPanic)
                            (NewsSources.getCoinTelegraphNews now
                               coinTelegraph))
              then default [] (data (getGeneralCryptoNews
                            (NewsSources.getCryptoPanicNews cryptoPanic)
                            (NewsSources.getCoinTelegraphNews now
                               coinTelegraph)))
              else []).
  intros general Hg.
  assert ((if 0 <? Z.of_nat (length general)
           then (saveNews clock general coll).1.1 else coll) = coll) as ->.
  { destruct (0 <? _); [|done]. by apply saveNewsFrom_general. }
  destruct (removeDuplicates _) as [|item rest] eqn:E; [done|].
  done.
Qed.

(** The general path reports success exactly when one of its two sources
    answered with at least one item, CryptoPanic first; a success carries
    a non-empty list of items tagged ["general"] with no coin symbol, and
    a failure carries no data and an error message. *)
Theorem getGeneralCryptoNews_fallback cryptoPanic now coinTelegraph :
  let result :=
    getGeneralCryptoNews (NewsSources.getCryptoPanicNews cryptoPanic)
      (NewsSources.getCoinTelegraphNews now coinTelegraph) in
  (success result = true ↔
     (∃ post posts, cryptoPanic = Answered (post :: posts))
     ∨ (∃ item items, coinTelegraph = Answered (item :: items)))
  ∧ (∀ post posts, cryptoPanic = Answered (post :: posts) →
       result = NewsSources.getCryptoPanicNews cryptoPanic)
  ∧ (success result = true →
       ∃ item items,
         data result = Some (item :: items)
         ∧ Forall (λ x, NewsItem.network x = "general"
                        ∧ NewsItem.coinSymbol x = "") (item :: items))
  ∧ (success result = false →
       data result = None ∧ is_Some (error result)).
Proof.
  simpl. unfold getGeneralCryptoNews.
  destruct cryptoPanic as [[|post posts]|m1].
  - destruct coinTelegraph as [[|item items]|m2]; simpl.
    + repeat split; try done; try by eauto.
      intros [(? & ? & [=])|(? & ? & [=])].
    + repeat split; try done; try by eauto.
      intros _. eexists _, _. split; [done|].
      constructor; [done|]. apply Forall_imap. done.
    + repeat split; try done; try by eauto.
      intros [(? & ? & [=])|(? & ? & [=])].
  - simpl. repeat split; try done; try by eauto.
    intros _. eexists _, _. split; [done|].
    constructor; [done|]. by apply Forall_fmap, Forall_true.
  - destruct coinTelegraph as [[|item items]|m2]; simpl.
    + repeat split; try done; try by eauto.
      intros [(? & ? & [=])|(? & ? & [=])].
    + repeat split; try done; try by eauto.
      intros _. eexists _, _. split; [done|].
      constructor; [done|]. apply Forall_imap. done.
    + repeat split; try done; try by eauto.
      intros [(? & ? & [=])|(? & ? & [=])].
Qed.

Lemma removeDuplicatesFrom_sublist seen items :
  removeDuplicatesFrom seen items `sublist_of` items.
Proof.
  revert seen. induction items as [|item rest IH]; intros seen; simpl;
    [done|].
  case_bool_decide; [by apply sublist_cons|by apply sublist_skip].
Qed.

Lemma removeDuplicatesFrom_fixed seen items :
  NoDup (titleKey <$> items) →
  (∀ item, item ∈ items → titleKey item ∉ seen) →
  removeDuplicatesFrom seen items = items.
Proof.
  revert seen. induction items as [|item rest IH]; intros seen Hnd Hseen;
    simpl; [done|].
  rewrite fmap_cons in Hnd. apply NoDup_cons in Hnd as [Hfresh Hnd].
  rewrite bool_decide_eq_false_2 by (apply Hseen; left).
  f_equal. apply IH; [done|].
  intros x Hx [E%elem_of_singleton|Hin]%elem_of_union.
  - apply Hfresh, list_elem_of_fmap. by exists x.
  - apply (Hseen x); [by right|done].
Qed.

Lemma removeDuplicatesFrom_app seen a b :
  ∃ seen' : gset string,
    (∀ k, k ∈ seen' ↔ k ∈ seen ∨ k ∈ titleKey <$> a)
    ∧ removeDuplicatesFrom seen (a ++ b)
      = removeDuplicatesFrom seen a ++ removeDuplicatesFrom seen' b.
Proof.
  revert seen. induction a as [|item rest IH]; intros seen; simpl.
  - exists seen. split; [|done]. intros k. split; [by left|].
    by intros [?|?%elem_of_nil].
  - case_bool_decide as Hk.
    + destruct (IH seen) as (seen' & Hs & ->). exists seen'. split; [|done].
      intros k. rewrite Hs, elem_of_cons. split; [tauto|].
      intros [?|[->|?]]; tauto.
    + destruct (IH ({[titleKey item]} ∪ seen)) as (seen' & Hs & ->).
      exists seen'. split; [|done].
      intros k. rewrite Hs, elem_of_cons, elem_of_union, elem_of_singleton.
      tauto.
Qed.

(** [removeDuplicates] keeps the items it retains in their input order,
    leaves a list with pairwise distinct normalised titles as it is, and
    so changes nothing when applied a second time. *)
Theorem removeDuplicates_stable items :
  removeDuplicates items `sublist_of` items
  ∧ (NoDup (titleKey <$> items) → removeDuplicates items = items)
  ∧ removeDuplicates (removeDuplicates items) = removeDuplicates items.
Proof.
  assert (Hfix : ∀ l, NoDup (titleKey <$> l) → removeDuplicates l = l).
  { intros l Hl. apply removeDuplicatesFrom_fixed; [done|].
    intros item _. apply not_elem_of_empty. }
  split; [apply removeDuplicatesFrom_sublist|]. split; [apply Hfix|].
  apply Hfix. apply (removeDuplicates_facts items).
Qed.

(** In the chain-specific path the first source has precedence: the
    result of [getSuiNews] starts with the deduplicated items of NewsAPI,
    followed by items of the Google feed, in feed order, whose normalised
    title no NewsAPI item carries. *)
Theorem getSuiNews_first_source_precedence newsApiResult googleRssResult :
  ∃ others,
    data (getSuiNews newsApiResult googleRssResult)
    = Some (removeDuplicates (settledItems newsApiResult) ++ others)
    ∧ others `sublist_of` settledItems googleRssResult
    ∧ Forall (λ item, titleKey item
                      ∉ titleKey <$> settledItems newsApiResult) others.
Proof.
  unfold getSuiNews. simpl. unfold removeDuplicates.
  destruct (removeDuplicatesFrom_app ∅ (settledItems newsApiResult)
              (settledItems googleRssResult)) as (seen' & Hs & ->).
  eexists. split; [done|]. split; [apply removeDuplicatesFrom_sublist|].
  apply Forall_forall. intros item Hin Hk.
  destruct (removeDuplicatesFrom_facts seen' (settledItems googleRssResult))
    as (_ & Hout & _).
  apply (Hout item) in Hin as [_ Hnot]. apply Hnot, Hs. by right.
Qed.

Lemma hasGt_stripFrom inTag s :
  NewsSources.hasGt s = false →
  NewsSources.hasGt (NewsSources.stripFrom inTag s) = false.
Proof.
  revert inTag. induction s as [|c r IH]; intros inTag; simpl; [done|].
  intros [Hc Hr]%orb_false_iff. rewrite Hc, Hr.
  destruct inTag; [by apply IH|].
  rewrite andb_false_r. simpl. rewrite Hc. by apply IH.
Qed.

Lemma hasTag_stripFrom inTag s :
  hasTag (NewsSources.stripFrom inTag s) = false.
Proof.
  revert inTag. induction s as [|c r IH]; intros inTag; simpl; [done|].
  destruct inTag.
  - destruct (bool_decide (c = ">"%char)); apply IH.
  - destruct (bool_decide (c = "<"%char) && NewsSources.hasGt r) eqn:E;
      [apply IH|].
    simpl. rewrite IH, orb_false_r.
    apply andb_false_iff in E as [->|Hr]; [done|].
    by rewrite (hasGt_stripFrom false r Hr), andb_false_r.
Qed.

Lemma stripFrom_fixed s :
  hasTag s = false → NewsSources.stripFrom false s = s.
Proof.
  induction s as [|c r IH]; simpl; [done|].
  intros [-> Hr]%orb_false_iff. by rewrite IH.
Qed.

Lemma stripFrom_length inTag s :
  (String.length (NewsSources.stripFrom inTag s) ≤ String.length s)%nat.
Proof.
  revert inTag. induction s as [|c r IH]; intros inTag; simpl; [done|].
  destruct inTag.
  - destruct (bool_decide _); etrans; [apply IH|lia|apply IH|lia].
  - destruct (_ && _); simpl; [etrans; [apply IH|lia]|].
    specialize (IH false). lia.
Qed.

(** Removing the tags of a description leaves no complete tag behind,
    changes nothing in a text that has none, never lengthens the text, and
    is therefore idempotent. *)
Theorem stripTags_removes_every_tag s :
  hasTag (NewsSources.stripTags s) = false
  ∧ (hasTag s = false → NewsSources.stripTags s = s)
  ∧ NewsSources.stripTags (NewsSources.stripTags s) = NewsSources.stripTags s
  ∧ (String.length (NewsSources.stripTags s) ≤ String.length s)%nat.
Proof.
  unfold NewsSources.stripTags.
  repeat split.
  - apply hasTag_stripFrom.
  - apply stripFrom_fixed.
  - apply stripFrom_fixed, hasTag_stripFrom.
  - apply stripFrom_length.
Qed.

Lemma rssNews_answered prefix sourceName fallback limit now feed :
  ∃ items,
    NewsSources.rssNews prefix sourceName fallback limit now (Answered feed)
    = {| success := true; data := Some items; error := None |}
    ∧ length items = (limit `min` length feed)%nat
    ∧ NewsItem.title <$> items = NewsSources.rss_title <$> take limit feed
    ∧ Forall (λ x, hasTag (NewsItem.description x) = false
                   ∧ NewsItem.network x = "general"
                   ∧ NewsItem.coinSymbol x = ""
                   ∧ NewsItem.source x = sourceName) items.
Proof.
  eexists. split; [done|]. repeat split.
  - by rewrite length_imap, length_take.
  - apply list_eq. intros i.
    rewrite !list_lookup_fmap, list_lookup_imap.
    by destruct (take limit feed !! i).
  - apply Forall_imap. intros i x _. simpl. repeat split.
    destruct (NewsSources.rss_description x); [|done].
    apply hasTag_stripFrom.
Qed.

(** Each of the three RSS clients of the general path answers a feed with
    its first items only (15, 15 and 10), in feed order with the feed's
    titles, each with a description free of complete tags, tagged
    ["general"], with no coin symbol and under the client's source
    name. *)
Theorem rss_clients_bounded_and_stripped :
  Forall
    (λ '(client, limit, sourceName),
       ∀ now feed, ∃ items,
         client now (Answered feed)
         = {| success := true; data := Some items; error := None |}
         ∧ length items = (limit `min` length feed)%nat
         ∧ NewsItem.title <$> items = NewsSources.rss_title <$> take limit feed
         ∧ Forall (λ x, hasTag (NewsItem.description x) = false
                        ∧ NewsItem.network x = "general"
                        ∧ NewsItem.coinSymbol x = ""
                        ∧ NewsItem.source x = sourceName) items)
    rssClients.
Proof.
  repeat constructor; intros now feed; apply rssNews_answered.
Qed.

(** * Further properties of the BNB scan *)

Lemma truthy_str_nonempty s : Js.truthy_str s = true → s ≠ "".
Proof. by destruct s. Qed.

Lemma getTokenInfoSafely_some calls info :
  BnbScanner.getTokenInfoSafely calls = Some info →
  BnbScanner.token0Symbol info ≠ "" ∧ BnbScanner.token1Symbol info ≠ ""
  ∧ BnbScanner.token0Name info ≠ "" ∧ BnbScanner.token1Name info ≠ "".
Proof.
  unfold BnbScanner.getTokenInfoSafely.
  destruct (BnbScanner.token0NameCall calls) as [n0|]; [|done].
  destruct (BnbScanner.token0SymbolCall calls) as [s0|]; [|done].
  destruct (BnbScanner.token1NameCall calls) as [n1|]; [|done].
  destruct (BnbScanner.token1SymbolCall calls) as [s1|]; [|done].
  destruct s0, s1, n0, n1; simpl; try done. by intros [= <-].
Qed.

Lemma getEnhancedTokenInfo_some calls info :
  BnbScanner.getEnhancedTokenInfo calls = Some info →
  BnbScanner.info_symbol info ≠ "" ∧ BnbScanner.info_name info ≠ "".
Proof.
  unfold BnbScanner.getEnhancedTokenInfo.
  destruct (BnbScanner.nameCall calls) as [n|]; [|done].
  destruct (BnbScanner.symbolCall calls) as [s|]; [|done].
  destruct (BnbScanner.decimalsCall calls); [|done].
  destruct (BnbScanner.totalSupplyCall calls); [|done].
  destruct s, n; simpl; try done.
  destruct (BnbScanner.unitsRaised calls); [done|]. by intros [= <-].
Qed.

Lemma bnbCoin_record id symbol name address shown block :
  symbol ≠ "" → name ≠ "" →
  bnbRecord (BnbScanner.bnbCoin id symbol name (Js.toLowerCase address)
               shown block).
Proof.
  intros Hs Hn. unfold bnbRecord. simpl.
  repeat split; try done; [apply toLowerCase_idem|by eexists].
Qed.

Lemma append_nonempty_l a b : a ≠ "" → a +:+ b ≠ "".
Proof. by destruct a. Qed.

Lemma decodeFactoryPairLog_record abiDecode a log st st' c :
  BnbScanner.decodeFactoryPairLog abiDecode a log st = Some (st', Some c) →
  bnbRecord c ∧ CoinData.id c = CoinData.contractAddress c.
Proof.
  unfold BnbScanner.decodeFactoryPairLog, BnbScanner.bind, BnbScanner.ret.
  destruct (3 <=? _); [|done].
  destruct (BnbScanner.decodePair abiDecode log) as [pairAddress|]; [|done].
  destruct (BnbScanner.getTokenInfoSafely _) as [info|] eqn:Ei; [|done].
  destruct (getBlockWithCache _ _ _ st) as [[st1 [block|]]|]; try done.
  destruct pairAddress as [pairAddress|]; [|done].
  intros [= _ <-]. split; [|done].
  apply getTokenInfoSafely_some in Ei as (H0 & _ & H1 & _).
  apply bnbCoin_record; by apply append_nonempty_l.
Qed.

Lemma decodeLiquidityLog_record abiDecode a log st st' c :
  BnbScanner.decodeLiquidityLog abiDecode a log st = Some (st', Some c) →
  bnbRecord c
  ∧ CoinData.id c
    = CoinData.contractAddress c +:+ "-" +:+ BnbScanner.log_transactionHash log
  ∧ CoinData.contractAddress c ≠ "".
Proof.
  unfold BnbScanner.decodeLiquidityLog, BnbScanner.bind, BnbScanner.ret.
  destruct (BnbScanner.decodeToken abiDecode log) as [[tokenAddress|]|];
    try done.
  destruct (Js.truthy_str tokenAddress) eqn:Et; [|done]. simpl.
  destruct (BnbScanner.getEnhancedTokenInfo _) as [info|] eqn:Ei; [|done].
  destruct (getBlockWithCache _ _ _ st) as [[st1 [block|]]|]; try done.
  intros [= _ <-].
  apply getEnhancedTokenInfo_some in Ei as [Hs Hn].
  split; [by apply bnbCoin_record|]. split; [done|].
  simpl. by destruct tokenAddress.
Qed.

Lemma decodeLogs_Forall (P : CoinData.t string Z → Prop) decode answers :
  (∀ a log st st' c, decode a log st = Some (st', Some c) → P c) →
  ∀ logs i allCoins st st' out,
    Forall P allCoins →
    BnbScanner.decodeLogs decode answers i logs allCoins st = Some (st', out) →
    Forall P out.
Proof.
  intros Hdec logs.
  induction logs as [|log rest IH]; intros i allCoins st st' out Hall; simpl.
  - unfold BnbScanner.ret. by intros [= _ <-].
  - unfold BnbScanner.bind at 1.
    destruct (decode (answers i) log st) as [[st1 coinData]|] eqn:E; [|done].
    apply IH. destruct coinData as [c|]; [|done].
    apply Forall_app. split; [done|]. constructor; [|done].
    by eapply Hdec.
Qed.

Lemma prefix_mint x : String.prefix "mint-" ("mint-" +:+ x) = true.
Proof. destruct x; reflexivity. Qed.

Lemma mintLoop_facts answers logs : ∀ i uniqueTokens tokens st st' out,
  Forall mintRecord tokens →
  NoDup (CoinData.contractAddress <$> tokens) →
  (∀ c, c ∈ tokens → CoinData.contractAddress c ∈ uniqueTokens) →
  BnbScanner.mintLoop answers i logs uniqueTokens tokens st = Some (st', out) →
  Forall mintRecord out
  ∧ NoDup (CoinData.contractAddress <$> out)
  ∧ (length out ≤ length tokens + length logs)%nat
  ∧ tokens `prefix_of` out.
Proof.
  induction logs as [|log rest IH];
    intros i uniqueTokens tokens st st' out Hall Hnd Hseen; simpl.
  - unfold BnbScanner.ret. intros [= _ <-].
    repeat split; [done|done|simpl; lia|done].
  - assert (Hskip : ∀ seen' st0,
      (∀ c, c ∈ tokens → CoinData.contractAddress c ∈ seen') →
      BnbScanner.mintLoop answers (S i) rest seen' tokens st0
      = Some (st', out) →
      Forall mintRecord out
      ∧ NoDup (CoinData.contractAddress <$> out)
      ∧ (length out ≤ length tokens + S (length rest))%nat
      ∧ tokens `prefix_of` out).
    { intros seen' st0 Hseen' Hrun.
      destruct (IH _ _ _ _ _ _ Hall Hnd Hseen' Hrun) as (? & ? & ? & ?).
      repeat split; [done|done|lia|done]. }
    case_bool_decide as Hk; [by apply Hskip|].
    assert (Hseen' : ∀ c, c ∈ tokens →
      CoinData.contractAddress c
      ∈ ({[Js.toLowerCase (BnbScanner.log_address log)]} ∪ uniqueTokens
         : gset string)).
    { intros c Hc. apply elem_of_union. right. by apply Hseen. }
    destruct (BnbScanner.getEnhancedTokenInfo _) as [info|] eqn:Ei;
      [|by apply Hskip].
    destruct (Js.truthy_str (BnbScanner.info_symbol info)); simpl;
      [|by apply Hskip].
    case_bool_decide as Hu; simpl; [by apply Hskip|].
    unfold BnbScanner.bind at 1.
    destruct (getBlockWithCache _ _ _ st) as [[st1 [block|]]|]; try done;
      [|by apply Hskip].
    intros Hrun.
    apply getEnhancedTokenInfo_some in Ei as [Hs Hn].
    apply IH in Hrun as (H1 & H2 & H3 & H4).
    + repeat split; [done|done|rewrite length_app in H3; simpl in H3; lia|].
      etrans; [|exact H4]. by apply prefix_app_r.
    + apply Forall_app. split; [done|]. constructor; [|done].
      split; [by apply bnbCoin_record|]. split; [apply prefix_mint|done].
    + rewrite fmap_app. apply NoDup_app. split; [done|]. split.
      * intros x (c & -> & Hc)%list_elem_of_fmap. simpl.
        intros Hx%list_elem_of_singleton. apply Hk. apply Hseen in Hc.
        by rewrite <- Hx.
      * simpl. apply NoDup_singleton.
    + intros c [Hc|Hc%list_elem_of_singleton]%elem_of_app.
      * by apply Hseen'.
      * subst c. simpl. apply elem_of_union. left. by apply elem_of_singleton.
Qed.

Lemma folded_NoDup coins :
  Forall bnbRecord coins →
  NoDup (CoinData.contractAddress <$> coins) →
  NoDup (foldedAddress <$> coins).
Proof.
  intros Hall Hnd. erewrite list_fmap_ext; [exact Hnd|].
  intros i c Hc. unfold foldedAddress.
  eapply Forall_lookup_1 in Hall; [|exact Hc]. apply Hall.
Qed.

Lemma detectNewTokensAlternative_facts answers mintLogs st st' out :
  BnbScanner.detectNewTokensAlternative answers mintLogs st = Some (st', out) →
  Forall mintRecord out
  ∧ NoDup (CoinData.contractAddress <$> out)
  ∧ (length out ≤ 50)%nat.
Proof.
  unfold BnbScanner.detectNewTokensAlternative.
  destruct mintLogs as [logs|message].
  - intros Hrun. apply mintLoop_facts in Hrun as (H1 & H2 & H3 & _);
      [|done|constructor|by intros c ?%elem_of_nil].
    repeat split; [done|done|]. rewrite length_take in H3.
    change (length (@nil (CoinData.t string Z))) with 0%nat in H3. lia.
  - unfold BnbScanner.ret. intros [= _ <-].
    repeat split; [done|constructor|simpl; lia].
Qed.

Lemma mintRecord_bnbRecord out : Forall mintRecord out → Forall bnbRecord out.
Proof. intros H. eapply Forall_impl; [exact H|]. by intros c [? _]. Qed.

(** Every record [decodeFactoryPairLog] returns is on [bnb] under a
    lower-cased address, has a symbol and a name, zero market data and a
    launch time in whole seconds, and is identified by its address. *)
Theorem decodeFactoryPairLog_well_formed abiDecode a log st st' c :
  BnbScanner.decodeFactoryPairLog abiDecode a log st = Some (st', Some c) →
  bnbRecord c ∧ CoinData.id c = CoinData.contractAddress c.
Proof. apply decodeFactoryPairLog_record. Qed.

Lemma decodeFactoryPairLog_well_formed_witness :
  ∃ st' c,
    BnbScanner.decodeFactoryPairLog demoDecode (demoAnswers 0)
      (demoLog "0xfac" "0xAbCd") initialScanner = Some (st', Some c)
    ∧ CoinData.contractAddress c = "0xabcd"
    ∧ bnbRecord c ∧ CoinData.id c = CoinData.contractAddress c.
Proof.
  eexists _, _. split; [vm_compute; reflexivity|]. split; [reflexivity|].
  eapply (decodeFactoryPairLog_well_formed demoDecode (demoAnswers 0)
            (demoLog "0xfac" "0xAbCd") initialScanner).
  vm_compute; reflexivity.
Defined.

(** Every record [decodeLiquidityLog] returns is on [bnb] under a
    non-empty lower-cased address, has the token's symbol and name, zero
    market data and a launch time in whole seconds, and is identified by
    its address followed by the transaction hash. *)
Theorem decodeLiquidityLog_well_formed abiDecode a log st st' c :
  BnbScanner.decodeLiquidityLog abiDecode a log st = Some (st', Some c) →
  bnbRecord c
  ∧ CoinData.id c
    = CoinData.contractAddress c +:+ "-" +:+ BnbScanner.log_transactionHash log
  ∧ CoinData.contractAddress c ≠ "".
Proof. apply decodeLiquidityLog_record. Qed.

Lemma decodeLiquidityLog_well_formed_witness :
  ∃ st' c,
    BnbScanner.decodeLiquidityLog demoDecode (demoAnswers 0)
      (BnbScanner.tagged "addLiquidityETH" (demoLog "0x10ED" "0xEeEe"))
      initialScanner = Some (st', Some c)
    ∧ CoinData.id c = "0xeeee-0x7a"
    ∧ bnbRecord c
    ∧ CoinData.id c
      = CoinData.contractAddress c +:+ "-" +:+ "0x7a"
    ∧ CoinData.contractAddress c ≠ "".
Proof.
  eexists _, _. split; [vm_compute; reflexivity|]. split; [reflexivity|].
  eapply (decodeLiquidityLog_well_formed demoDecode (demoAnswers 0)
            (BnbScanner.tagged "addLiquidityETH" (demoLog "0x10ED" "0xEeEe"))
            initialScanner).
  vm_compute; reflexivity.
Defined.

(** The alternative detection returns at most 50 records, each a mint
    record in the shape of the scan and never under the placeholder symbol,
    with pairwise distinct addresses also when letter case is ignored. *)
Theorem detectNewTokensAlternative_bounded_unique answers mintLogs st st' out :
  BnbScanner.detectNewTokensAlternative answers mintLogs st = Some (st', out) →
  (length out ≤ 50)%nat
  ∧ Forall mintRecord out
  ∧ NoDup (foldedAddress <$> out).
Proof.
  intros Hrun.
  destruct (detectNewTokensAlternative_facts _ _ _ _ _ Hrun) as (H1 & H2 & H3).
  repeat split; [done|done|].
  by apply folded_NoDup; [apply mintRecord_bnbRecord|].
Qed.

Lemma detectNewTokensAlternative_bounded_unique_witness :
  ∃ st' out,
    BnbScanner.detectNewTokensAlternative demoAnswers
      (BnbScanner.mintLogs quietChain) initialScanner = Some (st', out)
    ∧ length out = 2%nat
    ∧ (length out ≤ 50)%nat
    ∧ Forall mintRecord out
    ∧ NoDup (foldedAddress <$> out).
Proof.
  eexists _, _. split; [vm_compute; reflexivity|]. split; [reflexivity|].
  eapply (detectNewTokensAlternative_bounded_unique demoAnswers
            (BnbScanner.mintLogs quietChain) initialScanner).
  vm_compute; reflexivity.
Defined.

Lemma scan_result_facts abiDecode chain st st' result :
  BnbScanner.getRecentBNBPairCreations abiDecode chain st
  = Some (st', result) →
  (success result = false ↔ BnbScanner.latestBlock chain = None)
  ∧ (success result = true →
       ∃ found,
         data result = Some found
         ∧ Forall bnbRecord found
         ∧ NoDup (foldedAddress <$> found)
         ∧ ((found ≠ []
             ∧ StronglySorted (descending CoinData.launchTime) found)
            ∨ ((length found ≤ 50)%nat ∧ Forall mintRecord found))).
Proof.
  unfold BnbScanner.getRecentBNBPairCreations.
  destruct (BnbScanner.latestBlock chain) as [latest|].
  2:{ unfold BnbScanner.ret. intros [= _ <-]. simpl. by split. }
  unfold BnbScanner.bind at 1.
  destruct (BnbScanner.decodeLogs _ _ _ _ _ st)
    as [[st1 coins1]|] eqn:E1; [|done].
  unfold BnbScanner.bind at 1.
  destruct (BnbScanner.decodeLogs _ _ _ _ _ st1)
    as [[st2 coins2]|] eqn:E2; [|done].
  assert (H1 : Forall bnbRecord coins1).
  { eapply (decodeLogs_Forall bnbRecord); [|constructor|exact E1].
    intros a log s s' c Hc. by apply decodeFactoryPairLog_record in Hc as [? _]. }
  assert (H2 : Forall bnbRecord coins2).
  { eapply (decodeLogs_Forall bnbRecord); [|exact H1|exact E2].
    intros a log s s' c Hc. by apply decodeLiquidityLog_record in Hc as [? _]. }
  destruct (removeDuplicatesAndSort_facts coins2) as (Hnd & Hsub & _).
  destruct (Z.of_nat (length (removeDuplicatesAndSort coins2)) =? 0) eqn:El.
  - unfold BnbScanner.bind at 1.
    destruct (BnbScanner.detectNewTokensAlternative _ _ st2)
      as [[st3 alternativeCoins]|] eqn:E3; [|done].
    unfold BnbScanner.ret. intros [= _ <-]. simpl. split; [done|]. intros _.
    apply detectNewTokensAlternative_facts in E3 as (Ha & Hb & Hc).
    exists alternativeCoins. split; [done|].
    split; [by apply mintRecord_bnbRecord|].
    split; [by apply folded_NoDup; [apply mintRecord_bnbRecord|]|].
    by right.
  - unfold BnbScanner.ret. intros [= _ <-]. simpl. split; [done|]. intros _.
    eexists. split; [done|].
    assert (Hall : Forall bnbRecord (removeDuplicatesAndSort coins2)).
    { apply Forall_forall. intros c Hc. apply Hsub in Hc.
      by eapply Forall_forall in H2. }
    split; [done|]. split; [by apply folded_NoDup|]. left. split.
    + intros Hnil. rewrite Hnil in El. simpl in El. lia.
    + rewrite removeDuplicatesAndSort_typed. apply sortDesc_sorted.
Qed.

(** A BNB scan fails only when the query for the latest block raised.
    Otherwise it returns well-formed records whose addresses are pairwise
    distinct also when letter case is ignored; they are either the pairs
    and tokens decoded, at least one, sorted by launch time descending, or,
    when none was decoded, the at most 50 mint records of the alternative
    detection, in log order. *)
Theorem getRecentBNBPairCreations_unique_folded abiDecode chain st st' result :
  BnbScanner.getRecentBNBPairCreations abiDecode chain st
  = Some (st', result) →
  (success result = false ↔ BnbScanner.latestBlock chain = None)
  ∧ (success result = true →
       ∃ found,
         data result = Some found
         ∧ Forall bnbRecord found
         ∧ NoDup (foldedAddress <$> found)
         ∧ ((found ≠ []
             ∧ StronglySorted (descending CoinData.launchTime) found)
            ∨ ((length found ≤ 50)%nat ∧ Forall mintRecord found))).
Proof. apply scan_result_facts. Qed.

Lemma getRecentBNBPairCreations_unique_folded_witness :
  ∃ st' found,
    BnbScanner.getRecentBNBPairCreations demoDecode demoChain initialScanner
    = Some (st', {| success := true; data := Some found; error := None |})
    ∧ CoinData.contractAddress <$> found = ["0xabcd"; "0xeeee"]
    ∧ ((success {| success := true; data := Some found; error := None |}
        = false ↔ BnbScanner.latestBlock demoChain = None)
       ∧ (success {| success := true; data := Some found; error := None |}
          = true →
          ∃ found',
            data {| success := true; data := Some found; error := None |}
            = Some found'
            ∧ Forall bnbRecord found'
            ∧ NoDup (foldedAddress <$> found')
            ∧ ((found' ≠ []
                ∧ StronglySorted (descending CoinData.launchTime) found')
               ∨ ((length found' ≤ 50)%nat ∧ Forall mintRecord found')))).
Proof.
  eexists _, _. split; [vm_compute; reflexivity|]. split; [reflexivity|].
  eapply (getRecentBNBPairCreations_unique_folded demoDecode demoChain
            initialScanner).
  vm_compute; reflexivity.
Defined.

(** When the primary detection finds nothing the scan falls back on the
    mint logs, and its result is then in log order, not in launch-time
    order. *)
Example getRecentBNBPairCreations_fallback_sample :
  ∃ st' found,
    BnbScanner.getRecentBNBPairCreations demoDecode quietChain initialScanner
    = Some (st', {| success := true; data := Some found; error := None |})
    ∧ CoinData.id <$> found = ["mint-0xaaa1-0x7a"; "mint-0xbbb2-0x7a"].
Proof. eexists _, _. split; vm_compute; reflexivity. Qed.

(** * Further properties of the block cache *)

Lemma cache_get_app k pre rest :
  cache_get k pre = None → cache_get k (pre ++ rest) = cache_get k rest.
Proof.
  induction pre as [|[k' b'] pre IH]; simpl; [done|].
  destruct (k' =? k); [done|]. apply IH.
Qed.

Lemma cache_get_here k b rest : cache_get k ((k, b) :: rest) = Some b.
Proof. simpl. by rewrite Z.eqb_refl. Qed.

Lemma lookups_keep k b calls : ∀ st st2 pre post,
  cache_size (blockCache st) ≤ 101 →
  blockCache st = pre ++ (k, b) :: post →
  cache_get k pre = None →
  (length calls + length (blockCache st) ≤ 101 + length pre)%nat →
  lookups calls st = Some st2 →
  cache_get k (blockCache st2) = Some b.
Proof.
  induction calls as [|[[now attempts] k'] calls IH];
    intros st st2 pre post Hsize Hm Hpre Hlen; simpl.
  - intros [= <-]. by rewrite Hm, cache_get_app, cache_get_here.
  - destruct (getBlockWithCache now attempts k' st) as [[st1 r]|] eqn:E;
      [|done].
    assert (Hsize1 : cache_size (blockCache st1) ≤ 101).
    { apply (lookups_size [(now, attempts, k')] st st1); [done|].
      simpl. by rewrite E. }
    apply getBlockWithCache_cache in E as [E|(Hmiss & b' & E)].
    + apply (IH st1 st2 pre post); [done|by rewrite E|done|].
      rewrite E. simpl in Hlen. lia.
    + unfold evictOldest in E.
      destruct (cache_size (blockCache st) >? 100) eqn:Ef.
      * unfold cache_size in *. simpl in Hlen.
        destruct pre as [|p pre]; simpl in Hlen; [lia|].
        rewrite Hm in E. simpl in E.
        apply (IH st1 st2 pre (post ++ [(k', b')])); [done| | |].
        -- rewrite E. by rewrite <- (assoc_L (++)).
        -- destruct p as [kp bp]. simpl in Hpre.
           by destruct (kp =? k).
        -- rewrite E, length_app. simpl. rewrite Hm in Hlen.
           rewrite length_app in *. simpl in *. lia.
      * apply (IH st1 st2 pre (post ++ [(k', b')])); [done| |done|].
        -- rewrite E, Hm. by rewrite <- (assoc_L (++)).
        -- rewrite E, length_app. simpl. simpl in Hlen. lia.
Qed.

Lemma cache_hit now attempts k st b :
  cache_get k (blockCache st) = Some b →
  getBlockWithCache now attempts k st = Some (st, Some b).
Proof.
  intros H. unfold getBlockWithCache, cache_has. by rewrite H.
Qed.

(** A block that a lookup fetched and cached is served from the cache,
    without a fetch and without a change of state, by every lookup of its
    number that follows at most 100 other lookups, whatever those ask for
    and whatever the provider answers them. *)
Theorem fetched_block_served_from_cache
    now attempts k st st1 b calls st2 now' attempts' :
  cache_size (blockCache st) ≤ 101 →
  cache_get k (blockCache st) = None →
  getBlockWithCache now attempts k st = Some (st1, Some b) →
  cache_get k (blockCache st1) = Some b →
  lookups calls st1 = Some st2 →
  (length calls ≤ 100)%nat →
  getBlockWithCache now' attempts' k st2 = Some (st2, Some b).
Proof.
  intros Hsize Hmiss Hcall Hcached Hcalls Hlen.
  apply cache_hit.
  assert (Hsize1 : cache_size (blockCache st1) ≤ 101).
  { apply (lookups_size [(now, attempts, k)] st st1); [done|].
    simpl. by rewrite Hcall. }
  apply getBlockWithCache_cache in Hcall as [E|(_ & b' & E)].
  { rewrite E in Hcached. congruence. }
  pose proof (cache_get_evict k _ Hmiss) as Hev.
  assert (b' = b) as ->.
  { rewrite E, cache_get_app, cache_get_here in Hcached by done. congruence. }
  apply (lookups_keep k b calls st1 st2 (evictOldest (blockCache st)) []);
    [done|done|done| |done].
  rewrite E, length_app. simpl. lia.
Qed.

Lemma fetched_block_served_from_cache_witness :
  let block := {| number := 500; timestamp := 1700000000; hash := "0x7" |} in
  ∃ st1 st2,
    getBlockWithCache 5 [RateLimited; Fetched (Some block)] 500 initialScanner
    = Some (st1, Some block)
    ∧ lookups (freshLookups 100) st1 = Some st2
    ∧ cache_size (blockCache st2) = 101
    ∧ getBlockWithCache 9 [Failed] 500 st2 = Some (st2, Some block).
Proof.
  intros block. eexists _, _.
  split; [vm_compute; reflexivity|]. split; [vm_compute; reflexivity|].
  split; [vm_compute; reflexivity|].
  eapply (fetched_block_served_from_cache 5
            [RateLimited; Fetched (Some block)] 500 initialScanner _ block
            (freshLookups 100)).
  - vm_compute. discriminate.
  - vm_compute; reflexivity.
  - vm_compute; reflexivity.
  - vm_compute; reflexivity.
  - vm_compute; reflexivity.
  - vm_compute. lia.
Defined.

Lemma fetchLoop_null k n : ∀ retries m,
  0 < retries →
  fetchLoop k (replicate n (Fetched None)) retries m = None.
Proof.
  induction n as [|n IH]; intros retries m Hr; simpl;
    destruct (retries >? 0) eqn:E; try done; try lia.
  by apply IH.
Qed.

(** A [null] answer of the provider does not count as a retry: on a cache
    miss, however many times the provider answers [null], the retry loop
    of [getBlockWithCache] is still asking. *)
Theorem getBlockWithCache_null_answers_never_end now k st n :
  cache_get k (blockCache st) = None →
  getBlockWithCache now (replicate n (Fetched None)) k st = None.
Proof.
  intros Hmiss. unfold getBlockWithCache, cache_has. rewrite Hmiss.
  by rewrite fetchLoop_null.
Qed.

Lemma getBlockWithCache_null_answers_never_end_witness :
  cache_get 7 (blockCache initialScanner) = None
  ∧ getBlockWithCache 5 (replicate 1000 (Fetched None)) 7 initialScanner = None.
Proof.
  split; [reflexivity|].
  apply (getBlockWithCache_null_answers_never_end 5 7 initialScanner 1000).
  reflexivity.
Defined.

Lemma fetchLoop_decides k : ∀ attempts retries m,
  0 ≤ retries →
  Forall (λ a, answeredNull a = false) (take (Z.to_nat retries) attempts) →
  (Z.to_nat retries ≤ length attempts)%nat →
  fetchLoop k attempts retries m
  = Some match List.find decisive (take (Z.to_nat retries) attempts) with
         | Some (Fetched (Some block)) =>
             (cacheBlock k block m, inr (Some block))
         | Some _ => (m, inl ())
         | None => (m, inr None)
         end.
Proof.
  induction attempts as [|a attempts IH]; intros retries m Hr Hnull Hlen.
  - simpl in Hlen. assert (retries = 0) as -> by lia. done.
  - destruct (decide (retries = 0)) as [->|Hpos]; [done|].
    assert (Z.to_nat retries = S (Z.to_nat (retries - 1))) as Hs by lia.
    rewrite Hs in Hnull, Hlen |- *. simpl in Hnull, Hlen |- *.
    apply Forall_cons in Hnull as [Ha Hnull].
    destruct (retries >? 0) eqn:E; [|lia].
    destruct a as [[block|]| |]; simpl in *; try done.
    apply IH; [lia|done|lia].
Qed.

(** On a cache miss the retry loop ends within three answers of the
    provider unless one of them is [null]: the first answer that is not a
    rate-limit error decides.  A block is cached, oldest entry dropped
    first when the cache is full, and returned; another error is answered
    by a made-up block stamped with the clock, which is not cached; three
    rate-limit errors give no block.  The time of the request is recorded
    in every case. *)
Theorem getBlockWithCache_retry_outcome now attempts k st :
  cache_get k (blockCache st) = None →
  Forall (λ a, answeredNull a = false) (take 3 attempts) →
  (3 ≤ length attempts)%nat →
  getBlockWithCache now attempts k st
  = Some match List.find decisive (take 3 attempts) with
         | Some (Fetched (Some block)) =>
             ({| blockCache := evictOldest (blockCache st) ++ [(k, block)];
                 lastRequestTime := now |}, Some block)
         | Some _ =>
             ({| blockCache := blockCache st; lastRequestTime := now |},
              Some (fallbackBlock k now))
         | None =>
             ({| blockCache := blockCache st; lastRequestTime := now |}, None)
         end.
Proof.
  intros Hmiss Hnull Hlen. unfold getBlockWithCache, cache_has.
  rewrite Hmiss. rewrite (fetchLoop_decides k attempts 3); [|lia|done|done].
  change (Z.to_nat 3) with 3%nat.
  destruct (List.find decisive (take 3 attempts)) as [[[block|]| |]|];
    try done.
  by rewrite cacheBlock_fifo.
Qed.

Lemma getBlockWithCache_retry_outcome_witness :
  getBlockWithCache 61500 [RateLimited; Failed; RateLimited] 7 initialScanner
  = Some ({| blockCache := []; lastRequestTime := 61500 |},
          Some {| number := 7; timestamp := 61; hash := "0x0" |}).
Proof.
  rewrite (getBlockWithCache_retry_outcome 61500
             [RateLimited; Failed; RateLimited] 7 initialScanner);
    [reflexivity|reflexivity|repeat constructor|simpl; lia].
Defined.

(** * Further properties of the Move-chain parser *)

Lemma append_nonempty_r a b : b ≠ "" → a +:+ b ≠ "".
Proof. destruct a; [done|]. by intros _. Qed.

Lemma toString_or_val_nonempty v d :
  d ≠ "" → Js.toString (Js.or_val (Js.pop v) (Js.JStr d)) ≠ "".
Proof.
  intros Hd. unfold Js.or_val, Js.pop.
  destruct (last v) as [s|]; simpl; [|done].
  destruct s; simpl; done.
Qed.

Lemma decodeShape_named ev symbol name address :
  decodeShape ev = Some (symbol, name, address) →
  symbol ≠ "" ∧ name ≠ "".
Proof.
  unfold decodeShape.
  destruct (shapeOf ev); intros H; simplify_option_eq.
  - split; by apply append_nonempty_r.
  - split; by apply append_nonempty_r.
  - split; by apply toString_or_val_nonempty.
  - done.
  - destruct (3 <=? _); simplify_option_eq; [|done].
    split; by apply append_nonempty_r.
  - done.
Qed.

(** Every record [parseSuiEvent] returns is on [sui], has a non-empty
    identifier, symbol and name and a truthy address, so [filterNewPairs]
    keeps it.  Its launch time is the date of the event's timestamp string,
    and the date of the clock for an event without one; where [Date] does
    not parse the timestamp string, the record carries an invalid launch
    time. *)
Theorem parseSuiEvent_record_kept dateParse now later ev c :
  parseSuiEvent dateParse now later ev = Some c →
  CoinData.network c = sui
  ∧ CoinData.id c ≠ ""
  ∧ CoinData.symbol c ≠ ""
  ∧ CoinData.name c ≠ ""
  ∧ Js.truthy (CoinData.contractAddress c) = true
  ∧ CoinData.launchTime c = eventDate dateParse now ev
  ∧ (∀ t, timestampMs ev = Some t → t ≠ "" → dateParse t = None →
          ¬ validLaunch c)
  ∧ MonitoringService.filterNewPairs Js.truthy [c] = [c].
Proof.
  unfold parseSuiEvent.
  destruct (decodeShape ev) as [[[symbol name] address]|] eqn:E; [|done].
  destruct (Js.truthy address) eqn:Ht; [|done]. simpl.
  intros [= <-]. simpl.
  apply decodeShape_named in E as [Hs Hn].
  assert (match timestampMs ev with
          | Some t => if Js.truthy_str t then dateParse t else Some now
          | None => Some now
          end = eventDate dateParse now ev) as Hdate.
  { unfold eventDate. destruct (timestampMs ev) as [[|a t]|]; done. }
  repeat split; try done.
  - by apply append_nonempty_r.
  - intros t Et Hne Hparse [ms Hms]. unfold validLaunch in *. simpl in Hms.
    rewrite Et in Hms. destruct t; [done|]. simpl in Hms.
    unfold Js.getTime, Js.Date_HasTime in Hms. simpl in Hms. congruence.
  - unfold MonitoringService.filterNewPairs. simpl. rewrite Ht.
    by destruct symbol, name.
Qed.

Lemma parseSuiEvent_record_kept_witness :
  ∃ c,
    parseSuiEvent digitsUnparsed 1700000000500 1700000000501
      (suiEvent "9xK4Qd7Lm2" "0x1eab::factory::PoolCreatedEvent"
         tokenPairPayload) = Some c
    ∧ CoinData.symbol c = "SUI/USDC"
    ∧ CoinData.id c ≠ ""
    ∧ CoinData.launchTime c = None
    ∧ MonitoringService.filterNewPairs Js.truthy [c] = [c].
Proof.
  eexists. split; [vm_compute; reflexivity|]. split; [reflexivity|].
  edestruct (parseSuiEvent_record_kept digitsUnparsed 1700000000500
               1700000000501
               (suiEvent "9xK4Qd7Lm2" "0x1eab::factory::PoolCreatedEvent"
                  tokenPairPayload)) as (_ & H1 & _ & _ & _ & H2 & _ & H3);
    [vm_compute; reflexivity|].
  split; [exact H1|]. split; [exact H2|exact H3].
Defined.

(** * Further properties of the publication passes *)

Lemma postCoinTweets_refused tweet now selected db :
  (∀ c, tweetRefused (tweet c)) →
  TweetService.postCoinTweets tweet now selected db = db.
Proof.
  intros Href. induction selected as [|c rest IH]; simpl; [done|].
  specialize (Href c). unfold tweetRefused in Href.
  destruct (answer (tweet c)) as [tweetId|]; [|done].
  by rewrite Href.
Qed.

Lemma postNewsTweets_refused tweet now selected db :
  (∀ n, tweetRefused (tweet n)) →
  TweetService.postNewsTweets tweet now selected db = db.
Proof.
  intros Href. induction selected as [|n rest IH]; simpl; [done|].
  specialize (Href n). unfold tweetRefused in Href.
  destruct (answer (tweet n)) as [tweetId|]; [|done].
  by rewrite Href.
Qed.

Lemma sendMessage_refused client a :
  enabled client = false ∨ messageRefused a →
  match TelegramService.sendMessage client (answer a) with
  | Some messageId => TelegramService.truthy_id messageId = false
  | None => True
  end.
Proof.
  unfold TelegramService.sendMessage, messageRefused.
  intros [->|H]; [done|].
  destruct (enabled client); [|done].
  destruct (answer a) as [messageId|]; [|done]. by subst.
Qed.

Lemma postCoinMessages_refused client message now selected db :
  (∀ c, enabled client = false ∨ messageRefused (message c)) →
  TelegramService.postCoinMessages client message now selected db = db.
Proof.
  intros Href. induction selected as [|c rest IH]; simpl; [done|].
  pose proof (sendMessage_refused client (message c) (Href c)) as H.
  destruct (TelegramService.sendMessage _ _) as [messageId|]; [|done].
  by rewrite H.
Qed.

Lemma postNewsMessages_refused client message now selected db :
  (∀ n, enabled client = false ∨ messageRefused (message n)) →
  TelegramService.postNewsMessages client message now selected db = db.
Proof.
  intros Href. induction selected as [|n rest IH]; simpl; [done|].
  pose proof (sendMessage_refused client (message n) (Href n)) as H.
  destruct (TelegramService.sendMessage _ _) as [messageId|]; [|done].
  by rewrite H.
Qed.

Lemma run_refused client a db : allRefused client a → run client a db = db.
Proof.
  destruct a as [ct nt now|cm nm now|m now| |]; simpl; try done.
  - intros [Hc Hn]. unfold TweetService.processPendingTweets,
      TweetService.processNewsTweets, TweetService.processNewCoinTweets.
    by rewrite postCoinTweets_refused, postNewsTweets_refused.
  - intros H. unfold TelegramService.processPendingMessages.
    destruct (enabled client) eqn:E; [|done]. simpl.
    destruct H as [|[Hc Hn]]; [done|].
    unfold TelegramService.processNewsMessages,
      TelegramService.processNewCoinMessages.
    rewrite postCoinMessages_refused by (intros; right; apply Hc).
    by rewrite postNewsMessages_refused by (intros; right; apply Hn).
  - intros H. unfold TelegramService.processGroupNews.
    destruct (negb _); [done|].
    destruct (TelegramService.newsToPost client db) as [item|]; [|done].
    assert (enabled client = false ∨ messageRefused (m item)) as Hi.
    { destruct H; [by left|by right]. }
    apply sendMessage_refused in Hi.
    destruct (TelegramService.sendMessage _ _) as [messageId|]; [|done].
    by rewrite Hi.
Qed.

(** A publishing pass none of whose sends goes through (the platform
    answers [null], an empty tweet identifier or a zero message
    identifier, or the Telegram client is disabled) leaves the database as
    it was: no record is written and no flag is set, so the same items are
    selected again by the next pass. *)
Theorem refused_sends_change_nothing client a db :
  allRefused client a →
  run client a db = db
  ∧ ∀ dest, selection client (run client a db) dest = selection client db dest.
Proof.
  intros H. rewrite (run_refused client a db H). by split.
Qed.

Lemma refused_sends_change_nothing_witness :
  selection demoClient demoSaved Twitter = [CoinRef "0xabc1-7"; NewsRef "n1"]
  ∧ run demoClient (RunTweets tweetFails tweetFails 5000) demoSaved = demoSaved
  ∧ ∀ dest,
      selection demoClient
        (run demoClient (RunTweets tweetFails tweetFails 5000) demoSaved) dest
      = selection demoClient demoSaved dest.
Proof.
  split; [vm_compute; reflexivity|].
  apply (refused_sends_change_nothing demoClient
           (RunTweets tweetFails tweetFails 5000) demoSaved).
  simpl. split; intros; exact I.
Defined.

Lemma fmap_flag_false {X D : Type} (f : X → D) (flag : X → bool)
    (l l' : list X) :
  (∀ x y, f x = f y → flag x = flag y) →
  f <$> l' = f <$> l →
  Forall (λ x, flag x = false) l → Forall (λ x, flag x = false) l'.
Proof.
  intros Hf Heq%fmap_eq_Forall2.
  induction Heq as [|x y l' l Hxy _ IH]; [done|].
  intros [Hy Hl]%Forall_cons. constructor; [|by apply IH].
  by rewrite (Hf x y Hxy).
Qed.

Lemma disabled_invariant client db :
  enabled client = false →
  reachable client db →
  telegramMessages db = []
  ∧ Forall (λ c, Coin.isTelegramPosted c = false) (coins db)
  ∧ Forall (λ n, News.isTelegramPosted n = false) (newsColl db).
Proof.
  intros Hoff. induction 1 as [|a db Hreach (Hm & Hc & Hn)].
  - repeat split; constructor.
  - destruct a as [ct nt now|cm nm now|m now|clock coinList|clock newsItems].
    + destruct (twitterFrame_fields _ _
                  (twitterFrame_processPendingTweets ct nt now db))
        as (Hc' & Hn' & Hm').
      simpl. repeat split.
      * by rewrite Hm'.
      * apply (fmap_flag_false coinT Coin.isTelegramPosted (coins db));
          [by intros x y [= _ ? _]|done..].
      * apply (fmap_flag_false newsT News.isTelegramPosted (newsColl db));
          [by intros x y [= _ ? _]|done..].
    + rewrite run_refused; [done|]. by left.
    + rewrite run_refused; [done|]. by left.
    + simpl. repeat split; [done| |done].
      destruct (saveNewCoinsFrom_kept clock coinList (coins db) 0)
        as (kept & _ & Hout & _).
      unfold saveNewCoins. rewrite Hout. apply Forall_app. split; [done|].
      apply Forall_fmap, Forall_true. by intros x.
    + simpl. repeat split; [done|done|].
      destruct (saveNewsFrom_kept clock newsItems (newsColl db) 0 0)
        as (kept & _ & Hout & _).
      unfold saveNews. rewrite Hout. apply Forall_app. split; [done|].
      apply Forall_fmap, Forall_true. by intros x.
Qed.

(** With a disabled Telegram client no state the system reaches holds a
    Telegram message record or an item flagged as posted on Telegram,
    whatever tasks run and whatever the platforms answer; nothing is ever
    posted to the channel or to the group. *)
Theorem disabled_client_never_records client db :
  enabled client = false →
  reachable client db →
  telegramMessages db = []
  ∧ Forall (λ c, Coin.isTelegramPosted c = false) (coins db)
  ∧ Forall (λ n, News.isTelegramPosted n = false) (newsColl db)
  ∧ ∀ item dest,
      dest ≠ Twitter → publicationCount client db item dest = 0%nat.
Proof.
  intros Hoff Hreach.
  destruct (disabled_invariant client db Hoff Hreach) as (Hm & Hc & Hn).
  repeat split; [done..|].
  intros item [| |] Hd; [done|..]; simpl; by rewrite Hm.
Qed.

Lemma disabled_client_never_records_witness :
  let db :=
    runAll disabledClient (demoSaves ++ demoLater) emptyDb in
  length (tweets db) = 2%nat
  ∧ telegramMessages db = []
  ∧ Forall (λ c, Coin.isTelegramPosted c = false) (coins db)
  ∧ Forall (λ n, News.isTelegramPosted n = false) (newsColl db)
  ∧ ∀ item dest,
      dest ≠ Twitter → publicationCount disabledClient db item dest = 0%nat.
Proof.
  intros db. split; [vm_compute; reflexivity|].
  apply (disabled_client_never_records disabledClient db); [reflexivity|].
  apply reachable_runAll, reachable_empty.
Defined.

Lemma Tweet_save_content t coll coll' :
  Tweet.save t coll = Some coll' → Tweet.content t ≠ "".
Proof.
  unfold Tweet.save. destruct (Tweet.content t); [done|]. by intros _.
Qed.

Lemma TelegramMessage_save_content m coll coll' :
  TelegramMessage.save m coll = Some coll' → TelegramMessage.content m ≠ "".
Proof.
  unfold TelegramMessage.save.
  destruct (TelegramMessage.content m); [done|]. by intros _.
Qed.

Lemma truthy_id_nonzero messageId :
  TelegramService.truthy_id messageId = true → messageId ≠ 0.
Proof. unfold TelegramService.truthy_id. intros H ->. done. Qed.

Lemma postCoinTweets_written tweet now selected : ∀ db,
  ∃ written,
    tweets (TweetService.postCoinTweets tweet now selected db)
    = tweets db ++ written
    ∧ (length written ≤ length selected)%nat
    ∧ Forall (tweetRecord launch) written.
Proof.
  induction selected as [|c rest IH]; intros db; simpl.
  - exists []. by rewrite app_nil_r.
  - assert (Hskip : ∃ written,
      tweets (TweetService.postCoinTweets tweet now rest db)
      = tweets db ++ written
      ∧ (length written ≤ S (length rest))%nat
      ∧ Forall (tweetRecord launch) written).
    { destruct (IH db) as (w & ? & ? & ?). exists w.
      repeat split; [done|lia|done]. }
    destruct (answer (tweet c)) as [tweetId|]; [|done].
    destruct (Js.truthy_str tweetId) eqn:Et; [|done].
    destruct (Tweet.save _ (tweets db)) as [tweets1|] eqn:Es; [|done].
    pose proof (Tweet_save_content _ _ _ Es) as Hc.
    apply Tweet_save_some in Es as ->.
    edestruct IH as (w & -> & Hl & Hw). simpl.
    eexists (_ :: w). rewrite <- (assoc_L (++)). split; [done|].
    split; [simpl; lia|]. constructor; [|done].
    repeat split; try done.
    exists tweetId. split; [done|]. by apply truthy_str_nonempty.
Qed.

Lemma postNewsTweets_written tweet now selected : ∀ db,
  ∃ written,
    tweets (TweetService.postNewsTweets tweet now selected db)
    = tweets db ++ written
    ∧ (length written ≤ length selected)%nat
    ∧ Forall (tweetRecord news) written.
Proof.
  induction selected as [|c rest IH]; intros db; simpl.
  - exists []. by rewrite app_nil_r.
  - assert (Hskip : ∃ written,
      tweets (TweetService.postNewsTweets tweet now rest db)
      = tweets db ++ written
      ∧ (length written ≤ S (length rest))%nat
      ∧ Forall (tweetRecord news) written).
    { destruct (IH db) as (w & ? & ? & ?). exists w.
      repeat split; [done|lia|done]. }
    destruct (answer (tweet c)) as [tweetId|]; [|done].
    destruct (Js.truthy_str tweetId) eqn:Et; [|done].
    destruct (Tweet.save _ (tweets db)) as [tweets1|] eqn:Es; [|done].
    pose proof (Tweet_save_content _ _ _ Es) as Hc.
    apply Tweet_save_some in Es as ->.
    edestruct IH as (w & -> & Hl & Hw). simpl.
    eexists (_ :: w). rewrite <- (assoc_L (++)). split; [done|].
    split; [simpl; lia|]. constructor; [|done].
    repeat split; try done.
    exists tweetId. split; [done|]. by apply truthy_str_nonempty.
Qed.

Lemma postCoinMessages_written client message now selected : ∀ db,
  ∃ written,
    telegramMessages
      (TelegramService.postCoinMessages client message now selected db)
    = telegramMessages db ++ written
    ∧ (length written ≤ length selected)%nat
    ∧ Forall (messageRecord client launch) written.
Proof.
  induction selected as [|c rest IH]; intros db; simpl.
  - exists []. by rewrite app_nil_r.
  - assert (Hskip : ∃ written,
      telegramMessages
        (TelegramService.postCoinMessages client message now rest db)
      = telegramMessages db ++ written
      ∧ (length written ≤ S (length rest))%nat
      ∧ Forall (messageRecord client launch) written).
    { destruct (IH db) as (w & ? & ? & ?). exists w.
      repeat split; [done|lia|done]. }
    destruct (TelegramService.sendMessage _ _) as [messageId|]; [|done].
    destruct (TelegramService.truthy_id messageId) eqn:Et; [|done].
    destruct (TelegramMessage.save _ (telegramMessages db))
      as [messages1|] eqn:Es; [|done].
    pose proof (TelegramMessage_save_content _ _ _ Es) as Hc.
    apply TelegramMessage_save_some in Es as ->.
    edestruct IH as (w & -> & Hl & Hw). simpl.
    eexists (_ :: w). rewrite <- (assoc_L (++)). split; [done|].
    split; [simpl; lia|]. constructor; [|done].
    repeat split; try done.
    exists messageId. split; [done|]. by apply truthy_id_nonzero.
Qed.

Lemma postNewsMessages_written client message now selected : ∀ db,
  ∃ written,
    telegramMessages
      (TelegramService.postNewsMessages client message now selected db)
    = telegramMessages db ++ written
    ∧ (length written ≤ length selected)%nat
    ∧ Forall (messageRecord client news) written.
Proof.
  induction selected as [|c rest IH]; intros db; simpl.
  - exists []. by rewrite app_nil_r.
  - assert (Hskip : ∃ written,
      telegramMessages
        (TelegramService.postNewsMessages client message now rest db)
      = telegramMessages db ++ written
      ∧ (length written ≤ S (length rest))%nat
      ∧ Forall (messageRecord client news) written).
    { destruct (IH db) as (w & ? & ? & ?). exists w.
      repeat split; [done|lia|done]. }
    destruct (TelegramService.sendMessage _ _) as [messageId|]; [|done].
    destruct (TelegramService.truthy_id messageId) eqn:Et; [|done].
    destruct (TelegramMessage.save _ (telegramMessages db))
      as [messages1|] eqn:Es; [|done].
    pose proof (TelegramMessage_save_content _ _ _ Es) as Hc.
    apply TelegramMessage_save_some in Es as ->.
    edestruct IH as (w & -> & Hl & Hw). simpl.
    eexists (_ :: w). rewrite <- (assoc_L (++)). split; [done|].
    split; [simpl; lia|]. constructor; [|done].
    repeat split; try done.
    exists messageId. split; [done|]. by apply truthy_id_nonzero.
Qed.

(** A Twitter pass writes at most two launch tweets followed by at most
    one news tweet, and a channel pass at most two launch messages followed
    by at most one news message; every record written carries a non-empty
    content, the identifier the platform answered and the reference to its
    one item, and is marked as posted. *)
Theorem passes_are_rate_limited client coinTweet newsTweet coinMessage
    newsMessage now db :
  (∃ launches stories,
     tweets (TweetService.processPendingTweets coinTweet newsTweet now db)
     = tweets db ++ launches ++ stories
     ∧ (length launches ≤ 2)%nat ∧ (length stories ≤ 1)%nat
     ∧ Forall (tweetRecord launch) launches
     ∧ Forall (tweetRecord news) stories)
  ∧ (∃ launches stories,
       telegramMessages
         (TelegramService.processPendingMessages client coinMessage
            newsMessage now db)
       = telegramMessages db ++ launches ++ stories
       ∧ (length launches ≤ 2)%nat ∧ (length stories ≤ 1)%nat
       ∧ Forall (messageRecord client launch) launches
       ∧ Forall (messageRecord client news) stories).
Proof.
  split.
  - unfold TweetService.processPendingTweets, TweetService.processNewsTweets,
      TweetService.processNewCoinTweets.
    destruct (postCoinTweets_written coinTweet now
                (TweetService.unpostedCoins db) db) as (l & Hl & Hll & Hlr).
    set (db1 := TweetService.postCoinTweets coinTweet now
                  (TweetService.unpostedCoins db) db) in *.
    destruct (postNewsTweets_written newsTweet now
                (TweetService.unpostedNews db1) db1) as (s & Hs & Hsl & Hsr).
    exists l, s. rewrite Hs, Hl, <- (assoc_L (++)).
    unfold TweetService.unpostedCoins in Hll.
    unfold TweetService.unpostedNews in Hsl.
    rewrite length_take in Hll. rewrite length_take in Hsl.
    repeat split; [lia|lia|done|done].
  - unfold TelegramService.processPendingMessages.
    destruct (negb (enabled client)).
    { exists [], []. rewrite !app_nil_r.
      repeat split; [simpl; lia|simpl; lia|constructor|constructor]. }
    unfold TelegramService.processNewsMessages,
      TelegramService.processNewCoinMessages.
    destruct (postCoinMessages_written client coinMessage now
                (TelegramService.unpostedCoins db) db) as (l & Hl & Hll & Hlr).
    set (db1 := TelegramService.postCoinMessages client coinMessage now
                  (TelegramService.unpostedCoins db) db) in *.
    destruct (postNewsMessages_written client newsMessage now
                (TelegramService.unpostedNews db1) db1)
      as (s & Hs & Hsl & Hsr).
    exists l, s. rewrite Hs, Hl, <- (assoc_L (++)).
    unfold TelegramService.unpostedCoins in Hll.
    unfold TelegramService.unpostedNews in Hsl.
    rewrite length_take in Hll. rewrite length_take in Hsl.
    repeat split; [lia|lia|done|done].
Qed.

Lemma selected_stored {X : Type} (key : X → Z) (P : X → Prop)
    `{!∀ x, Decision (P x)} (n : nat) (l : list X) x :
  x ∈ take n (Js.sortDesc key (filter P l)) → x ∈ l.
Proof.
  intros Hx.
  eapply elem_of_sublist in Hx; [|apply sublist_take].
  rewrite sortDesc_perm in Hx. by apply list_elem_of_filter in Hx as [_ ?].
Qed.

Lemma postCoinTweets_newsColl tweet now selected : ∀ db,
  newsColl (TweetService.postCoinTweets tweet now selected db) = newsColl db.
Proof.
  induction selected as [|c rest IH]; intros db; simpl; [done|].
  rewrite IH. destruct (answer (tweet c)) as [tweetId|]; [|done].
  destruct (Js.truthy_str tweetId); [|done].
  by destruct (Tweet.save _ _).
Qed.

Lemma Coin_update_ids g k coll :
  (∀ c, Coin.id (g c) = Coin.id c) →
  Coin.id <$> Coin.update g k coll = Coin.id <$> coll.
Proof.
  intros Hg. unfold Coin.update. rewrite <- list_fmap_compose.
  apply list_fmap_ext. intros i c _. simpl. by case_bool_decide.
Qed.

Lemma News_update_ids g k coll :
  (∀ n, News.id (g n) = News.id n) →
  News.id <$> News.update g k coll = News.id <$> coll.
Proof.
  intros Hg. unfold News.update. rewrite <- list_fmap_compose.
  apply list_fmap_ext. intros i c _. simpl. by case_bool_decide.
Qed.

Lemma count_snoc_tweet item t l :
  tweetIs item t → (1 ≤ length (filter (tweetIs item) (l ++ [t])))%nat.
Proof.
  intros Ht. rewrite filter_app, length_app, filter_cons_True by done.
  simpl. lia.
Qed.

Lemma postCoinTweets_accepted client tweet now :
  (∀ c, tweetAccepted (tweet c)) →
  ∀ selected db,
    (∀ c, c ∈ selected → Coin.id c ∈ Coin.id <$> coins db) →
    ∀ c, c ∈ selected →
      let db' := TweetService.postCoinTweets tweet now selected db in
      posted client db' (CoinRef (Coin.id c)) Twitter
      ∧ (1 ≤ publicationCount client db' (CoinRef (Coin.id c)) Twitter)%nat.
Proof.
  intros Hacc selected.
  induction selected as [|c0 rest IH]; intros db Hids c Hin;
    [by apply elem_of_nil in Hin|].
  simpl. destruct (Hacc c0) as (Hr & tweetId & Ha & Hid).
  rewrite Ha. destruct tweetId as [|ch tweetId]; [done|]. simpl.
  unfold Tweet.save. simpl.
  destruct (rendered (tweet c0)) as [|ch' content] eqn:Er; [done|]. simpl.
  set (db1 := {| coins := _ |}).
  apply elem_of_cons in Hin as [->|Hin].
  - assert (posted client db1 (CoinRef (Coin.id c0)) Twitter
            ∧ (1 ≤ publicationCount client db1 (CoinRef (Coin.id c0)) Twitter)%nat)
      as [Hp Hn].
    { split.
      - assert (Coin.id c0 ∈ Coin.id <$> coins db)
          as (d & Hd & Hdin)%list_elem_of_fmap by (apply Hids; left).
        exists (Coin.setPosted (savedAt (tweet c0)) d). split; [|by rewrite Hd].
        simpl. unfold Coin.update. apply list_elem_of_fmap.
        exists d. by rewrite bool_decide_eq_true_2.
      - by apply count_snoc_tweet. }
    pose proof (evolves_postCoinTweets tweet now rest db1) as Hev.
    split;
      [exact (posted_evolves client db1 _ (CoinRef (Coin.id c0)) Twitter Hev Hp)|].
    etrans; [exact Hn|].
    exact (publicationCount_evolves client db1 _ (CoinRef (Coin.id c0)) Twitter
             Hev).
  - apply IH; [|done]. intros c' Hc'. simpl.
    rewrite Coin_update_ids by done. apply Hids. by right.
Qed.

Lemma postNewsTweets_accepted client tweet now :
  (∀ n, tweetAccepted (tweet n)) →
  ∀ selected db,
    (∀ n, n ∈ selected → News.id n ∈ News.id <$> newsColl db) →
    ∀ n, n ∈ selected →
      let db' := TweetService.postNewsTweets tweet now selected db in
      posted client db' (NewsRef (News.id n)) Twitter
      ∧ (1 ≤ publicationCount client db' (NewsRef (News.id n)) Twitter)%nat.
Proof.
  intros Hacc selected.
  induction selected as [|c0 rest IH]; intros db Hids c Hin;
    [by apply elem_of_nil in Hin|].
  simpl. destruct (Hacc c0) as (Hr & tweetId & Ha & Hid).
  rewrite Ha. destruct tweetId as [|ch tweetId]; [done|]. simpl.
  unfold Tweet.save. simpl.
  destruct (rendered (tweet c0)) as [|ch' content] eqn:Er; [done|]. simpl.
  set (db1 := {| coins := _ |}).
  apply elem_of_cons in Hin as [->|Hin].
  - assert (posted client db1 (NewsRef (News.id c0)) Twitter
            ∧ (1 ≤ publicationCount client db1 (NewsRef (News.id c0)) Twitter)%nat)
      as [Hp Hn].
    { split.
      - assert (News.id c0 ∈ News.id <$> newsColl db)
          as (d & Hd & Hdin)%list_elem_of_fmap by (apply Hids; left).
        exists (News.setPosted (savedAt (tweet c0)) d). split; [|by rewrite Hd].
        simpl. unfold News.update. apply list_elem_of_fmap.
        exists d. by rewrite bool_decide_eq_true_2.
      - by apply count_snoc_tweet. }
    pose proof (evolves_postNewsTweets tweet now rest db1) as Hev.
    split;
      [exact (posted_evolves client db1 _ (NewsRef (News.id c0)) Twitter Hev Hp)|].
    etrans; [exact Hn|].
    exact (publicationCount_evolves client db1 _ (NewsRef (News.id c0)) Twitter
             Hev).
  - apply IH; [|done]. intros c' Hc'. simpl.
    rewrite News_update_ids by done. apply Hids. by right.
Qed.

(** When Twitter accepts every tweet of a pass, every item the pass
    selected is published by it: the item's posted state is set, exactly
    one tweet is recorded for it, and the next pass does not select it.
    This holds however the Telegram client is configured. *)
Theorem accepted_tweets_publish_selection client coinTweet newsTweet now db
    item :
  reachable client db →
  (∀ c, tweetAccepted (coinTweet c)) →
  (∀ n, tweetAccepted (newsTweet n)) →
  item ∈ selection client db Twitter →
  let db' := run client (RunTweets coinTweet newsTweet now) db in
  posted client db' item Twitter
  ∧ publicationCount client db' item Twitter = 1%nat
  ∧ item ∉ selection client db' Twitter.
Proof.
  intros Hreach Hc Hn Hsel db'.
  assert (Hinv : Inv client db').
  { apply Inv_run. by apply Inv_reachable. }
  assert (posted client db' item Twitter
          ∧ (1 ≤ publicationCount client db' item Twitter)%nat) as [Hp Hk].
  { subst db'. simpl. unfold TweetService.processPendingTweets,
      TweetService.processNewsTweets, TweetService.processNewCoinTweets.
    set (db1 := TweetService.postCoinTweets coinTweet now
                  (TweetService.unpostedCoins db) db).
    simpl in Hsel. apply elem_of_app in Hsel as [Hsel|Hsel].
    - apply list_elem_of_fmap in Hsel as (c & -> & Hin). simpl.
      destruct (postCoinTweets_accepted client coinTweet now Hc
                  (TweetService.unpostedCoins db) db) with (c := c)
        as [Hp Hk]; [|done|].
      { intros c' Hc'. apply list_elem_of_fmap. exists c'. split; [done|].
        by eapply selected_stored. }
      pose proof (evolves_postNewsTweets newsTweet now
                    (TweetService.unpostedNews db1) db1) as Hev.
      split;
        [exact (posted_evolves client db1 _ (CoinRef (Coin.id c)) Twitter Hev Hp)|].
      etrans; [exact Hk|].
      exact (publicationCount_evolves client db1 _ (CoinRef (Coin.id c)) Twitter
               Hev).
    - apply list_elem_of_fmap in Hsel as (n & -> & Hin). simpl.
      assert (Hcoll : newsColl db1 = newsColl db)
        by apply postCoinTweets_newsColl.
      assert (Hun : TweetService.unpostedNews db1 = TweetService.unpostedNews db).
      { unfold TweetService.unpostedNews. by rewrite Hcoll. }
      apply (postNewsTweets_accepted client newsTweet now Hn
               (TweetService.unpostedNews db1) db1); [|by rewrite Hun].
      intros n' Hn'. apply list_elem_of_fmap. exists n'. split; [done|].
      by eapply selected_stored. }
  split; [done|]. split.
  - pose proof (publicationCount_le_1 client db' item Twitter Hinv
                  (or_introl eq_refl)).
    lia.
  - by apply posted_not_selected.
Qed.

(** A Twitter pass of a deployment whose channel and group are one and the
    same chat. *)
Lemma accepted_tweets_publish_selection_witness :
  let db' :=
    run sharedChatClient (RunTweets (tweetOk "1800") (tweetOk "1801") 5000)
      demoSaved in
  selection sharedChatClient demoSaved Twitter
  = [CoinRef "0xabc1-7"; NewsRef "n1"]
  ∧ posted sharedChatClient db' (NewsRef "n1") Twitter
  ∧ publicationCount sharedChatClient db' (NewsRef "n1") Twitter = 1%nat
  ∧ NewsRef "n1" ∉ selection sharedChatClient db' Twitter.
Proof.
  intros db'. split; [vm_compute; reflexivity|].
  apply (accepted_tweets_publish_selection sharedChatClient (tweetOk "1800")
           (tweetOk "1801") 5000 demoSaved (NewsRef "n1")).
  - exact (reachable_runAll sharedChatClient demoSaves emptyDb
             (reachable_empty _)).
  - intros c. split; [done|]. by exists "1800".
  - intros n. split; [done|]. by exists "1801".
  - vm_compute. apply list_elem_of_further, list_elem_of_here.
Defined.

Lemma postCoinMessages_newsColl client message now selected : ∀ db,
  newsColl (TelegramService.postCoinMessages client message now selected db)
  = newsColl db.
Proof.
  induction selected as [|c rest IH]; intros db; simpl; [done|].
  rewrite IH.
  destruct (TelegramService.sendMessage _ _) as [messageId|]; [|done].
  destruct (TelegramService.truthy_id messageId); [|done].
  by destruct (TelegramMessage.save _ _).
Qed.

Lemma count_snoc_message chat item m l :
  messageIs chat item m →
  (1 ≤ length (filter (messageIs chat item) (l ++ [m])))%nat.
Proof.
  intros Hm. rewrite filter_app, length_app, filter_cons_True by done.
  simpl. lia.
Qed.

Lemma sendMessage_accepted client a :
  enabled client = true → messageAccepted a →
  ∃ messageId,
    TelegramService.sendMessage client (answer a) = Some messageId
    ∧ TelegramService.truthy_id messageId = true
    ∧ Js.truthy_str (rendered a) = true.
Proof.
  intros Hon (Hr & messageId & Ha & Hid). exists messageId.
  unfold TelegramService.sendMessage, TelegramService.truthy_id.
  rewrite Hon, Ha. repeat split.
  - apply negb_true_iff, Z.eqb_neq. done.
  - by destruct (rendered a).
Qed.

Lemma postCoinMessages_accepted client message now :
  enabled client = true →
  (∀ c, messageAccepted (message c)) →
  ∀ selected db,
    (∀ c, c ∈ selected → Coin.id c ∈ Coin.id <$> coins db) →
    ∀ c, c ∈ selected →
      let db' :=
        TelegramService.postCoinMessages client message now selected db in
      posted client db' (CoinRef (Coin.id c)) TelegramChannel
      ∧ (1 ≤ publicationCount client db' (CoinRef (Coin.id c))
               TelegramChannel)%nat.
Proof.
  intros Hon Hacc selected.
  induction selected as [|c0 rest IH]; intros db Hids c Hin;
    [by apply elem_of_nil in Hin|].
  simpl.
  destruct (sendMessage_accepted client (message c0) Hon (Hacc c0))
    as (messageId & -> & -> & Hr).
  unfold TelegramMessage.save. simpl. rewrite Hr.
  set (db1 := {| coins := _ |}).
  apply elem_of_cons in Hin as [->|Hin].
  - assert (posted client db1 (CoinRef (Coin.id c0)) TelegramChannel
            ∧ (1 ≤ publicationCount client db1 (CoinRef (Coin.id c0))
                     TelegramChannel)%nat)
      as [Hp Hn].
    { split.
      - assert (Coin.id c0 ∈ Coin.id <$> coins db)
          as (d & Hd & Hdin)%list_elem_of_fmap by (apply Hids; left).
        exists (Coin.setTelegramPosted (savedAt (message c0)) d).
        split; [|by rewrite Hd].
        simpl. unfold Coin.update. apply list_elem_of_fmap.
        exists d. by rewrite bool_decide_eq_true_2.
      - by apply count_snoc_message. }
    pose proof (evolves_postCoinMessages client message now rest db1) as Hev.
    split;
      [exact (posted_evolves client db1 _ (CoinRef (Coin.id c0))
                TelegramChannel Hev Hp)|].
    etrans; [exact Hn|].
    exact (publicationCount_evolves client db1 _ (CoinRef (Coin.id c0))
             TelegramChannel Hev).
  - apply IH; [|done]. intros c' Hc'. simpl.
    rewrite Coin_update_ids by done. apply Hids. by right.
Qed.

Lemma postNewsMessages_accepted client message now :
  enabled client = true →
  (∀ n, messageAccepted (message n)) →
  ∀ selected db,
    (∀ n, n ∈ selected → News.id n ∈ News.id <$> newsColl db) →
    ∀ n, n ∈ selected →
      let db' :=
        TelegramService.postNewsMessages client message now selected db in
      posted client db' (NewsRef (News.id n)) TelegramChannel
      ∧ (1 ≤ publicationCount client db' (NewsRef (News.id n))
               TelegramChannel)%nat.
Proof.
  intros Hon Hacc selected.
  induction selected as [|c0 rest IH]; intros db Hids c Hin;
    [by apply elem_of_nil in Hin|].
  simpl.
  destruct (sendMessage_accepted client (message c0) Hon (Hacc c0))
    as (messageId & -> & -> & Hr).
  unfold TelegramMessage.save. simpl. rewrite Hr.
  set (db1 := {| coins := _ |}).
  apply elem_of_cons in Hin as [->|Hin].
  - assert (posted client db1 (NewsRef (News.id c0)) TelegramChannel
            ∧ (1 ≤ publicationCount client db1 (NewsRef (News.id c0))
                     TelegramChannel)%nat)
      as [Hp Hn].
    { split.
      - assert (News.id c0 ∈ News.id <$> newsColl db)
          as (d & Hd & Hdin)%list_elem_of_fmap by (apply Hids; left).
        exists (News.setTelegramPosted (savedAt (message c0)) d).
        split; [|by rewrite Hd].
        simpl. unfold News.update. apply list_elem_of_fmap.
        exists d. by rewrite bool_decide_eq_true_2.
      - by apply count_snoc_message. }
    pose proof (evolves_postNewsMessages client message now rest db1) as Hev.
    split;
      [exact (posted_evolves client db1 _ (NewsRef (News.id c0))
                TelegramChannel Hev Hp)|].
    etrans; [exact Hn|].
    exact (publicationCount_evolves client db1 _ (NewsRef (News.id c0))
             TelegramChannel Hev).
  - apply IH; [|done]. intros c' Hc'. simpl.
    rewrite News_update_ids by done. apply Hids. by right.
Qed.

Lemma find_snoc_true {A : Type} (p : A → bool) l x :
  p x = true → is_Some (List.find p (l ++ [x])).
Proof.
  intros Hx. induction l as [|y l IH]; simpl; [by rewrite Hx|].
  by destruct (p y).
Qed.

(** When the Telegram client is enabled and Telegram accepts every
    message, a channel pass publishes every item it selected, and a group
    pass, given a group, the one story it selected: the item's posted
    state for that destination is set, a message is recorded for it there,
    and the next pass does not select it.  Where the channel and the group
    are two different chats, exactly one message is recorded for the item
    and the destination. *)
Theorem accepted_messages_publish_selection client a dest db item :
  reachable client db →
  enabled client = true →
  match a, dest with
  | RunTelegram coinMessage newsMessage _, TelegramChannel =>
      (∀ c, messageAccepted (coinMessage c))
      ∧ (∀ n, messageAccepted (newsMessage n))
  | RunGroupNews message _, TelegramGroup =>
      groupId client ≠ "" ∧ (∀ n, messageAccepted (message n))
  | _, _ => False
  end →
  item ∈ selection client db dest →
  let db' := run client a db in
  posted client db' item dest
  ∧ (1 ≤ publicationCount client db' item dest)%nat
  ∧ (channelId client ≠ groupId client →
     publicationCount client db' item dest = 1%nat)
  ∧ item ∉ selection client db' dest.
Proof.
  intros Hreach Hon Hacc Hsel db'.
  assert (Hinv : Inv client db').
  { apply Inv_run. by apply Inv_reachable. }
  assert (posted client db' item dest
          ∧ (1 ≤ publicationCount client db' item dest)%nat) as [Hp Hk].
  { subst db'.
    destruct a as [| cm nm now | m now | |], dest; try done; simpl.
    - destruct Hacc as [Hc Hn].
      unfold TelegramService.processPendingMessages. rewrite Hon. simpl.
      unfold TelegramService.processNewsMessages,
        TelegramService.processNewCoinMessages.
      set (db1 := TelegramService.postCoinMessages client cm now
                    (TelegramService.unpostedCoins db) db).
      simpl in Hsel. apply elem_of_app in Hsel as [Hsel|Hsel].
      + apply list_elem_of_fmap in Hsel as (c & -> & Hin). simpl.
        destruct (postCoinMessages_accepted client cm now Hon Hc
                    (TelegramService.unpostedCoins db) db) with (c := c)
          as [Hp Hk]; [|done|].
        { intros c' Hc'. apply list_elem_of_fmap. exists c'. split; [done|].
          by eapply selected_stored. }
        pose proof (evolves_postNewsMessages client nm now
                      (TelegramService.unpostedNews db1) db1) as Hev.
        split;
          [exact (posted_evolves client db1 _ (CoinRef (Coin.id c))
                    TelegramChannel Hev Hp)|].
        etrans; [exact Hk|].
        exact (publicationCount_evolves client db1 _ (CoinRef (Coin.id c))
                 TelegramChannel Hev).
      + apply list_elem_of_fmap in Hsel as (n & -> & Hin). simpl.
        assert (Hcoll : newsColl db1 = newsColl db)
          by apply postCoinMessages_newsColl.
        assert (Hun : TelegramService.unpostedNews db1
                      = TelegramService.unpostedNews db).
        { unfold TelegramService.unpostedNews. by rewrite Hcoll. }
        apply (postNewsMessages_accepted client nm now Hon Hn
                 (TelegramService.unpostedNews db1) db1); [|by rewrite Hun].
        intros n' Hn'. apply list_elem_of_fmap. exists n'. split; [done|].
        by eapply selected_stored.
    - destruct Hacc as [Hg Hm].
      unfold TelegramService.processGroupNews.
      destruct (groupId client) as [|gch gid] eqn:Eg; [done|]. simpl.
      rewrite <- Eg. simpl in Hsel.
      destruct (TelegramService.newsToPost client db) as [story0|] eqn:Es;
        [|by apply elem_of_nil in Hsel].
      apply list_elem_of_singleton in Hsel as ->.
      destruct (sendMessage_accepted client (m story0) Hon (Hm story0))
        as (messageId & -> & -> & Hr).
      unfold TelegramMessage.save. simpl. rewrite Hr. split.
      + unfold TelegramService.isNewsPostedToDestination,
          TelegramMessage.findOne. simpl.
        edestruct (find_snoc_true
          (λ m0, bool_decide (TelegramMessage.newsId m0 = Some (News.id story0))
                 && bool_decide (TelegramMessage.chatId m0
                                 = Some (groupId client))
                 && TelegramMessage.isPosted m0)
          (telegramMessages db)) as [found ->]; [|done].
        simpl. by rewrite !bool_decide_eq_true_2.
      + by apply count_snoc_message. }
  split; [done|]. split; [done|]. split.
  - intros Hne.
    pose proof (publicationCount_le_1 client db' item dest Hinv
                  (or_intror (or_intror Hne))).
    lia.
  - by apply posted_not_selected.
Qed.

Lemma accepted_messages_publish_selection_witness :
  let db' := run demoClient (RunGroupNews (messageOk 43) 6200) demoSaved in
  selection demoClient demoSaved TelegramGroup = [NewsRef "n1"]
  ∧ posted demoClient db' (NewsRef "n1") TelegramGroup
  ∧ publicationCount demoClient db' (NewsRef "n1") TelegramGroup = 1%nat
  ∧ NewsRef "n1" ∉ selection demoClient db' TelegramGroup.
Proof.
  intros db'. split; [vm_compute; reflexivity|].
  destruct (accepted_messages_publish_selection demoClient
              (RunGroupNews (messageOk 43) 6200) TelegramGroup demoSaved
              (NewsRef "n1")) as (Hp & _ & Hone & Hsel).
  - apply reachable_runAll, reachable_empty.
  - reflexivity.
  - split; [done|]. intros n. split; [done|]. by exists 43.
  - vm_compute. apply list_elem_of_here.
  - split; [exact Hp|]. split; [|exact Hsel].
    apply Hone. vm_compute. discriminate.
Defined.

(** * Further properties of the monitoring runs *)

Lemma runAll_app client xs ys db :
  runAll client (xs ++ ys) db = runAll client ys (runAll client xs db).
Proof. unfold runAll. by rewrite foldl_app. Qed.

Lemma monitorNetworkLaunches_as_save clock result :
  ∃ coinList, ∀ coll,
    (MonitoringService.monitorNetworkLaunches clock result coll).1
    = (saveNewCoins clock coinList coll).1.
Proof.
  unfold MonitoringService.monitorNetworkLaunches.
  destruct (success result), (data result) as [found|];
    try by (exists []).
  exists found. intros coll. unfold saveNewCoins.
  by rewrite saveNewCoinsFrom_filterNewPairs.
Qed.

Lemma monitorNews_as_saves clock newsResult :
  ∃ generalItems suiItems, ∀ coll,
    MonitoringService.monitorNews clock newsResult coll
    = (saveNews clock suiItems (saveNews clock generalItems coll).1.1).1.1.
Proof.
  unfold MonitoringService.monitorNews.
  destruct (success newsResult), (data newsResult) as [all|];
    try by (exists [], []).
  exists (general all), (sui_news all). intros coll.
  destruct (general all) as [|g gs], (sui_news all) as [|s ss]; done.
Qed.

Lemma monitorOneSource_as_save clock newsResult :
  ∃ newsItems, ∀ coll,
    MonitoringService.monitorOneSource clock newsResult coll
    = (saveNews clock newsItems coll).1.1.
Proof.
  unfold MonitoringService.monitorOneSource.
  destruct (success newsResult), (data newsResult) as [items|];
    try by (exists []).
  by exists items.
Qed.

Lemma monitorNetworks_as_saves client feeds networks : ∀ i,
  ∃ actions,
    Forall isSave actions
    ∧ ∀ db, MonitoringCycle.monitorNetworks feeds i networks db
            = runAll client actions db.
Proof.
  induction networks as [|network rest IH]; intros i; simpl.
  - by exists [].
  - destruct (IH (S i)) as (actions & Hsave & Hrun).
    destruct (monitorNetworkLaunches_as_save
                (MonitoringCycle.coinClock feeds i)
                (MonitoringCycle.scans feeds i network)) as (coinList & Hc).
    exists (RunSaveCoins (MonitoringCycle.coinClock feeds i) coinList
              :: actions).
    split; [by constructor|].
    intros db. rewrite Hrun. simpl. f_equal.
    unfold MonitoringCycle.onCoins. by rewrite Hc.
Qed.

Lemma news_step_as_saves client clock (f : list News.t → list News.t) :
  (∃ first second, ∀ coll,
     f coll = (saveNews clock second (saveNews clock first coll).1.1).1.1) →
  ∃ actions,
    Forall isSave actions
    ∧ ∀ db, MonitoringCycle.onNews f db = runAll client actions db.
Proof.
  intros (first & second & Hf).
  exists [RunSaveNews clock first; RunSaveNews clock second].
  split; [by repeat constructor|].
  intros db. unfold MonitoringCycle.onNews. by rewrite Hf.
Qed.

Lemma one_source_as_two clock newsResult :
  ∃ first second, ∀ coll,
    MonitoringService.monitorOneSource clock newsResult coll
    = (saveNews clock second (saveNews clock first coll).1.1).1.1.
Proof.
  destruct (monitorOneSource_as_save clock newsResult) as (items & H).
  exists [], items. intros coll. by rewrite H.
Qed.

Lemma saves_frame client actions : ∀ db,
  Forall isSave actions → monitoringFrame db (runAll client actions db).
Proof.
  induction actions as [|a actions IH]; intros db Hall.
  - by repeat split.
  - apply Forall_cons in Hall as [Ha Hall].
    change (runAll client (a :: actions) db)
      with (runAll client actions (run client a db)).
    destruct (IH (run client a db) Hall) as (H1 & H2 & H3 & H4).
    destruct a as [| | |clock coinList|clock newsItems]; try done; simpl in *.
    + repeat split; [|done..].
      etrans; [|exact H1].
      destruct (saveNewCoinsFrom_appends clock coinList (coins db) 0)
        as (added & Hout & _).
      unfold saveNewCoins. rewrite Hout. by apply prefix_app_r.
    + repeat split; [done| |done..].
      etrans; [|exact H2].
      destruct (saveNewsFrom_appends clock newsItems (newsColl db) 0 0)
        as (added & Hout & _).
      unfold saveNews. rewrite Hout. by apply prefix_app_r.
Qed.

Lemma full_as_saves client feeds :
  ∃ actions,
    Forall isSave actions
    ∧ ∀ db, MonitoringCycle.runFullMonitoring feeds db
            = runAll client actions db.
Proof.
  unfold MonitoringCycle.runFullMonitoring, MonitoringCycle.monitorNewLaunches.
  destruct (monitorNetworks_as_saves client feeds [sui; bnb] 0)
    as (xs & Hxs & Hx).
  destruct (news_step_as_saves client (MonitoringCycle.newsClock feeds)
              (MonitoringService.monitorNews (MonitoringCycle.newsClock feeds)
                 (MonitoringCycle.allNews feeds))
              (monitorNews_as_saves _ _)) as (ys & Hys & Hy).
  exists (xs ++ ys). split; [by apply Forall_app|].
  intros db. by rewrite Hx, Hy, runAll_app.
Qed.

Lemma custom_as_saves client options feeds :
  ∃ actions,
    Forall isSave actions
    ∧ ∀ db, MonitoringCycle.runCustomMonitoring options feeds db
            = runAll client actions db.
Proof.
  unfold MonitoringCycle.runCustomMonitoring.
  assert (∃ xs, Forall isSave xs ∧ ∀ db,
    (if default true (MonitoringCycle.includeCoins options)
     then MonitoringCycle.monitorNetworks feeds 0
            (default [sui; bnb] (MonitoringCycle.networks options)) db
     else db) = runAll client xs db) as (xs & Hxs & Hx).
  { destruct (default true _); [apply monitorNetworks_as_saves|].
    by exists []. }
  assert (∃ ys, Forall isSave ys ∧ ∀ db1,
    (if default true (MonitoringCycle.includeGeneralNews options)
        && default true (MonitoringCycle.includeSuiNews options)
     then MonitoringCycle.onNews
            (MonitoringService.monitorNews (MonitoringCycle.newsClock feeds)
               (MonitoringCycle.allNews feeds)) db1
     else if default true (MonitoringCycle.includeGeneralNews options)
     then MonitoringCycle.onNews
            (MonitoringService.monitorGeneralNews
               (MonitoringCycle.newsClock feeds)
               (MonitoringCycle.cryptoPanicNews feeds)) db1
     else if default true (MonitoringCycle.includeSuiNews options)
     then MonitoringCycle.onNews
            (MonitoringService.monitorSuiNews
               (MonitoringCycle.newsClock feeds)
               (MonitoringCycle.suiNews feeds))
            db1
     else db1) = runAll client ys db1) as (ys & Hys & Hy).
  { destruct (default true (MonitoringCycle.includeGeneralNews options)),
      (default true (MonitoringCycle.includeSuiNews options)); simpl.
    - eapply news_step_as_saves, monitorNews_as_saves.
    - eapply news_step_as_saves, one_source_as_two.
    - eapply news_step_as_saves, one_source_as_two.
    - by exists []. }
  exists (xs ++ ys). split; [by apply Forall_app|].
  intros db. by rewrite Hy, Hx, runAll_app.
Qed.

(** A monitoring run, full or custom, whatever its options and whatever
    the scanner and the news service answer, amounts to a sequence of
    save tasks: it only appends documents to the two item collections,
    touches no flag and no publication record, and leads from a state the
    system can reach to a state the system can reach. *)
Theorem monitoring_runs_only_save client options feeds db :
  let full := MonitoringCycle.runFullMonitoring feeds db in
  let custom := MonitoringCycle.runCustomMonitoring options feeds db in
  (∃ actions, Forall isSave actions ∧ full = runAll client actions db)
  ∧ (∃ actions, Forall isSave actions ∧ custom = runAll client actions db)
  ∧ monitoringFrame db full
  ∧ monitoringFrame db custom
  ∧ (reachable client db → reachable client full ∧ reachable client custom).
Proof.
  intros full custom. subst full custom.
  destruct (full_as_saves client feeds) as (xs & Hxs & Hx).
  destruct (custom_as_saves client options feeds) as (ys & Hys & Hy).
  rewrite Hx, Hy.
  split; [by exists xs|]. split; [by exists ys|].
  split; [by apply saves_frame|]. split; [by apply saves_frame|].
  intros Hreach. split; by apply reachable_runAll.
Qed.

(** A full run on the empty database: the pair reported by both scans is
    stored once, the chain-specific story is stored, the general one is
    not. *)
Example runFullMonitoring_sample :
  let db := MonitoringCycle.runFullMonitoring demoFeeds emptyDb in
  Coin.id <$> coins db = ["0xabc1-7"]
  ∧ News.id <$> newsColl db = ["n1"].
Proof. vm_compute. by split. Qed.

(** * Further properties: what the store keeps of the chain-specific news *)

Lemma is_space_lower c : Js.is_space (Js.lower_char c) = Js.is_space c.
Proof. by destruct c as [[] [] [] [] [] [] [] []]. Qed.

Lemma toLowerCase_trimStart s :
  Js.toLowerCase (Js.trimStart s) = Js.trimStart (Js.toLowerCase s).
Proof.
  induction s as [|c r IH]; simpl; [done|].
  rewrite is_space_lower. by destruct (Js.is_space c).
Qed.

Lemma toLowerCase_rev_app s acc :
  Js.toLowerCase (String.rev_app s acc)
  = String.rev_app (Js.toLowerCase s) (Js.toLowerCase acc).
Proof.
  revert acc. induction s as [|c r IH]; intros acc; simpl; [done|].
  by rewrite IH.
Qed.

Lemma toLowerCase_trim s :
  Js.toLowerCase (Js.trim s) = Js.trim (Js.toLowerCase s).
Proof.
  unfold Js.trim, Js.trimEnd, String.rev.
  by rewrite toLowerCase_rev_app, toLowerCase_trimStart, toLowerCase_rev_app,
    toLowerCase_trimStart.
Qed.

Lemma append_cons c r s : String c r +:+ s = String c (r +:+ s).
Proof. done. Qed.

Lemma append_nil_r s : s +:+ "" = s.
Proof. induction s as [|c r IH]; [done|]. by rewrite append_cons, IH. Qed.

Lemma append_assoc a b c : (a +:+ b) +:+ c = a +:+ (b +:+ c).
Proof.
  induction a as [|x a IH]; [done|]. by rewrite !append_cons, IH.
Qed.

Lemma rev_app_rev_app s a b :
  String.rev_app (String.rev_app s a) b = String.rev_app a (s +:+ b).
Proof.
  revert a b. induction s as [|c r IH]; intros a b; simpl; [done|].
  by rewrite IH.
Qed.

Lemma rev_rev s : String.rev (String.rev s) = s.
Proof.
  unfold String.rev. rewrite rev_app_rev_app. simpl. apply append_nil_r.
Qed.

Lemma rev_app_spec s acc : String.rev_app s acc = String.rev s +:+ acc.
Proof.
  unfold String.rev. revert acc.
  induction s as [|c r IH]; intros acc; simpl; [done|].
  rewrite IH, (IH (String c "")). by rewrite append_assoc.
Qed.

Lemma rev_app_snoc u c acc :
  String.rev_app (u +:+ String c "") acc = String c (String.rev_app u acc).
Proof.
  revert acc. induction u as [|x u IH]; intros acc; [done|].
  rewrite append_cons. simpl. by rewrite IH.
Qed.

Lemma rev_snoc u c : String.rev (u +:+ String c "") = String c (String.rev u).
Proof. apply rev_app_snoc. Qed.

Lemma trimStart_idem s : Js.trimStart (Js.trimStart s) = Js.trimStart s.
Proof.
  induction s as [|c r IH]; simpl; [done|].
  destruct (Js.is_space c) eqn:E; [done|]. simpl. by rewrite E.
Qed.

Lemma trimStart_clean s : startsClean (Js.trimStart s).
Proof.
  induction s as [|c r IH]; simpl; [done|].
  by destruct (Js.is_space c) eqn:E.
Qed.

Lemma trimStart_of_clean s : startsClean s → Js.trimStart s = s.
Proof. destruct s as [|c r]; simpl; [done|]. by intros ->. Qed.

Lemma trimStart_snoc x c :
  Js.is_space c = false →
  ∃ u, Js.trimStart (x +:+ String c "") = u +:+ String c "".
Proof.
  intros Hc. induction x as [|y x IH].
  - exists "". simpl. by rewrite Hc.
  - rewrite append_cons. simpl.
    destruct (Js.is_space y); [done|]. by exists (String y x).
Qed.

Lemma trimEnd_clean s : startsClean s → startsClean (Js.trimEnd s).
Proof.
  destruct s as [|c r]; [done|]. simpl. intros Hc.
  unfold Js.trimEnd, String.rev at 2. simpl. rewrite rev_app_spec.
  destruct (trimStart_snoc (String.rev r) c Hc) as [u ->].
  by rewrite rev_snoc.
Qed.

Lemma trimEnd_idem s : Js.trimEnd (Js.trimEnd s) = Js.trimEnd s.
Proof. unfold Js.trimEnd. by rewrite rev_rev, trimStart_idem. Qed.

Lemma trim_idem s : Js.trim (Js.trim s) = Js.trim s.
Proof.
  unfold Js.trim.
  rewrite (trimStart_of_clean (Js.trimEnd (Js.trimStart s)))
    by apply trimEnd_clean, trimStart_clean.
  apply trimEnd_idem.
Qed.

Lemma titleKey_of_trimmed a b :
  NewsItem.title a = Js.trim (NewsItem.title b) → titleKey a = titleKey b.
Proof.
  unfold titleKey. intros ->. by rewrite toLowerCase_trim, trim_idem.
Qed.

Lemma string_of_Z_inj a b : Js.string_of_Z a = Js.string_of_Z b → a = b.
Proof.
  unfold Js.string_of_Z. intros H. apply DecimalZ.to_int_inj.
  assert (Hn : ∀ z, Z.to_int z ≠ Decimal.Pos Decimal.Nil
                    ∧ Z.to_int z ≠ Decimal.Neg Decimal.Nil).
  { intros [|p|p]; simpl; split; try discriminate; intros [= E];
      by apply DecimalPos.Unsigned.to_uint_nonnil in E. }
  destruct (Hn a), (Hn b).
  assert (Some (Z.to_int a) = Some (Z.to_int b)) as [= ?]; [|done].
  rewrite <- (NilZero.isi (Z.to_int a)), <- (NilZero.isi (Z.to_int b)) by done.
  by rewrite H.
Qed.

Lemma string_of_uint_digits d :
  mentions "_" (NilEmpty.string_of_uint d) = false.
Proof. induction d; simpl; done. Qed.

Lemma string_of_Z_digits z : mentions "_" (Js.string_of_Z z) = false.
Proof.
  unfold Js.string_of_Z, NilZero.string_of_int, NilZero.string_of_uint.
  destruct (Z.to_int z) as [d|d]; destruct d; simpl; try done;
    apply string_of_uint_digits.
Qed.

Lemma split_at_first a b x y :
  mentions "_" a = false → mentions "_" b = false →
  a +:+ "_" +:+ x = b +:+ "_" +:+ y → a = b.
Proof.
  revert b. induction a as [|c a IH]; intros [|c' b] Ha Hb; try done.
  - simpl in Hb. apply orb_false_iff in Hb as [Hc _].
    rewrite append_cons. intros [= <- _]. by rewrite bool_decide_eq_true_2 in Hc.
  - simpl in Ha. apply orb_false_iff in Ha as [Hc _].
    rewrite append_cons. intros [= -> _]. by rewrite bool_decide_eq_true_2 in Hc.
  - simpl in Ha, Hb. apply orb_false_iff in Ha as [_ Ha].
    apply orb_false_iff in Hb as [_ Hb].
    rewrite !append_cons. intros [= -> H]. f_equal. by apply IH.
Qed.

Lemma append_inj_l p x y : p +:+ x = p +:+ y → x = y.
Proof.
  induction p as [|c p IH]; [done|]. rewrite !append_cons.
  intros [= H]. by apply IH.
Qed.

Lemma indexed_id_inj prefix i j x y :
  prefix +:+ Js.string_of_Z (Z.of_nat i) +:+ "_" +:+ x
  = prefix +:+ Js.string_of_Z (Z.of_nat j) +:+ "_" +:+ y →
  i = j.
Proof.
  intros H%append_inj_l.
  apply split_at_first in H; try apply string_of_Z_digits.
  apply string_of_Z_inj in H. lia.
Qed.

Lemma NoDup_imap_id {A : Type} (f : nat → A → NewsItem.t) (l : list A) :
  (∀ i j x y, NewsItem.id (f i x) = NewsItem.id (f j y) → i = j) →
  NoDup (NewsItem.id <$> imap f l).
Proof.
  intros Hinj. apply NoDup_alt. intros i j s Hi Hj.
  rewrite list_lookup_fmap, list_lookup_imap in Hi.
  rewrite list_lookup_fmap, list_lookup_imap in Hj.
  destruct (l !! i) as [x|] eqn:Ex; [|done].
  destruct (l !! j) as [y|] eqn:Ey; [|done].
  simpl in Hi, Hj. apply (Hinj i j x y). congruence.
Qed.

Lemma chain_specific_items_ids now1 now2 newsApi googleRss :
  NoDup (NewsItem.id <$>
           (settledItems (Fulfilled (NewsSources.getSuiNewsFromNewsAPI now1 newsApi))
            ++ settledItems
                 (Fulfilled (NewsSources.getSuiNewsFromGoogleRSS now2 googleRss)))).
Proof.
  rewrite fmap_app. apply NoDup_app. split; [|split].
  - destruct newsApi as [articles|m]; simpl; [|constructor].
    apply NoDup_imap_id. intros i j x y. simpl. apply indexed_id_inj.
  - destruct newsApi as [articles|m]; simpl; [|by intros ? ?%elem_of_nil].
    destruct googleRss as [feed|m]; simpl; [|by intros ? _ ?%elem_of_nil].
    intros s (a & -> & Ha)%list_elem_of_fmap (b & Hb & Hin)%list_elem_of_fmap.
    apply list_elem_of_lookup in Ha as [i Hi], Hin as [j Hj].
    rewrite list_lookup_imap in Hi. rewrite list_lookup_imap in Hj.
    destruct (articles !! i); [|done].
    destruct (take 10 feed !! j); [|done].
    simpl in Hi, Hj. by simplify_eq.
  - destruct googleRss as [feed|m]; simpl; [|constructor].
    apply NoDup_imap_id. intros i j x y. simpl. apply indexed_id_inj.
Qed.

Lemma chain_specific_items_valid clock now1 now2 newsApi googleRss :
  Forall (λ item, News.valid (News.new (clock item) item) = true
                  ∧ NewsItem.network item = "sui"
                  ∧ NewsItem.coinSymbol item = "SUI")
    (settledItems (Fulfilled (NewsSources.getSuiNewsFromNewsAPI now1 newsApi))
     ++ settledItems
          (Fulfilled (NewsSources.getSuiNewsFromGoogleRSS now2 googleRss))).
Proof.
  apply Forall_app. split.
  - destruct newsApi as [articles|m]; simpl; [|constructor].
    apply Forall_imap. intros i x _. done.
  - destruct googleRss as [feed|m]; simpl; [|constructor].
    apply Forall_imap. intros i x _. done.
Qed.

Lemma find_all_false {A : Type} (p : A → bool) l :
  Forall (λ x, p x = false) l → List.find p l = None.
Proof. induction 1 as [|x l Hx _ IH]; simpl; [done|]. by rewrite Hx. Qed.

Lemma saveNewsFrom_all_stored clock items : ∀ coll s k,
  Forall (λ item, News.valid (News.new (clock item) item) = true) items →
  NoDup (NewsItem.id <$> items) →
  (∀ item, item ∈ items → NewsItem.id item ∉ News.id <$> coll) →
  NoDup (titleKey <$> items) →
  (∀ item, item ∈ items → titleKey item ∉ storedKey <$> coll) →
  saveNewsFrom clock items coll s k
  = (coll ++ ((λ d, News.new (clock d) d) <$> items),
     s + Z.of_nat (length items), k).
Proof.
  induction items as [|item rest IH];
    intros coll s k Hvalid Hids Hfresh Hkeys Hnew.
  - simpl. rewrite app_nil_r. do 2 f_equal. lia.
  - apply Forall_cons in Hvalid as [Hv Hvalid].
    rewrite fmap_cons in Hids, Hkeys.
    apply NoDup_cons in Hids as [Hid Hids]. apply NoDup_cons in Hkeys as [Hk Hkeys].
    simpl.
    assert (News.findOne (Js.trim (NewsItem.title item)) coll = None) as ->.
    { unfold News.findOne. apply find_all_false, Forall_forall. intros d Hd.
      apply bool_decide_eq_false_2. intros Ht.
      apply (Hnew item); [by left|]. apply list_elem_of_fmap.
      exists d. split; [|done].
      symmetry. by apply titleKey_of_trimmed. }
    assert (News.save (News.new (clock item) item) coll
            = Some (coll ++ [News.new (clock item) item])) as ->.
    { unfold News.save. rewrite Hv. simpl.
      assert (existsb
                (λ d, bool_decide
                        (News.id d = News.id (News.new (clock item) item)))
                coll = false) as ->; [|done].
      apply not_true_is_false. intros (d & Hd & He)%existsb_exists.
      apply bool_decide_eq_true in He.
      apply (Hfresh item); [by left|]. apply list_elem_of_fmap.
      exists d. split; [done|by apply list_elem_of_In]. }
    rewrite IH; [| done | done | | done | ].
    + rewrite <- (assoc_L (++)). simpl. do 2 f_equal.
      rewrite Nat2Z.inj_succ. lia.
    + intros x Hx. rewrite fmap_app. intros [Hin|Hin]%elem_of_app.
      * apply (Hfresh x); [by right|done].
      * apply list_elem_of_singleton in Hin. apply Hid.
        apply list_elem_of_fmap. by exists x.
    + intros x Hx. rewrite fmap_app. intros [Hin|Hin]%elem_of_app.
      * apply (Hnew x); [by right|done].
      * apply list_elem_of_singleton in Hin. apply Hk.
        apply list_elem_of_fmap. by exists x.
Qed.

(** [saveNews] stores a whole batch, in order, and counts every item as
    saved and none as skipped, when the items pass schema validation and
    their identifiers and normalised titles are pairwise distinct and
    carried by no document stored before. *)
Theorem saveNews_stores_distinct_batch clock items coll :
  Forall (λ item, News.valid (News.new (clock item) item) = true) items →
  NoDup (NewsItem.id <$> items) →
  (∀ item, item ∈ items → NewsItem.id item ∉ News.id <$> coll) →
  NoDup (titleKey <$> items) →
  (∀ item, item ∈ items → titleKey item ∉ storedKey <$> coll) →
  saveNews clock items coll
  = (coll ++ ((λ d, News.new (clock d) d) <$> items),
     Z.of_nat (length items), 0).
Proof.
  intros. unfold saveNews. by rewrite saveNewsFrom_all_stored.
Qed.

Lemma saveNews_stores_distinct_batch_witness :
  let items := [story "n1" "Sui upgrade ships" 2000 "sui" "NewsAPI";
                story "n2" "  Sui Upgrade ships again " 2500 "sui" "Google News"] in
  saveNews (λ _, 3200) items
    [News.new 3100 (story "n0" "Walrus mainnet" 1000 "sui" "NewsAPI")]
  = ([News.new 3100 (story "n0" "Walrus mainnet" 1000 "sui" "NewsAPI")]
     ++ (News.new 3200 <$> items), 2, 0).
Proof.
  intros items.
  apply (saveNews_stores_distinct_batch (λ _, 3200) items
           [News.new 3100 (story "n0" "Walrus mainnet" 1000 "sui" "NewsAPI")]).
  - repeat constructor.
  - compute_done.
  - apply Forall_forall. compute_done.
  - compute_done.
  - apply Forall_forall. compute_done.
Defined.

(** On an empty [News] collection, everything the chain-specific path
    returns from its two clients is stored: [monitorSuiNews] stores one
    document per item of [getSuiNews], in order, none is rejected by the
    schema or by the unique index and none is skipped as a duplicate,
    because the clients build items tagged ["sui"] with pairwise distinct
    identifiers and [removeDuplicates] is at least as strict as the title
    lookup of [saveNews]. *)
Theorem chain_specific_news_all_stored clock now1 now2 newsApi googleRss :
  let result :=
    getSuiNews
      (Fulfilled (NewsSources.getSuiNewsFromNewsAPI now1 newsApi))
      (Fulfilled (NewsSources.getSuiNewsFromGoogleRSS now2 googleRss)) in
  ∃ items,
    success result = true
    ∧ data result = Some items
    ∧ saveNews clock items []
      = ((λ d, News.new (clock d) d) <$> items, Z.of_nat (length items), 0)
    ∧ MonitoringService.monitorSuiNews clock result []
      = (λ d, News.new (clock d) d) <$> items
    ∧ Forall (λ n, NewsItem.network (News.doc n) = "sui"
                   ∧ NewsItem.coinSymbol (News.doc n) = "SUI"
                   ∧ News.isPosted n = false
                   ∧ News.isTelegramPosted n = false)
        ((λ d, News.new (clock d) d) <$> items).
Proof.
  intros result. subst result. unfold getSuiNews. simpl.
  set (merged :=
         settledItems (Fulfilled (NewsSources.getSuiNewsFromNewsAPI now1 newsApi))
         ++ settledItems
              (Fulfilled (NewsSources.getSuiNewsFromGoogleRSS now2 googleRss))).
  exists (removeDuplicates merged).
  destruct (removeDuplicates_facts merged) as (Hkeys & Hsub & _).
  pose proof (chain_specific_items_valid clock now1 now2 newsApi googleRss)
    as Hvalid.
  fold merged in Hvalid.
  assert (Hall : Forall (λ item, News.valid (News.new (clock item) item) = true
                                 ∧ NewsItem.network item = "sui"
                                 ∧ NewsItem.coinSymbol item = "SUI")
                   (removeDuplicates merged)).
  { apply Forall_forall. intros item Hin. apply Hsub in Hin.
    by eapply Forall_forall in Hvalid. }
  assert (Hsave : saveNewsFrom clock (removeDuplicates merged) [] 0 0
                  = ((λ d, News.new (clock d) d) <$> removeDuplicates merged,
                     Z.of_nat (length (removeDuplicates merged)), 0)).
  { rewrite saveNewsFrom_all_stored; [done| | |by intros ? _ ?%elem_of_nil
                                         |done|by intros ? _ ?%elem_of_nil].
    - eapply Forall_impl; [exact Hall|]. by intros item [? _].
    - apply (sublist_NoDup _ (NewsItem.id <$> merged));
        [apply (chain_specific_items_ids now1 now2 newsApi googleRss)|].
      apply fmap_sublist, removeDuplicatesFrom_sublist. }
  split; [done|]. split; [done|]. split; [exact Hsave|].
  split.
  - change ((saveNewsFrom clock (removeDuplicates merged) [] 0 0).1.1
            = (λ d, News.new (clock d) d) <$> removeDuplicates merged).
    by rewrite Hsave.
  - apply Forall_fmap. eapply Forall_impl; [exact Hall|].
    by intros item (_ & ? & ?).
Qed.

(** * Further properties of the selection *)

Lemma query_newestFirst {X : Type} (key : X → Z) (pending : X → Prop)
    `{!∀ x, Decision (pending x)} (limit : nat) (stored : list X) :
  newestFirst key pending limit stored
    (take limit (Js.sortDesc key (filter pending stored))).
Proof.
  set (sorted := Js.sortDesc key (filter pending stored)).
  pose proof (sortDesc_sorted key (filter pending stored)) as Hs.
  pose proof (sortDesc_perm key (filter pending stored)) as Hp.
  fold sorted in Hs, Hp.
  split; [|split; [|split]].
  - rewrite length_take. by rewrite Hp.
  - rewrite <- (take_drop limit sorted) in Hs.
    by apply StronglySorted_app_1_l in Hs.
  - intros c Hc. eapply elem_of_sublist in Hc; [|apply sublist_take].
    rewrite Hp in Hc. apply list_elem_of_filter in Hc as [? ?]. by split.
  - intros c d Hc Hd Hpd Hnot.
    assert (d ∈ sorted) as Hin.
    { rewrite Hp. by apply list_elem_of_filter. }
    rewrite <- (take_drop limit sorted) in Hin, Hs.
    apply elem_of_app in Hin as [Hin|Hin]; [done|].
    exact (StronglySorted_app_1_elem_of _ _ _ c d Hs Hc Hin).
Qed.

(** Every pass selects the newest pending items first: the Twitter and
    the channel pass the two unposted coins launched last and the one
    unposted story published last, the group pass among the twenty most
    recent stories; a pending item left out is never more recent than a
    selected one. *)
Theorem passes_select_newest_first db :
  newestFirst Coin.launchTime (λ c, Coin.isPosted c = false) 2
    (coins db) (TweetService.unpostedCoins db)
  ∧ newestFirst News.publishedAt (λ n, News.isPosted n = false) 1
      (newsColl db) (TweetService.unpostedNews db)
  ∧ newestFirst Coin.launchTime (λ c, Coin.isTelegramPosted c = false) 2
      (coins db) (TelegramService.unpostedCoins db)
  ∧ newestFirst News.publishedAt (λ n, News.isTelegramPosted n = false) 1
      (newsColl db) (TelegramService.unpostedNews db)
  ∧ newestFirst News.publishedAt
      (λ n, NewsItem.network (News.doc n) ∈ ["general"; "sui"; "bnb"]) 20
      (newsColl db) (TelegramService.allNews db).
Proof.
  do 4 (split; [apply query_newestFirst|]). apply query_newestFirst.
Qed.
